(** * Omnitrace tracing engine: a shallow embedding of the roctracer callbacks
      and of the Python trace adapter, with the properties of their
      specification.

    The development follows the two translation units of the tracer:

    - [ClockSkew], [Roctracer] and [Lifecycle] embed
      [roctracer_callbacks.cpp]: [get_clock_skew], [hsa_api_callback],
      [hip_exec_activity_callbacks], [hip_api_callback],
      [hip_activity_callback] and [OnLoad];
    - [PyModule] and [PyProfile] embed [libpyomnitrace.cpp]: the
      [initialize] overloads and [profiler_function].

    Machine integers are [Z] with the wrap-around written out, C strings are
    [string] ([None] for a null pointer), [std::unordered_map] is [gmap],
    thrown C++ exceptions and undefined behaviour are explicit outcomes. *)

From Stdlib Require Import ZArith Lia List Bool Ascii String.
From stdpp Require Import base gmap strings list fin_maps pretty.

Local Open Scope Z_scope.

(** ** Clock reconciler: [get_clock_skew] *)

Module ClockSkew.

(** [uint64_t] and [int64_t] conversions (two's complement). *)
Definition wrap_u64 (z : Z) : Z := z mod 2 ^ 64.
Definition wrap_i64 (z : Z) : Z := (z + 2 ^ 63) mod 2 ^ 64 - 2 ^ 63.

(** [sum_from f i n] is [f i + f (i+1) + ... + f (i+n-1)]. *)
Fixpoint sum_from (f : nat → Z) (i n : nat) : Z :=
  match n with
  | O => 0
  | S n' => f i + sum_from f (S i) n'
  end.

Section get_clock_skew.

(** The two clocks are external: [_cpu_now k] is the value returned by the
    [k]-th call of [comp::wall_clock::record()] (an [int64_t]) and
    [_gpu_now k] the value stored by the [k]-th call of
    [roctracer_get_timestamp] (a [uint64_t]), every call taken to succeed.
    Read number 0 of each clock is the warm-up read of the
    [do { } while(false)] block. *)
Variable _cpu_now : nat → Z.
Variable _gpu_now : nat → Z.

(** The lambda [_compute], on the three reads of one iteration:
    [_cpu_ts += _cpu_now() / 2; _gpu_ts += _gpu_now() / 1;
     _cpu_ts += _cpu_now() / 2;] on [volatile uint64_t] accumulators, then
    the difference of the two values cast to [int64_t]. *)
Definition _compute (h1 d h2 : Z) : Z :=
  let _cpu_ts := 0 in
  let _gpu_ts := 0 in
  let _cpu_ts := wrap_u64 (_cpu_ts + Z.quot h1 2) in
  let _gpu_ts := wrap_u64 (_gpu_ts + Z.quot d 1) in
  let _cpu_ts := wrap_u64 (_cpu_ts + Z.quot h2 2) in
  wrap_i64 (wrap_i64 _cpu_ts - wrap_i64 _gpu_ts).

(** Reads used by iteration [i] of the [for] loop (after the warm-up). *)
Definition host1 (i : nat) : Z := _cpu_now (2 * i + 1)%nat.
Definition device (i : nat) : Z := _gpu_now (i + 1)%nat.
Definition host2 (i : nat) : Z := _cpu_now (2 * i + 2)%nat.

(** [for(int64_t i = 0; i < _n; ++i) _diff += _compute(_cpu_ts, _gpu_ts);]
    ([_cpu_ave] and [_gpu_ave] are only printed and are left out). *)
Fixpoint skew_loop (fuel i : nat) (_diff : Z) : Z :=
  match fuel with
  | O => _diff
  | S fuel' =>
      skew_loop fuel' (S i)
        (wrap_i64 (_diff + _compute (host1 i) (device i) (host2 i)))
  end.

Definition _n : Z := 10.

(** The cached value [_v]: [_diff /= _n] is C++ truncating division. *)
Definition _v : Z := Z.quot (skew_loop (Z.to_nat _n) 0 0) _n.

(** [_use] is the value of [OMNITRACE_USE_ROCTRACER_CLOCK_SKEW]. *)
Definition get_clock_skew (_use : bool) : Z := if _use then _v else 0.

(** What one iteration contributes in the code when nothing wraps. *)
Definition code_diff (i : nat) : Z :=
  Z.quot (host1 i) 2 + Z.quot (host2 i) 2 - device i.

(** The specification's words, for comparison: in each iteration
    [avg(host1, host2) - device], and the average of the [N = 10]
    differences.  The average is a rational number,
    [(1/10) Σ ((host1 + host2)/2 - device)
     = (1/20) Σ (host1 + host2 - 2 device)];
    [average_x20] is twenty times it, so that nothing is rounded, and an
    integer [v] is the average when [20 v] is [average_x20]. *)
Definition diff_x2 (i : nat) : Z := host1 i + host2 i - 2 * device i.
Definition average_x20 : Z := sum_from diff_x2 0 (Z.to_nat _n).
Definition is_the_average (v : Z) : Prop := 20 * v = average_x20.

(** Range assumption under which no conversion wraps: timestamps are
    non-negative [int64_t] values and the host and device clocks are less
    than [2^59] ns apart, at the reads the loop makes. *)
Definition in_range : Prop :=
  (∀ k, (k ≤ 20)%nat → 0 ≤ _cpu_now k < 2 ^ 63) ∧
  (∀ k, (k ≤ 10)%nat → 0 ≤ _gpu_now k < 2 ^ 63) ∧
  (∀ i, (i < 10)%nat → - 2 ^ 59 < code_diff i < 2 ^ 59).

(** No conversion and no addition of the code wraps: the host reads of the
    ten iterations are not negative (an [int64_t] added to a [uint64_t]),
    the device reads fit an [int64_t] (the cast of [_gpu_ts]), and the
    running sum [_diff] stays an [int64_t] in every iteration.  The warm-up
    reads are dropped and are not constrained. *)
Definition no_conversion_wraps : Prop :=
  (∀ k, (1 ≤ k ≤ 20)%nat → 0 ≤ _cpu_now k < 2 ^ 63) ∧
  (∀ k, (1 ≤ k ≤ 10)%nat → 0 ≤ _gpu_now k < 2 ^ 63) ∧
  (∀ n, (n ≤ 10)%nat → - 2 ^ 63 ≤ sum_from code_diff 0 n < 2 ^ 63).

End get_clock_skew.

(** A host clock whose reads are all odd, two ticks apart, and a device
    clock: every iteration sees [avg(host1, host2) - device = 100]. *)
Definition odd_host_clock : nat → Z := λ k, 1001 + 2 * Z.of_nat k.
Definition steady_device_clock : nat → Z := λ k, 900 + 4 * Z.of_nat k.

(** A host clock one tick per read from 1000 ns and a device clock running
    100 ns behind. *)
Definition demo_host_clock : nat → Z := λ k, 1000 + Z.of_nat k.
Definition demo_device_clock : nat → Z := λ k, 900 + 2 * Z.of_nat k.

End ClockSkew.

(** ** The roctracer callbacks *)

Module Roctracer.

(** [omnitrace::State], compared with [<] in [OnLoad]. *)
Inductive State := State_PreInit | State_Init | State_Active | State_Finalized.

Definition State_rank (s : State) : Z :=
  match s with
  | State_PreInit => 0 | State_Init => 1 | State_Active => 2
  | State_Finalized => 3
  end.

Global Instance State_eq_dec : EqDecision State.
Proof. solve_decision. Defined.

(** The settings and build constants the callbacks read.  They are defined
    outside this translation unit and are taken as they are when a callback
    runs. *)
Record config := {
  get_state : State;
  runtime_enabled : bool;          (* trait::runtime_enabled<comp::roctracer> *)
  get_use_perfetto : bool;
  get_use_timemory : bool;
  get_use_rocm_smi : bool;
  get_use_critical_trace : bool;
  task_group_pool : bool;          (* tasking::roctracer::get_task_group().pool() *)
  OMNITRACE_HIP_VERSION_MAJOR : Z;
  OMNITRACE_HIP_VERSION_MINOR : Z;
  max_supported_threads : nat;
  clock_skew : Z                   (* the cached value of get_clock_skew() *)
}.

(** *** Identifiers of the runtime *)

(** The HSA API ids named in the [switch] of [hsa_api_callback]; every other
    id is [HSA_API_ID_other]. *)
Inductive hsa_api_id :=
| HSA_API_ID_hsa_init | HSA_API_ID_hsa_shut_down
| HSA_API_ID_hsa_agent_get_exception_policies | HSA_API_ID_hsa_agent_get_info
| HSA_API_ID_hsa_amd_agent_iterate_memory_pools
| HSA_API_ID_hsa_amd_agent_memory_pool_get_info
| HSA_API_ID_hsa_amd_coherency_get_type | HSA_API_ID_hsa_amd_memory_pool_get_info
| HSA_API_ID_hsa_amd_pointer_info | HSA_API_ID_hsa_amd_pointer_info_set_userdata
| HSA_API_ID_hsa_amd_profiling_async_copy_enable
| HSA_API_ID_hsa_amd_profiling_get_async_copy_time
| HSA_API_ID_hsa_amd_profiling_get_dispatch_time
| HSA_API_ID_hsa_amd_profiling_set_profiler_enabled
| HSA_API_ID_hsa_cache_get_info | HSA_API_ID_hsa_code_object_get_info
| HSA_API_ID_hsa_code_object_get_symbol
| HSA_API_ID_hsa_code_object_get_symbol_from_name
| HSA_API_ID_hsa_code_object_reader_create_from_memory
| HSA_API_ID_hsa_code_symbol_get_info | HSA_API_ID_hsa_executable_create_alt
| HSA_API_ID_hsa_executable_freeze | HSA_API_ID_hsa_executable_get_info
| HSA_API_ID_hsa_executable_get_symbol
| HSA_API_ID_hsa_executable_get_symbol_by_name
| HSA_API_ID_hsa_executable_symbol_get_info | HSA_API_ID_hsa_extension_get_name
| HSA_API_ID_hsa_ext_image_data_get_info
| HSA_API_ID_hsa_ext_image_data_get_info_with_layout
| HSA_API_ID_hsa_ext_image_get_capability
| HSA_API_ID_hsa_ext_image_get_capability_with_layout
| HSA_API_ID_hsa_isa_get_exception_policies | HSA_API_ID_hsa_isa_get_info
| HSA_API_ID_hsa_isa_get_info_alt | HSA_API_ID_hsa_isa_get_round_method
| HSA_API_ID_hsa_region_get_info | HSA_API_ID_hsa_system_extension_supported
| HSA_API_ID_hsa_system_get_extension_table | HSA_API_ID_hsa_system_get_info
| HSA_API_ID_hsa_system_get_major_extension_table
| HSA_API_ID_hsa_wavefront_get_info
| HSA_API_ID_other (n : Z).

Global Instance hsa_api_id_eq_dec : EqDecision hsa_api_id.
Proof. solve_decision. Defined.

(** The HIP API ids named in [hip_api_callback]. *)
Inductive hip_api_id :=
| HIP_API_ID___hipPushCallConfiguration | HIP_API_ID___hipPopCallConfiguration
| HIP_API_ID_hipDeviceEnablePeerAccess
| HIP_API_ID_hipImportExternalMemory | HIP_API_ID_hipDestroyExternalMemory
| HIP_API_ID_hipLaunchKernel | HIP_API_ID_hipModuleLaunchKernel
| HIP_API_ID_hipHccModuleLaunchKernel | HIP_API_ID_hipLaunchCooperativeKernel
| HIP_API_ID_hipExtLaunchKernel | HIP_API_ID_hipExtModuleLaunchKernel
| HIP_API_ID_hipExtStreamCreateWithCUMask | HIP_API_ID_hipExtStreamGetCUMask
| HIP_API_ID_hipStreamSynchronize | HIP_API_ID_hipConfigureCall
| HIP_API_ID_hipDrvMemcpy3DAsync | HIP_API_ID_hipEventRecord
| HIP_API_ID_hipMemPrefetchAsync | HIP_API_ID_hipMemcpy2DAsync
| HIP_API_ID_hipMemcpy2DFromArrayAsync | HIP_API_ID_hipMemcpy2DToArrayAsync
| HIP_API_ID_hipMemcpy3DAsync | HIP_API_ID_hipMemcpyAsync
| HIP_API_ID_hipMemcpyDtoDAsync | HIP_API_ID_hipMemcpyDtoHAsync
| HIP_API_ID_hipMemcpyFromSymbolAsync | HIP_API_ID_hipMemcpyHtoDAsync
| HIP_API_ID_hipMemcpyParam2DAsync | HIP_API_ID_hipMemcpyPeerAsync
| HIP_API_ID_hipMemcpyToSymbolAsync | HIP_API_ID_hipMemcpyWithStream
| HIP_API_ID_hipMemset2DAsync | HIP_API_ID_hipMemset3DAsync
| HIP_API_ID_hipMemsetAsync | HIP_API_ID_hipMemsetD16Async
| HIP_API_ID_hipMemsetD32Async | HIP_API_ID_hipMemsetD8Async
| HIP_API_ID_hipStreamAddCallback | HIP_API_ID_hipStreamAttachMemAsync
| HIP_API_ID_hipStreamDestroy | HIP_API_ID_hipStreamGetFlags
| HIP_API_ID_hipStreamGetPriority | HIP_API_ID_hipStreamQuery
| HIP_API_ID_hipStreamWaitEvent | HIP_API_ID_hipStreamWaitValue32
| HIP_API_ID_hipStreamWaitValue64 | HIP_API_ID_hipStreamWriteValue32
| HIP_API_ID_hipStreamWriteValue64
| HIP_API_ID_hipGraphLaunch | HIP_API_ID_hipGraphicsMapResources
| HIP_API_ID_hipGraphicsUnmapResources
| HIP_API_ID_hipSignalExternalSemaphoresAsync
| HIP_API_ID_hipStreamBeginCapture | HIP_API_ID_hipStreamEndCapture
| HIP_API_ID_hipWaitExternalSemaphoresAsync
| HIP_API_ID_hipStreamIsCapturing | HIP_API_ID_hipStreamGetCaptureInfo
| HIP_API_ID_hipStreamGetCaptureInfo_v2
| HIP_API_ID_hipStreamUpdateCaptureDependencies
| HIP_API_ID_other (n : Z).

Global Instance hip_api_id_eq_dec : EqDecision hip_api_id.
Proof. solve_decision. Defined.

Inductive activity_domain :=
| ACTIVITY_DOMAIN_HSA_API | ACTIVITY_DOMAIN_HSA_OPS | ACTIVITY_DOMAIN_HIP_OPS
| ACTIVITY_DOMAIN_HIP_API | ACTIVITY_DOMAIN_other (n : Z).

Global Instance activity_domain_eq_dec : EqDecision activity_domain.
Proof. solve_decision. Defined.

(** [data->phase]. *)
Inductive api_phase :=
| ACTIVITY_API_PHASE_ENTER | ACTIVITY_API_PHASE_EXIT | ACTIVITY_API_PHASE_other (n : Z).

(** The asserted values of the device op ids. *)
Definition HIP_OP_ID_DISPATCH : Z := 0.
Definition HIP_OP_ID_COPY : Z := 1.
Definition HIP_OP_ID_BARRIER : Z := 2.

(** *** Data passed to the callbacks *)

(** The members of the [args] union that the callback reads.  The union is
    flattened: [stream]/[hStream] is the stream member of the active
    alternative, [function_address]/[f] its kernel handle. *)
Record hip_api_args := {
  stream : Z; hStream : Z; function_address : Z; f : Z
}.

Record hip_api_data_t := {
  hip_phase : api_phase;
  hip_correlation_id : Z;
  args : hip_api_args
}.

Record hsa_api_data_t := {
  hsa_phase : api_phase;
  hsa_correlation_id : Z
}.

Record roctracer_record_t := {
  domain : activity_domain;
  op : Z;
  kind : Z;
  begin_ns : Z;
  end_ns : Z;
  correlation_id : Z;
  device_id : Z;
  queue_id : Z;
  process_id : Z
}.

(** What the helpers outside this file return during one invocation of a
    callback: [threading::get_id()], [comp::wall_clock::record()] and
    [create_cpu_cid_entry()]. *)
Abbreviation cid_tuple_t := (Z * Z * Z)%type.

Record ambient := {
  thread_id : Z;
  wall_clock_record : Z;
  cpu_cid_entry : cid_tuple_t
}.

(** *** What the callbacks emit *)

Inductive Device := CPU | GPU.
Inductive Phase := BEGIN | END | DELTA.

Inductive annotation := Aint (z : Z) | Astr (s : string).

Global Instance annotation_eq_dec : EqDecision annotation.
Proof. solve_decision. Defined.

(** The closure [_func] queued by [hip_activity_callback]: a
    [roctracer_bundle_t] sample of [_end_ns - _beg_ns] under [_name]. *)
Record closure := {
  closure_name : string;
  closure_beg_ns : Z;
  closure_end_ns : Z
}.

Inductive action :=
| TRACE_EVENT_BEGIN (category : string) (name : option string) (ts : Z)
    (flow : option Z) (annotations : list (string * annotation))
| TRACE_EVENT_END (category : string) (ts : Z)
| bundle_start (corr_id : Z) (name : string)   (* roctracer_bundle_t::start *)
| bundle_stop (corr_id : Z) (name : string)    (* roctracer_bundle_t::stop *)
| task_group_exec (name : option string) (delta : Z)
    (* roctracer_hsa_bundle_t: start, store of the double [delta], stop *)
| add_critical_trace (dev : Device) (ph : Phase)
    (tid cid corr_id pcid ts_beg ts_end queue : Z) (hash_name : string)
    (depth : Z) (prio : option Z)
| run_closure (c : closure)
| mutex_lock (tid : Z)                          (* get_hip_activity_mutex(tid) *)
| mutex_unlock (tid : Z).

(** An event is an action together with the thread that performs it. *)
Definition event : Type := Z * action.

(** *** The process-wide state *)

Record tracer_state := {
  key_data : gmap Z string;                     (* get_roctracer_key_data() *)
  tid_data : gmap Z Z;                          (* get_roctracer_tid_data() *)
  cid_data : gmap Z cid_tuple_t;                (* get_roctracer_cid_data() *)
  hip_data : gmap Z (gmap Z string);            (* get_roctracer_hip_data(tid) *)
  activity_callbacks : gmap Z (list (option closure));
                                                (* get_hip_activity_callbacks(tid) *)
  begin_timestamp : gmap Z Z;                   (* thread_local, hsa_api_callback *)
  _indexes : gmap Z Z;                          (* static, hip_activity_callback *)
  _kernel_names : gmap string string            (* static, hip_activity_callback *)
}.

Definition initial_state : tracer_state :=
  {| key_data := ∅; tid_data := ∅; cid_data := ∅; hip_data := ∅;
     activity_callbacks := ∅; begin_timestamp := ∅; _indexes := ∅;
     _kernel_names := ∅ |}.

(** The result of running a callback: the state it leaves, the events it
    emitted in order, and the exception that escaped it, if any. *)
Record run := {
  final : tracer_state;
  emitted : list event;
  thrown : option string
}.

Definition returns (s : tracer_state) (es : list event) : run :=
  {| final := s; emitted := es; thrown := None |}.

(** [std::unordered_map::emplace]: inserts only when the key is absent. *)
Definition emplace {V} (k : Z) (v : V) (m : gmap Z V) : gmap Z V :=
  match m !! k with
  | Some _ => m
  | None => <[k := v]> m
  end.

Definition set_key_tid (s : tracer_state) (k : gmap Z string) (t : gmap Z Z) :=
  {| key_data := k; tid_data := t; cid_data := cid_data s;
     hip_data := hip_data s; activity_callbacks := activity_callbacks s;
     begin_timestamp := begin_timestamp s; _indexes := _indexes s;
     _kernel_names := _kernel_names s |}.

Definition set_cid_data (s : tracer_state) (c : gmap Z cid_tuple_t) :=
  {| key_data := key_data s; tid_data := tid_data s; cid_data := c;
     hip_data := hip_data s; activity_callbacks := activity_callbacks s;
     begin_timestamp := begin_timestamp s; _indexes := _indexes s;
     _kernel_names := _kernel_names s |}.

Definition set_hip_data (s : tracer_state) (h : gmap Z (gmap Z string)) :=
  {| key_data := key_data s; tid_data := tid_data s; cid_data := cid_data s;
     hip_data := h; activity_callbacks := activity_callbacks s;
     begin_timestamp := begin_timestamp s; _indexes := _indexes s;
     _kernel_names := _kernel_names s |}.

Definition set_activity_callbacks (s : tracer_state)
    (q : gmap Z (list (option closure))) :=
  {| key_data := key_data s; tid_data := tid_data s; cid_data := cid_data s;
     hip_data := hip_data s; activity_callbacks := q;
     begin_timestamp := begin_timestamp s; _indexes := _indexes s;
     _kernel_names := _kernel_names s |}.

Definition set_begin_timestamp (s : tracer_state) (b : gmap Z Z) :=
  {| key_data := key_data s; tid_data := tid_data s; cid_data := cid_data s;
     hip_data := hip_data s; activity_callbacks := activity_callbacks s;
     begin_timestamp := b; _indexes := _indexes s;
     _kernel_names := _kernel_names s |}.

Definition set_indexes (s : tracer_state) (i : gmap Z Z) :=
  {| key_data := key_data s; tid_data := tid_data s; cid_data := cid_data s;
     hip_data := hip_data s; activity_callbacks := activity_callbacks s;
     begin_timestamp := begin_timestamp s; _indexes := i;
     _kernel_names := _kernel_names s |}.

Definition set_kernel_names (s : tracer_state) (k : gmap string string) :=
  {| key_data := key_data s; tid_data := tid_data s; cid_data := cid_data s;
     hip_data := hip_data s; activity_callbacks := activity_callbacks s;
     begin_timestamp := begin_timestamp s; _indexes := _indexes s;
     _kernel_names := k |}.

(** [static_cast<double>] of a 64-bit integer: the nearest value with a
    53-bit significand, ties to the even significand (the default rounding
    of IEEE 754 binary64).  The double is kept as the integer it equals; the
    conversion is exact up to [2^53] in magnitude. *)
Definition static_cast_double (z : Z) : Z :=
  let a := Z.abs z in
  let sh := Z.log2 a - 52 in
  if sh <=? 0 then z
  else
    let q := Z.shiftr a sh in
    let r := a - Z.shiftl q sh in
    let half := Z.shiftl 1 (sh - 1) in
    let q' :=
      if (half <? r) || ((r =? half) && Z.odd q) then q + 1 else q in
    Z.sgn z * Z.shiftl q' sh.

Section callbacks.

(** Helpers of the HIP/roctracer runtime, outside this repository:
    [roctracer_op_string] at each of the three domains it is called with,
    [hip_api_name], the kernel-name lookups and [tim::demangle]. *)
Variable hsa_op_string : hsa_api_id → option string.
Variable hip_op_string : hip_api_id → option string.
Variable hip_api_name : hip_api_id → option string.
Variable hip_ops_string : Z → Z → option string.
Variable hipKernelNameRefByPtr : Z → Z → option string.
Variable hipKernelNameRef : Z → option string.
Variable demangle : string → string.

Definition tracing_enabled (cfg : config) : bool :=
  bool_decide (get_state cfg = State_Active) && runtime_enabled cfg.

(** **** [hsa_api_callback] *)

(** The ids whose [case] label falls through to the bare [break]. *)
Definition hsa_skipped (cid : hsa_api_id) : bool :=
  match cid with
  | HSA_API_ID_other _ => false
  | _ => true
  end.

Definition hsa_api_callback (cfg : config) (amb : ambient)
    (cid : hsa_api_id) (data : hsa_api_data_t) (s : tracer_state) : run :=
  if negb (tracing_enabled cfg) then returns s []
  else if hsa_skipped cid then returns s []
  else
    let self := thread_id amb in
    let begin_ts := default 0 (begin_timestamp s !! self) in
    match hsa_phase data with
    | ACTIVITY_API_PHASE_ENTER =>
        returns
          (set_begin_timestamp s
             (<[self := wall_clock_record amb]> (begin_timestamp s))) []
    | _ =>
        let _name := hsa_op_string cid in
        let end_timestamp :=
          if decide (cid = HSA_API_ID_hsa_shut_down) then begin_ts
          else wall_clock_record amb in
        if end_timestamp <? begin_ts then returns s []
        else
          let perfetto :=
            if get_use_perfetto cfg then
              [ (self, TRACE_EVENT_BEGIN "device" _name
                         (ClockSkew.wrap_u64 begin_ts) None []);
                (self, TRACE_EVENT_END "device"
                         (ClockSkew.wrap_u64 end_timestamp)) ]
            else [] in
          let timemory :=
            if get_use_timemory cfg && task_group_pool cfg then
              [ (self, task_group_exec _name
                         (static_cast_double
                            (ClockSkew.wrap_i64 (end_timestamp - begin_ts)))) ]
            else [] in
          returns s (perfetto ++ timemory)
    end.

(** **** [hip_exec_activity_callbacks] *)

(** [if(itr) itr();] for every element, in the order of the vector. *)
Definition run_closures (self : Z) (q : list (option closure)) : list event :=
  omap (λ itr, (λ c, (self, run_closure c)) <$> itr) q.

(** The scoped lock [_lk] is taken first and released when the function
    returns; a missing key is the null [_async_ops] of the early return. *)
Definition hip_exec_activity_callbacks (self _tid : Z) (s : tracer_state)
    : tracer_state * list event :=
  match activity_callbacks s !! _tid with
  | None => (s, [(self, mutex_lock _tid); (self, mutex_unlock _tid)])
  | Some _async_ops =>
      (set_activity_callbacks s (<[_tid := []]> (activity_callbacks s)),
       [(self, mutex_lock _tid)] ++ run_closures self _async_ops
         ++ [(self, mutex_unlock _tid)])
  end.

(** **** [hip_api_callback] *)

Definition hip_version_ge_4_3 (cfg : config) : bool :=
  (4 <? OMNITRACE_HIP_VERSION_MAJOR cfg)
  || ((OMNITRACE_HIP_VERSION_MAJOR cfg =? 4)
      && (3 <=? OMNITRACE_HIP_VERSION_MINOR cfg)).

(** The first [switch]: ids for which the callback returns at once. *)
Definition hip_skipped (cfg : config) (cid : hip_api_id) : bool :=
  match cid with
  | HIP_API_ID___hipPushCallConfiguration
  | HIP_API_ID___hipPopCallConfiguration
  | HIP_API_ID_hipDeviceEnablePeerAccess => true
  | HIP_API_ID_hipImportExternalMemory
  | HIP_API_ID_hipDestroyExternalMemory => hip_version_ge_4_3 cfg
  | _ => false
  end.

(** The second [switch] ([OMNITRACE_HIP_API_QUEUE_CASE]): the stream of
    the call, or 0. *)
Definition hip_queue (cfg : config) (cid : hip_api_id) (a : hip_api_args) : Z :=
  match cid with
  | HIP_API_ID___hipPushCallConfiguration
  | HIP_API_ID___hipPopCallConfiguration
  | HIP_API_ID_hipDeviceEnablePeerAccess
  | HIP_API_ID_hipImportExternalMemory
  | HIP_API_ID_hipDestroyExternalMemory
  | HIP_API_ID_other _ => 0
  | HIP_API_ID_hipHccModuleLaunchKernel
  | HIP_API_ID_hipExtModuleLaunchKernel => hStream a
  | HIP_API_ID_hipGraphLaunch | HIP_API_ID_hipGraphicsMapResources
  | HIP_API_ID_hipGraphicsUnmapResources
  | HIP_API_ID_hipSignalExternalSemaphoresAsync
  | HIP_API_ID_hipStreamBeginCapture | HIP_API_ID_hipStreamEndCapture
  | HIP_API_ID_hipWaitExternalSemaphoresAsync =>
      if (4 <=? OMNITRACE_HIP_VERSION_MAJOR cfg)
         && (5 <=? OMNITRACE_HIP_VERSION_MINOR cfg)
      then stream a else 0
  | HIP_API_ID_hipStreamIsCapturing | HIP_API_ID_hipStreamGetCaptureInfo
  | HIP_API_ID_hipStreamGetCaptureInfo_v2
  | HIP_API_ID_hipStreamUpdateCaptureDependencies =>
      if 5 <=? OMNITRACE_HIP_VERSION_MAJOR cfg then stream a else 0
  | _ => stream a
  end.

(** The third [switch], in the ENTER phase: the kernel name of a launch. *)
Definition hip_kernel_name (cid : hip_api_id) (a : hip_api_args) : option string :=
  match cid with
  | HIP_API_ID_hipLaunchKernel =>
      hipKernelNameRefByPtr (function_address a) (stream a)
  | HIP_API_ID_hipLaunchCooperativeKernel =>
      match hipKernelNameRefByPtr (f a) (stream a) with
      | Some n => Some n
      | None => hipKernelNameRefByPtr (function_address a) (stream a)
      end
  | HIP_API_ID_hipHccModuleLaunchKernel
  | HIP_API_ID_hipModuleLaunchKernel
  | HIP_API_ID_hipExtModuleLaunchKernel => hipKernelNameRef (f a)
  | HIP_API_ID_hipExtLaunchKernel =>
      hipKernelNameRefByPtr (function_address a) (stream a)
  | _ => None
  end.

(** [op_name = roctracer_op_string(...); if null, hip_api_name(cid)]. *)
Definition hip_op_name (cid : hip_api_id) : option string :=
  match hip_op_string cid with
  | Some n => Some n
  | None => hip_api_name cid
  end.

Definition thread_hip_data (s : tracer_state) (t : Z) : gmap Z string :=
  default ∅ (hip_data s !! t).

(** The lambda [_stop] of the EXIT phase, on the data of thread [t]. *)
Definition _stop (_corr_id : Z) (s : tracer_state) (t : Z)
    : option (tracer_state * action) :=
  match thread_hip_data s t !! _corr_id with
  | Some b =>
      Some (set_hip_data s
              (<[t := delete _corr_id (thread_hip_data s t)]> (hip_data s)),
            bundle_stop _corr_id b)
  | None => None
  end.

(** [for(size_t i = 0; i < max_supported_threads; ++i) if(_stop(i)) break;] *)
Fixpoint stop_any (_corr_id : Z) (s : tracer_state) (ts : list Z)
    : option (tracer_state * action) :=
  match ts with
  | [] => None
  | i :: ts' =>
      match _stop _corr_id s i with
      | Some r => Some r
      | None => stop_any _corr_id s ts'
      end
  end.

Definition hip_api_enter (cfg : config) (amb : ambient) (cid : hip_api_id)
    (op_name : string) (data : hip_api_data_t) (s : tracer_state) : run :=
  let _ts := wall_clock_record amb in
  let _tid := thread_id amb in
  let _queue := hip_queue cfg cid (args data) in
  let _corr_id := hip_correlation_id data in
  let s :=
    match hip_kernel_name cid (args data) with
    | Some _name =>
        if get_use_perfetto cfg || get_use_timemory cfg || get_use_rocm_smi cfg
        then set_key_tid s (emplace _corr_id _name (key_data s))
                         (emplace _corr_id _tid (tid_data s))
        else s
    | None => s
    end in
  let '(_cid, _parent_cid, _depth) := cpu_cid_entry amb in
  let perfetto :=
    if get_use_perfetto cfg then
      [ (_tid, TRACE_EVENT_BEGIN "host" (Some op_name)
                 (ClockSkew.wrap_u64 _ts) (Some _cid)
                 [ ("pcid", Aint _parent_cid); ("cid", Aint _cid);
                   ("tid", Aint _tid); ("depth", Aint _depth);
                   ("corr_id", Aint _corr_id) ]) ]
    else [] in
  let '(s, timemory) :=
    if get_use_timemory cfg then
      match thread_hip_data s _tid !! _corr_id with
      | None =>
          (set_hip_data s
             (<[_tid := <[_corr_id := op_name]> (thread_hip_data s _tid)]>
                (hip_data s)),
           [ (_tid, bundle_start _corr_id op_name) ])
      | Some b =>
          (set_hip_data s
             (<[_tid := delete _corr_id (thread_hip_data s _tid)]>
                (hip_data s)),
           [ (_tid, bundle_stop _corr_id b) ])
      end
    else (s, []) in
  let critical :=
    if get_use_critical_trace cfg || get_use_rocm_smi cfg then
      [ (_tid, add_critical_trace CPU BEGIN _tid _cid _corr_id _parent_cid
                 _ts 0 _queue op_name _depth None) ]
    else [] in
  let s := set_cid_data s
             (emplace _corr_id (_cid, _parent_cid, _depth) (cid_data s)) in
  let '(s, drained) := hip_exec_activity_callbacks _tid _tid s in
  returns s (perfetto ++ timemory ++ critical ++ drained).

Definition hip_api_exit (cfg : config) (amb : ambient) (cid : hip_api_id)
    (op_name : string) (data : hip_api_data_t) (s : tracer_state) : run :=
  let _ts := wall_clock_record amb in
  let _tid := thread_id amb in
  let _queue := hip_queue cfg cid (args data) in
  let _corr_id := hip_correlation_id data in
  let '(s, drained) := hip_exec_activity_callbacks _tid _tid s in
  match cid_data s !! _corr_id with
  | None =>   (* std::unordered_map::at *)
      {| final := s; emitted := drained; thrown := Some "std::out_of_range" |}
  | Some (_cid, _parent_cid, _depth) =>
      let perfetto :=
        if get_use_perfetto cfg then
          [ (_tid, TRACE_EVENT_END "host" (ClockSkew.wrap_u64 _ts)) ]
        else [] in
      let '(s, timemory) :=
        if get_use_timemory cfg then
          match _stop _corr_id s _tid with
          | Some (s', a) => (s', [ (_tid, a) ])
          | None =>
              match stop_any _corr_id s
                      (Z.of_nat <$> seq 0 (max_supported_threads cfg)) with
              | Some (s', a) => (s', [ (_tid, a) ])
              | None => (s, [])
              end
          end
        else (s, []) in
      let critical :=
        if get_use_critical_trace cfg || get_use_rocm_smi cfg then
          [ (_tid, add_critical_trace CPU END _tid _cid _corr_id _parent_cid
                     _ts _ts _queue op_name _depth None) ]
        else [] in
      returns s (drained ++ perfetto ++ timemory ++ critical)
  end.

Definition hip_api_callback (cfg : config) (amb : ambient)
    (cid : hip_api_id) (data : hip_api_data_t) (s : tracer_state) : run :=
  if negb (tracing_enabled cfg) then returns s []
  else
    match hip_op_name cid with
    | None => returns s []
    | Some op_name =>
        if hip_skipped cfg cid then returns s []
        else
          match hip_phase data with
          | ACTIVITY_API_PHASE_ENTER => hip_api_enter cfg amb cid op_name data s
          | ACTIVITY_API_PHASE_EXIT => hip_api_exit cfg amb cid op_name data s
          | ACTIVITY_API_PHASE_other _ => returns s []
          end
    end.

(** **** [hip_activity_callback] *)

Definition _op_id_names : list string := ["DISPATCH"; "COPY"; "BARRIER"].

(** The body of the [while] loop for one record; the scope guard
    [_next_dtor] advances to the next record on every path.  The [assert]s
    are those of a release build (no effect). *)
Definition hip_activity_record (cfg : config) (self : Z)
    (record : roctracer_record_t) (s : tracer_state)
    : tracer_state * list event :=
  if negb (bool_decide (domain record = ACTIVITY_DOMAIN_HIP_OPS)) then (s, [])
  else if HIP_OP_ID_BARRIER <? op record then (s, [])
  else
    let op_name := hip_ops_string (op record) (kind record) in
    let _beg_ns := ClockSkew.wrap_u64 (begin_ns record + clock_skew cfg) in
    let _end_ns := ClockSkew.wrap_u64 (end_ns record + clock_skew cfg) in
    let _corr_id := correlation_id record in
    let _laps := default 0 (_indexes s !! _corr_id) in
    let s := set_indexes s (<[_corr_id := _laps + 1]> (_indexes s)) in
    let '(_found, _tid, _name) :=
      match tid_data s !! _corr_id with
      | Some t => (true, t, key_data s !! _corr_id)
      | None => (false, 0, None)
      end in
    match (match _name with Some n => Some n | None => op_name end) with
    | None => (s, [])
    | Some _name =>
        let '(_critical_trace, (_cid, _pcid, _depth)) :=
          if get_use_critical_trace cfg || get_use_rocm_smi cfg then
            match cid_data s !! _corr_id with
            | Some t => (true, t)
            | None => (false, (0, 0, 0))
            end
          else (false, (0, 0, 0)) in
        let '(s, perfetto) :=
          if get_use_perfetto cfg then
            let names :=
              match _kernel_names s !! _name with
              | Some _ => _kernel_names s
              | None => <[_name := demangle _name]> (_kernel_names s)
              end in
            (set_kernel_names s names,
             [ (self, TRACE_EVENT_BEGIN "device" (names !! _name) _beg_ns
                        (Some _cid)
                        [ ("corr_id", Aint (correlation_id record));
                          ("device", Aint (device_id record));
                          ("queue", Aint (queue_id record));
                          ("op", Astr (default ""
                                   (_op_id_names !! Z.to_nat (op record)))) ]);
               (self, TRACE_EVENT_END "device" _end_ns);
               (self, TRACE_EVENT_END "device" _end_ns) ])
          else (s, []) in
        let critical :=
          if _critical_trace then
            [ (self, add_critical_trace GPU DELTA _tid _cid _corr_id _cid
                       _beg_ns _end_ns (queue_id record) _name (_depth + 1)
                       (Some (_laps + 1))) ]
          else [] in
        let s :=
          if _found && get_use_timemory cfg then
            let _func := {| closure_name := _name; closure_beg_ns := _beg_ns;
                            closure_end_ns := _end_ns |} in
            set_activity_callbacks s
              (<[_tid := default [] (activity_callbacks s !! _tid)
                           ++ [Some _func]]> (activity_callbacks s))
          else s in
        (s, perfetto ++ critical)
    end.

(** [while(record < end_record)] over the records of the buffer. *)
Fixpoint hip_activity_records (cfg : config) (self : Z)
    (buffer : list roctracer_record_t) (s : tracer_state)
    : tracer_state * list event :=
  match buffer with
  | [] => (s, [])
  | record :: rest =>
      let '(s1, es1) := hip_activity_record cfg self record s in
      let '(s2, es2) := hip_activity_records cfg self rest s1 in
      (s2, es1 ++ es2)
  end.

Definition hip_activity_callback (cfg : config) (self : Z)
    (buffer : list roctracer_record_t) (s : tracer_state)
    : tracer_state * list event :=
  if negb (tracing_enabled cfg) then (s, [])
  else hip_activity_records cfg self buffer s.

End callbacks.

(** *** Observations on emitted events *)

(** The sinks a host event can go to. *)
Inductive sink := Perfetto | Timemory | CriticalTrace.

Global Instance sink_eq_dec : EqDecision sink.
Proof. solve_decision. Defined.

Definition sink_enabled (cfg : config) (k : sink) : bool :=
  match k with
  | Perfetto => get_use_perfetto cfg
  | Timemory => get_use_timemory cfg
  | CriticalTrace => get_use_critical_trace cfg || get_use_rocm_smi cfg
  end.

(** [host_begin k c e]: [e] is the BEGIN of a host API call with correlation
    id [c], going to sink [k]. *)
Definition host_begin (k : sink) (c : Z) (e : event) : bool :=
  match k, e.2 with
  | Perfetto, TRACE_EVENT_BEGIN category _ _ _ ann =>
      bool_decide (category = "host")
      && bool_decide (("corr_id", Aint c) ∈ ann)
  | Timemory, bundle_start c' _ => bool_decide (c' = c)
  | CriticalTrace, add_critical_trace CPU BEGIN _ _ c' _ _ _ _ _ _ _ =>
      bool_decide (c' = c)
  | _, _ => false
  end.

(** [host_end k c e]: [e] is an END of a host API call going to sink [k];
    the perfetto END carries no correlation id. *)
Definition host_end (k : sink) (c : Z) (e : event) : bool :=
  match k, e.2 with
  | Perfetto, TRACE_EVENT_END category _ => bool_decide (category = "host")
  | Timemory, bundle_stop c' _ => bool_decide (c' = c)
  | CriticalTrace, add_critical_trace CPU END _ _ c' _ _ _ _ _ _ _ =>
      bool_decide (c' = c)
  | _, _ => false
  end.

(** The host timestamp an event carries, when it carries one. *)
Definition host_timestamp (e : event) : option Z :=
  match e.2 with
  | TRACE_EVENT_BEGIN category _ ts _ _ =>
      if decide (category = "host") then Some ts else None
  | TRACE_EVENT_END category ts =>
      if decide (category = "host") then Some ts else None
  | add_critical_trace CPU BEGIN _ _ _ _ ts _ _ _ _ _ => Some ts
  | add_critical_trace CPU END _ _ _ _ _ ts _ _ _ _ => Some ts
  | _ => None
  end.

Definition count_events (p : event → bool) (es : list event) : nat :=
  length (List.filter p es).

(** A device span on the perfetto timeline: its BEGIN. *)
Definition device_span_name (e : event) : option (Z * option string) :=
  match e.2 with
  | TRACE_EVENT_BEGIN category name _ _ _ =>
      if decide (category = "device") then Some (e.1, name) else None
  | _ => None
  end.

(** The names and threads of the device spans among the events. *)
Definition device_spans (es : list event) : list (Z * option string) :=
  omap device_span_name es.

(** Whether the activity mutex of [tid] is held after the events [es],
    starting from [held]. *)
Fixpoint lock_held (tid : Z) (held : bool) (es : list event) : bool :=
  match es with
  | [] => held
  | (_, mutex_lock t) :: es' =>
      lock_held tid (if decide (t = tid) then true else held) es'
  | (_, mutex_unlock t) :: es' =>
      lock_held tid (if decide (t = tid) then false else held) es'
  | _ :: es' => lock_held tid held es'
  end.

(** [closures_run_with tid b held es]: every closure executed in [es] is
    executed while the mutex of [tid] is held ([b = true]) or not held
    ([b = false]). *)
Fixpoint closures_run_with (tid : Z) (b held : bool) (es : list event) : bool :=
  match es with
  | [] => true
  | (_, mutex_lock t) :: es' =>
      closures_run_with tid b (if decide (t = tid) then true else held) es'
  | (_, mutex_unlock t) :: es' =>
      closures_run_with tid b (if decide (t = tid) then false else held) es'
  | (_, run_closure _) :: es' =>
      bool_decide (held = b) && closures_run_with tid b held es'
  | _ :: es' => closures_run_with tid b held es'
  end.

(** The closures executed, in order. *)
Definition closures_run (es : list event) : list closure :=
  omap (λ e : event, match e.2 with run_closure c => Some c | _ => None end) es.

(** The non-empty closures of a queue, in insertion order. *)
Definition queued (q : list (option closure)) : list closure := omap id q.

Definition queue_of (s : tracer_state) (tid : Z) : list (option closure) :=
  default [] (activity_callbacks s !! tid).

(** *** Predicates of the properties and sample inputs *)

(** The claim of the specification about a drain, as it is written: the
    closures are executed while the mutex is released, in insertion order,
    and the queue is empty afterwards. *)
Definition drains_outside_lock (self tid : Z) (s : tracer_state) : Prop :=
  let r := hip_exec_activity_callbacks self tid s in
  closures_run_with tid false false r.2 = true
  ∧ closures_run r.2 = queued (queue_of s tid)
  ∧ queue_of r.1 tid = [].

(** The events of a drain are lock operations and closure executions: none
    is a host BEGIN or END and none carries a host timestamp. *)
Definition not_a_host_event (e : event) : Prop :=
  (∀ k c, host_begin k c e = false) ∧ (∀ k c, host_end k c e = false)
  ∧ host_timestamp e = None.

(** A host call with correlation id [c], entered on thread [tid], is
    outstanding in [s]: its causal triple is registered and, when the
    timemory sink is on, its bundle is still running in the thread's data. *)
Definition outstanding (cfg : config) (tid c : Z) (s : tracer_state) : Prop :=
  is_Some (cid_data s !! c)
  ∧ (get_use_timemory cfg = true → is_Some (thread_hip_data s tid !! c)).

(** Every host timestamp among the events is [ts]. *)
Definition stamped (ts : Z) (es : list event) : Prop :=
  Forall (λ e, ∀ t, host_timestamp e = Some t → t = ts) es.

(** The ordering of the claim, as the specification words it: every
    timestamp of an END emitted by the EXIT is greater than or equal to
    every timestamp of a BEGIN emitted by the ENTER. *)
Definition end_not_before_begin (r1 r2 : run) : Prop :=
  ∀ e1 e2 t1 t2,
    e1 ∈ emitted r1 → e2 ∈ emitted r2 →
    host_timestamp e1 = Some t1 → host_timestamp e2 = Some t2 →
    t1 ≤ t2.

(** The call passes the gates at the top of [hip_api_callback]: tracing is
    active, the API has a name and its id is not one of the skipped ids. *)
Definition traced (hip_op_string hip_api_name : hip_api_id → option string)
    (cfg : config) (cid : hip_api_id) : Prop :=
  tracing_enabled cfg = true
  ∧ is_Some (hip_op_name hip_op_string hip_api_name cid)
  ∧ hip_skipped cfg cid = false.

(** The demangle cache only ever holds [demangle] of its keys. *)
Definition cache_consistent (demangle : string → string) (s : tracer_state)
    : Prop :=
  ∀ n v, _kernel_names s !! n = Some v → v = demangle n.

(** The correlation id is in none of the three registry maps. *)
Definition unregistered (c : Z) (s : tracer_state) : Prop :=
  key_data s !! c = None ∧ tid_data s !! c = None ∧ cid_data s !! c = None.

(** The record passes the two [continue] guards of the loop. *)
Definition device_op (record : roctracer_record_t) : Prop :=
  domain record = ACTIVITY_DOMAIN_HIP_OPS ∧ op record ≤ HIP_OP_ID_BARRIER.

(** The claim about a record with an unknown correlation id, as the
    specification words it: the record gives one span, named by the
    op-string of the runtime, on the current thread. *)
Definition emits_fallback_span (hip_ops_string : Z → Z → option string)
    (demangle : string → string) (cfg : config) (self : Z)
    (record : roctracer_record_t) (s : tracer_state) : Prop :=
  ∃ n, hip_ops_string (op record) (kind record) = Some n
       ∧ device_spans
           (hip_activity_callback hip_ops_string demangle cfg self
              [record] s).2 = [(self, Some n)].

(** The perfetto span of a record under the name [n]: one BEGIN and the two
    ENDs of the source. *)
Definition perfetto_span (cfg : config) (self : Z)
    (record : roctracer_record_t) (n : string) : list event :=
  let _beg_ns := ClockSkew.wrap_u64 (begin_ns record + clock_skew cfg) in
  let _end_ns := ClockSkew.wrap_u64 (end_ns record + clock_skew cfg) in
  [ (self, TRACE_EVENT_BEGIN "device" (Some n) _beg_ns (Some 0)
             [ ("corr_id", Aint (correlation_id record));
               ("device", Aint (device_id record));
               ("queue", Aint (queue_id record));
               ("op", Astr (default ""
                        (_op_id_names !! Z.to_nat (op record)))) ]);
    (self, TRACE_EVENT_END "device" _end_ns);
    (self, TRACE_EVENT_END "device" _end_ns) ].

(** Modelled from the spec: the op-string helper of the runtime
    ([roctracer_op_string] at the device-ops domain), which is not part of
    this repository, gives the generic names "DISPATCH", "COPY" and
    "BARRIER". *)
Definition generic_op_string (op kind : Z) : option string :=
  _op_id_names !! Z.to_nat op.

Definition one_sample : closure :=
  {| closure_name := "foo"; closure_beg_ns := 900; closure_end_ns := 1900 |}.

(** Thread 1 has one closure waiting. *)
Definition one_pending : tracer_state :=
  set_activity_callbacks initial_state {[ 1 := [Some one_sample] ]}.

Definition perfetto_only : config :=
  {| get_state := State_Active; runtime_enabled := true;
     get_use_perfetto := true; get_use_timemory := false;
     get_use_rocm_smi := false; get_use_critical_trace := false;
     task_group_pool := false;
     OMNITRACE_HIP_VERSION_MAJOR := 5; OMNITRACE_HIP_VERSION_MINOR := 0;
     max_supported_threads := 4; clock_skew := -100 |}.

Definition timemory_only : config :=
  {| get_state := State_Active; runtime_enabled := true;
     get_use_perfetto := false; get_use_timemory := true;
     get_use_rocm_smi := false; get_use_critical_trace := false;
     task_group_pool := true;
     OMNITRACE_HIP_VERSION_MAJOR := 5; OMNITRACE_HIP_VERSION_MINOR := 0;
     max_supported_threads := 4; clock_skew := -100 |}.

Definition on_thread (t now : Z) : ambient :=
  {| thread_id := t; wall_clock_record := now; cpu_cid_entry := (7, 0, 0) |}.

Definition demo_hip_names (cid : hip_api_id) : option string :=
  match cid with
  | HIP_API_ID_hipMemcpyAsync => Some "hipMemcpyAsync"
  | HIP_API_ID_hipLaunchKernel => Some "hipLaunchKernel"
  | _ => None
  end.

Definition memcpy_enter : hip_api_data_t :=
  {| hip_phase := ACTIVITY_API_PHASE_ENTER; hip_correlation_id := 42;
     args := {| stream := 16; hStream := 0; function_address := 0; f := 0 |} |}.

Definition memcpy_exit : hip_api_data_t :=
  {| hip_phase := ACTIVITY_API_PHASE_EXIT; hip_correlation_id := 42;
     args := {| stream := 16; hStream := 0; function_address := 0; f := 0 |} |}.

(** [hip_api_callback] in a process where no kernel name resolves. *)
Definition demo_callback :=
  hip_api_callback demo_hip_names (λ _, None) (λ _ _, None) (λ _, None)
    perfetto_only.

(** A completed copy with a correlation id that was never registered. *)
Definition unknown_copy : roctracer_record_t :=
  {| domain := ACTIVITY_DOMAIN_HIP_OPS; op := HIP_OP_ID_COPY; kind := 0;
     begin_ns := 1000; end_ns := 2000; correlation_id := 999;
     device_id := 0; queue_id := 3; process_id := 77 |}.

(** *** The HSA activity callback *)

(** The op ids of the [switch] of [hsa_activity_callback]. *)
Inductive hsa_op_id :=
| HSA_OP_ID_DISPATCH | HSA_OP_ID_COPY | HSA_OP_ID_BARRIER
| HSA_OP_ID_other (n : Z).

(** The fields of [activity_record_t] that the callback reads. *)
Record activity_record_t := {
  activity_begin_ns : Z;
  activity_end_ns : Z
}.

(** The [switch] selecting one of the three static names. *)
Definition hsa_op_name (op : hsa_op_id) : option string :=
  match op with
  | HSA_OP_ID_DISPATCH => Some "hsa_dispatch"
  | HSA_OP_ID_COPY => Some "hsa_async_copy"
  | HSA_OP_ID_BARRIER => Some "hsa_barrier"
  | HSA_OP_ID_other _ => None
  end.

(** [hsa_activity_callback]: the closure [_func] is handed to the task
    group, when it has a pool; [worker] is the pool thread that runs it. *)
Definition hsa_activity_callback (cfg : config) (worker : Z)
    (op : hsa_op_id) (record : activity_record_t) : list event :=
  if negb (tracing_enabled cfg) then []
  else
    match hsa_op_name op with
    | None => []
    | Some _name =>
        let _beg_ns :=
          ClockSkew.wrap_u64 (activity_begin_ns record + clock_skew cfg) in
        let _end_ns :=
          ClockSkew.wrap_u64 (activity_end_ns record + clock_skew cfg) in
        if task_group_pool cfg then
          (if get_use_perfetto cfg then
             [ (worker,
                TRACE_EVENT_BEGIN "device" (Some _name) _beg_ns None []);
               (worker, TRACE_EVENT_END "device" _end_ns) ]
           else [])
          ++ (if get_use_timemory cfg then
                [ (worker, task_group_exec (Some _name)
                             (static_cast_double
                                (ClockSkew.wrap_u64 (_end_ns - _beg_ns)))) ]
              else [])
        else []
    end.

(** *** Predicates of the further properties and their sample inputs *)

(** The closure that [hip_activity_callback] queues for a record under the
    name [n]. *)
Definition activity_closure (cfg : config) (record : roctracer_record_t)
    (n : string) : closure :=
  {| closure_name := n;
     closure_beg_ns := ClockSkew.wrap_u64 (begin_ns record + clock_skew cfg);
     closure_end_ns := ClockSkew.wrap_u64 (end_ns record + clock_skew cfg) |}.

(** [_end_ns - _beg_ns] as the closure computes it, on [uint64_t]: the
    argument it passes to [set_value] and [set_accum]. *)
Definition closure_duration (c : closure) : Z :=
  ClockSkew.wrap_u64 (closure_end_ns c - closure_beg_ns c).

(** [static_cast<double>(_end_ns - _beg_ns)], the value the closure hands
    to [store]. *)
Definition closure_store (c : closure) : Z :=
  static_cast_double (closure_duration c).

(** The record passes the two [continue] guards, as a test. *)
Definition is_device_op (record : roctracer_record_t) : bool :=
  bool_decide (domain record = ACTIVITY_DOMAIN_HIP_OPS)
  && negb (HIP_OP_ID_BARRIER <? op record).

(** The records of a buffer that pass the guards and carry the id [c]. *)
Definition records_of (c : Z) (buffer : list roctracer_record_t) : nat :=
  length (List.filter
            (λ r, is_device_op r && bool_decide (correlation_id r = c)) buffer).

(** The queue [q'] is [q] with entries added at the back. *)
Definition extends (q q' : list (option closure)) : Prop := q `prefix_of` q'.

(** What the processing of activity records leaves alone: the registry,
    the host data and the begin timestamps stay, queues only grow at the
    back, no host event is emitted, no closure is executed, and the demangle
    cache stays consistent. *)
Definition record_frame (demangle : string → string)
    (s s' : tracer_state) (es : list event) : Prop :=
  key_data s' = key_data s ∧ tid_data s' = tid_data s
  ∧ cid_data s' = cid_data s ∧ hip_data s' = hip_data s
  ∧ begin_timestamp s' = begin_timestamp s
  ∧ (∀ t, extends (queue_of s t) (queue_of s' t))
  ∧ Forall not_a_host_event es ∧ closures_run es = []
  ∧ (cache_consistent demangle s → cache_consistent demangle s').

(** Every entry of the three registry maps of [s] is still in [s']. *)
Definition registry_grows (s s' : tracer_state) : Prop :=
  key_data s ⊆ key_data s' ∧ tid_data s ⊆ tid_data s'
  ∧ cid_data s ⊆ cid_data s'.

(** A process where the function at address 4096 is the kernel
    [_Z3fooPi]. *)
Definition demo_kernel_name (function_address stream : Z) : option string :=
  if decide (function_address = 4096) then Some "_Z3fooPi" else None.

Definition launch_enter : hip_api_data_t :=
  {| hip_phase := ACTIVITY_API_PHASE_ENTER; hip_correlation_id := 43;
     args := {| stream := 16; hStream := 0; function_address := 4096;
                f := 0 |} |}.

Definition launch_exit : hip_api_data_t :=
  {| hip_phase := ACTIVITY_API_PHASE_EXIT; hip_correlation_id := 43;
     args := {| stream := 16; hStream := 0; function_address := 4096;
                f := 0 |} |}.

(** [hip_api_callback] in that process, with the timemory sink. *)
Definition launch_callback :=
  hip_api_callback demo_hip_names (λ _, None) demo_kernel_name (λ _, None)
    timemory_only.

(** The completion record of the launch with correlation id 43. *)
Definition completed_kernel : roctracer_record_t :=
  {| domain := ACTIVITY_DOMAIN_HIP_OPS; op := HIP_OP_ID_DISPATCH; kind := 0;
     begin_ns := 5000; end_ns := 7000; correlation_id := 43;
     device_id := 0; queue_id := 1; process_id := 77 |}.

(** A record of another domain. *)
Definition foreign_record : roctracer_record_t :=
  {| domain := ACTIVITY_DOMAIN_HIP_API; op := 0; kind := 0;
     begin_ns := 1000; end_ns := 2000; correlation_id := 43;
     device_id := 0; queue_id := 0; process_id := 77 |}.

Definition hsa_enter : hsa_api_data_t :=
  {| hsa_phase := ACTIVITY_API_PHASE_ENTER; hsa_correlation_id := 5 |}.

Definition hsa_exit : hsa_api_data_t :=
  {| hsa_phase := ACTIVITY_API_PHASE_EXIT; hsa_correlation_id := 5 |}.

End Roctracer.

(** ** Lifecycle controller: [OnLoad] *)

Module Lifecycle.
Import Roctracer.

(** The two closures that [OnLoad] registers. *)
Inductive routine := _setup | _shutdown.

(** Calls into the roctracer runtime made by the [_setup] closure. *)
Inductive registration :=
| roctracer_set_properties (d : activity_domain)
| roctracer_op_code (d : activity_domain) (api : string)
| roctracer_enable_op_callback (d : activity_domain) (api : string)
| roctracer_enable_domain_callback (d : activity_domain)
| roctracer_enable_op_activity (d : activity_domain) (op : string).

Record load_state := {
  settings_are_configured : bool;       (* config::settings_are_configured() *)
  tool_state : State;                   (* get_state() *)
  tooling_inits : nat;                  (* calls of omnitrace_init_tooling_hidden *)
  sampling_on_child_threads : list bool;(* the pthread_gotcha push/pop stack *)
  clock_skew_cached : bool;             (* get_clock_skew() has run *)
  roctracer_setup_routines : list (string * routine);
  roctracer_shutdown_routines : list (string * routine);
  roctracer_is_setup : bool;
  rocm_smi_state : State;
  registered : list registration        (* runtime calls made so far *)
}.

(** The settings read by the [_setup] closure. *)
Record hsa_settings := {
  get_trace_hsa_api : bool;
  get_trace_hsa_api_types : list string;  (* after tim::delimit *)
  get_trace_hsa_activity : bool
}.

(** The calls that [_setup] makes inside [ROCTRACER_CALL];
    [roctracer_set_properties] is called bare and its status dropped. *)
Definition in_ROCTRACER_CALL (c : registration) : bool :=
  match c with
  | roctracer_set_properties _ => false
  | _ => true
  end.

Section on_load.

(** Whether a [ROCTRACER_CALL] of the registration raises; the macro is
    defined outside this file, and the [try]/[catch] of [_setup] absorbs
    the exception. *)
Variable roctracer_call_throws : registration → bool.

(** Runs the calls in order up to the first one that throws; only a call
    inside [ROCTRACER_CALL] can. *)
Fixpoint roctracer_calls (calls : list registration) : list registration :=
  match calls with
  | [] => []
  | c :: rest =>
      if in_ROCTRACER_CALL c && roctracer_call_throws c then [c]
      else c :: roctracer_calls rest
  end.

(** The body of the [try] block of [_setup]. *)
Definition setup_calls (cfg : hsa_settings) : list registration :=
  (if get_trace_hsa_api cfg then
     roctracer_set_properties ACTIVITY_DOMAIN_HSA_API ::
     match get_trace_hsa_api_types cfg with
     | [] => [roctracer_enable_domain_callback ACTIVITY_DOMAIN_HSA_API]
     | hsa_api_vec =>
         flat_map (λ api,
           [ roctracer_op_code ACTIVITY_DOMAIN_HSA_API api;
             roctracer_enable_op_callback ACTIVITY_DOMAIN_HSA_API api ])
           hsa_api_vec
     end
   else [])
  ++ (if get_trace_hsa_activity cfg then
        [ roctracer_set_properties ACTIVITY_DOMAIN_HSA_OPS;
          roctracer_enable_op_activity ACTIVITY_DOMAIN_HSA_OPS "HSA_OP_ID_COPY" ]
      else []).

Definition run_routine (cfg : hsa_settings) (r : routine) : list registration :=
  match r with
  | _setup => roctracer_calls (setup_calls cfg)
  | _shutdown => []
  end.

(** Modelled from the spec: [comp::roctracer::add_setup],
    [comp::roctracer::add_shutdown] and [comp::roctracer::setup] are
    defined outside this file; they register a closure under its name and
    execute all registered setup closures. *)
Definition add_setup (name : string) (r : routine) (s : load_state) :=
  {| settings_are_configured := settings_are_configured s;
     tool_state := tool_state s; tooling_inits := tooling_inits s;
     sampling_on_child_threads := sampling_on_child_threads s;
     clock_skew_cached := clock_skew_cached s;
     roctracer_setup_routines := roctracer_setup_routines s ++ [(name, r)];
     roctracer_shutdown_routines := roctracer_shutdown_routines s;
     roctracer_is_setup := roctracer_is_setup s;
     rocm_smi_state := rocm_smi_state s; registered := registered s |}.

Definition add_shutdown (name : string) (r : routine) (s : load_state) :=
  {| settings_are_configured := settings_are_configured s;
     tool_state := tool_state s; tooling_inits := tooling_inits s;
     sampling_on_child_threads := sampling_on_child_threads s;
     clock_skew_cached := clock_skew_cached s;
     roctracer_setup_routines := roctracer_setup_routines s;
     roctracer_shutdown_routines := roctracer_shutdown_routines s ++ [(name, r)];
     roctracer_is_setup := roctracer_is_setup s;
     rocm_smi_state := rocm_smi_state s; registered := registered s |}.

Definition setup (cfg : hsa_settings) (s : load_state) :=
  {| settings_are_configured := settings_are_configured s;
     tool_state := tool_state s; tooling_inits := tooling_inits s;
     sampling_on_child_threads := sampling_on_child_threads s;
     clock_skew_cached := clock_skew_cached s;
     roctracer_setup_routines := roctracer_setup_routines s;
     roctracer_shutdown_routines := roctracer_shutdown_routines s;
     roctracer_is_setup := roctracer_is_setup s;
     rocm_smi_state := rocm_smi_state s;
     registered :=
       registered s
       ++ flat_map (λ nr, run_routine cfg nr.2) (roctracer_setup_routines s) |}.

(** The straight-line part of [OnLoad] before the registrations. *)
Definition prepare (s : load_state) : load_state :=
  let init :=
    negb (settings_are_configured s)
    && (State_rank (tool_state s) <? State_rank State_Active) in
  {| settings_are_configured := settings_are_configured s;
     tool_state := tool_state s;
     tooling_inits := if init then S (tooling_inits s) else tooling_inits s;
     sampling_on_child_threads := false :: sampling_on_child_threads s;
     clock_skew_cached := true;
     roctracer_setup_routines := roctracer_setup_routines s;
     roctracer_shutdown_routines := roctracer_shutdown_routines s;
     roctracer_is_setup := roctracer_is_setup s;
     rocm_smi_state := rocm_smi_state s; registered := registered s |}.

Definition finish (s : load_state) : load_state :=
  {| settings_are_configured := settings_are_configured s;
     tool_state := tool_state s; tooling_inits := tooling_inits s;
     sampling_on_child_threads := tail (sampling_on_child_threads s);
     clock_skew_cached := clock_skew_cached s;
     roctracer_setup_routines := roctracer_setup_routines s;
     roctracer_shutdown_routines := roctracer_shutdown_routines s;
     roctracer_is_setup := roctracer_is_setup s;
     rocm_smi_state := rocm_smi_state s; registered := registered s |}.

Definition set_rocm_smi_state (st : State) (s : load_state) : load_state :=
  {| settings_are_configured := settings_are_configured s;
     tool_state := tool_state s; tooling_inits := tooling_inits s;
     sampling_on_child_threads := sampling_on_child_threads s;
     clock_skew_cached := clock_skew_cached s;
     roctracer_setup_routines := roctracer_setup_routines s;
     roctracer_shutdown_routines := roctracer_shutdown_routines s;
     roctracer_is_setup := roctracer_is_setup s;
     rocm_smi_state := st; registered := registered s |}.

(** [OnLoad]; [OMNITRACE_INIT_TOOLING] is the value of
    [tim::get_env("OMNITRACE_INIT_TOOLING", true)].  The arguments
    [table], [runtime_version], [failed_tool_count] and
    [failed_tool_names] are only consumed. *)
Definition OnLoad (OMNITRACE_INIT_TOOLING : bool) (cfg : hsa_settings)
    (s : load_state) : bool * load_state :=
  if negb OMNITRACE_INIT_TOOLING then (true, s)
  else
    let s := prepare s in
    let s := add_setup "hsa" _setup s in
    let s := add_shutdown "hsa" _shutdown s in
    let s := set_rocm_smi_state State_Active s in
    let s := setup cfg s in
    (true, finish s).

End on_load.

(** The claim about the return value, as the specification words it: false
    exactly when the flag is false. *)
Definition stands_down_with_false (throws : registration → bool)
    (flag : bool) (cfg : hsa_settings) (s : load_state) : Prop :=
  (OnLoad throws flag cfg s).1 = false ↔ flag = false.

Definition fresh_process : load_state :=
  {| settings_are_configured := false; tool_state := State_PreInit;
     tooling_inits := 0; sampling_on_child_threads := [];
     clock_skew_cached := false; roctracer_setup_routines := [];
     roctracer_shutdown_routines := []; roctracer_is_setup := false;
     rocm_smi_state := State_PreInit; registered := [] |}.

Definition trace_everything : hsa_settings :=
  {| get_trace_hsa_api := true; get_trace_hsa_api_types := [];
     get_trace_hsa_activity := true |}.

(** A runtime in which every call fails. *)
Definition fails_always (c : registration) : bool := true.

(** A runtime in which enabling the callback of one API fails. *)
Definition fails_on (api : string) (c : registration) : bool :=
  match c with
  | roctracer_enable_op_callback _ a => bool_decide (a = api)
  | _ => false
  end.

Definition trace_two_apis : hsa_settings :=
  {| get_trace_hsa_api := true;
     get_trace_hsa_api_types := ["hsa_init"; "hsa_shut_down"];
     get_trace_hsa_activity := true |}.

End Lifecycle.

(** ** The Python module: [initialize] *)

Module PyModule.

(** Elements of a [py::list]: a [str] casts to [std::string], anything else
    makes [cast<std::string>()] throw [py::cast_error]. *)
Inductive py_object :=
| py_str (s : string)
| py_int (z : Z)
| py_None.

(** The outcome of [py::module::import("mpi4py")]. *)
Inductive import_result :=
| import_ok
| import_ImportError
| import_raises (exc : string).    (* any other Python exception *)

Inductive exception :=
| runtime_error (what : string)
| cast_error
| out_of_range                      (* std::string::substr *)
| error_already_set (exc : string).

(** The arguments of the last [omnitrace_init] call: the session. *)
Record session := {
  session_mode : string;
  is_binary_rewrite : bool;
  session_cmd : string
}.

Record module_state := {
  _is_initialized : bool;
  _is_finalized : bool;
  use_mpi : option (bool * bool);       (* last omnitrace_set_mpi(use, attached) *)
  current_session : option session;     (* last omnitrace_init *)
  environ : gmap string string          (* as the tim::set_env calls leave it *)
}.

Record result := {
  state_after : module_state;
  raised : option exception
}.

Definition ok (s : module_state) : result :=
  {| state_after := s; raised := None |}.
Definition throw (e : exception) (s : module_state) : result :=
  {| state_after := s; raised := Some e |}.

Definition mark_initialized (s : module_state) : module_state :=
  {| _is_initialized := true; _is_finalized := _is_finalized s;
     use_mpi := use_mpi s; current_session := current_session s;
     environ := environ s |}.

(** Modelled from the spec: [omnitrace_set_mpi] and [omnitrace_init] are
    defined outside this file; [initialize] "establishes the trace
    session".  They are recorded as the last call made and its arguments;
    [environ] follows the writes of this file only. *)
Definition omnitrace_set_mpi (use attached : bool) (s : module_state) :=
  {| _is_initialized := _is_initialized s; _is_finalized := _is_finalized s;
     use_mpi := Some (use, attached); current_session := current_session s;
     environ := environ s |}.

Definition omnitrace_init (mode : string) (rewrite : bool) (cmd : string)
    (s : module_state) :=
  {| _is_initialized := _is_initialized s; _is_finalized := _is_finalized s;
     use_mpi := use_mpi s;
     current_session :=
       Some {| session_mode := mode; is_binary_rewrite := rewrite;
               session_cmd := cmd |};
     environ := environ s |}.

(** [tim::set_env(name, value, overwrite)]: [setenv(3)]; with [overwrite = 0]
    an existing value is kept. *)
Definition set_env (name value : string) (overwrite : Z) (s : module_state) :=
  {| _is_initialized := _is_initialized s; _is_finalized := _is_finalized s;
     use_mpi := use_mpi s; current_session := current_session s;
     environ :=
       match environ s !! name with
       | Some _ => if overwrite =? 0 then environ s
                   else <[name := value]> (environ s)
       | None => <[name := value]> (environ s)
       end |}.

(** The lambda [_get_use_mpi]: an [ImportError] is swallowed, any other
    exception is rethrown. *)
Definition _get_use_mpi (imp : import_result) : bool + exception :=
  match imp with
  | import_ok => inl true
  | import_ImportError => inl false
  | import_raises exc => inr (error_already_set exc)
  end.

Definition already_initialized : exception :=
  runtime_error "Error! omnitrace is already initialized".

(** [x.c_str()] read as a C string, which is how [omnitrace_init] and
    [setenv] take it: the characters before the first NUL. *)
Fixpoint c_str (x : string) : string :=
  match x with
  | EmptyString => EmptyString
  | String c rest =>
      if Ascii.eqb c "000" then EmptyString else String c (c_str rest)
  end.

(** First overload: [initialize(const std::string&)]. *)
Definition initialize_string (imp : import_result) (_v : string)
    (s : module_state) : result :=
  if _is_initialized s then throw already_initialized s
  else
    let s := mark_initialized s in
    match _get_use_mpi imp with
    | inr e => throw e s
    | inl mpi =>
        let s := omnitrace_set_mpi mpi false s in
        ok (omnitrace_init "trace" false (c_str _v) s)
    end.

Definition cast_string (o : py_object) : option string :=
  match o with
  | py_str s => Some s
  | _ => None
  end.

Definition empty (x : string) : bool := bool_decide (x = "").

(** The [for] loop over the list: [_cmd] is the first non-empty element,
    [_cmd_line] gets [" " + element] appended for each element; [None] when
    a cast throws. *)
Fixpoint collect (_v : list py_object) (_cmd _cmd_line : string)
    : option (string * string) :=
  match _v with
  | [] => Some (_cmd, _cmd_line)
  | itr :: rest =>
      match cast_string itr with
      | None => None
      | Some x =>
          let _cmd := if empty _cmd then x else _cmd in
          collect rest _cmd (_cmd_line +:+ " " +:+ x)
      end
  end.

(** [std::string::find_first_not_of(' ')]; [None] is [npos]. *)
Fixpoint find_first_not_of_space (x : string) : option nat :=
  match x with
  | EmptyString => None
  | String c rest =>
      if Ascii.eqb c " "%char then S <$> find_first_not_of_space rest
      else Some O
  end.

(** [std::string::substr(pos)], which throws when [pos > size()]; [npos]
    always is. *)
Definition substr (x : string) (pos : option nat) : option string :=
  match pos with
  | Some n => if (n <=? String.length x)%nat
              then Some (String.substring n (String.length x - n) x)
              else None
  | None => None
  end.

(** Second overload: [initialize(const py::list&)].  The value of
    [_cmd_line.substr(...)] is computed and dropped. *)
Definition initialize_list (imp : import_result) (_v : list py_object)
    (s : module_state) : result :=
  if _is_initialized s then throw already_initialized s
  else
    let s := mark_initialized s in
    match _get_use_mpi imp with
    | inr e => throw e s
    | inl mpi =>
        let s := omnitrace_set_mpi mpi false s in
        match collect _v "" "" with
        | None => throw cast_error s
        | Some (_cmd, _cmd_line) =>
            if empty _cmd_line
            then ok (omnitrace_init "trace" false (c_str _cmd) s)
            else
              match substr _cmd_line (find_first_not_of_space _cmd_line) with
              | None => throw out_of_range s
              | Some _ =>
                  let s :=
                    set_env "OMNITRACE_COMMAND_LINE" (c_str _cmd_line) 0 s in
                  ok (omnitrace_init "trace" false (c_str _cmd) s)
              end
        end
    end.

(** Third overload, again on [const std::string&], with the import written
    inline; the dispatcher never reaches it, the first overload accepts
    every [str]. *)
Definition initialize_string_inline (imp : import_result) (_v : string)
    (s : module_state) : result :=
  if _is_initialized s then throw already_initialized s
  else
    let s := mark_initialized s in
    match imp with
    | import_raises exc => throw (error_already_set exc) s
    | import_ok =>
        ok (omnitrace_init "trace" false (c_str _v)
              (omnitrace_set_mpi true false s))
    | import_ImportError =>
        ok (omnitrace_init "trace" false (c_str _v)
              (omnitrace_set_mpi false false s))
    end.

(** A call of [initialize] from Python with a [str] or a [list]. *)
Inductive argument := arg_str (v : string) | arg_list (v : list py_object).

Definition initialize (imp : import_result) (a : argument)
    (s : module_state) : result :=
  match a with
  | arg_str v => initialize_string imp v s
  | arg_list v => initialize_list imp v s
  end.

(** The list elements joined with single spaces. *)
Fixpoint join_spaces (l : list string) : string :=
  match l with
  | [] => ""
  | [x] => x
  | x :: rest => x +:+ " " +:+ join_spaces rest
  end.

(** [" " + x1 + " " + x2 + ...], the value of [_cmd_line] after the loop
    over a list of strings. *)
Fixpoint spaced (l : list string) : string :=
  match l with
  | [] => ""
  | x :: rest => " " +:+ x +:+ spaced rest
  end.

(** The list gives a command line that is not empty and has nothing but
    spaces in it: every element is empty or blank. *)
Definition blank_argv (a : argument) : Prop :=
  match a with
  | arg_str _ => False
  | arg_list v =>
      match collect v "" "" with
      | None => False
      | Some (_, _cmd_line) =>
          _cmd_line ≠ "" ∧ find_first_not_of_space _cmd_line = None
      end
  end.

(** The two ways a call on a module that is not initialized yet is written
    to raise: the import of [mpi4py] fails with something else than
    [ImportError], or (list overload) an element is not a [str]. *)
Definition raises_when_fresh (imp : import_result) (a : argument) : Prop :=
  (∃ exc, imp = import_raises exc)
  ∨ match a with
    | arg_str _ => False
    | arg_list v => collect v "" "" = None
    end.

(** The second half of the claim about [initialize], as the specification
    words it. *)
Definition never_raises_when_fresh (imp : import_result) (a : argument)
    (s : module_state) : Prop :=
  _is_initialized s = false → raised (initialize imp a s) = None.

Definition just_imported : module_state :=
  {| _is_initialized := false; _is_finalized := false; use_mpi := None;
     current_session := None; environ := ∅ |}.

(** *** [finalize] *)

Definition already_finalized : exception :=
  runtime_error "Error! omnitrace is already finalized".

Definition mark_finalized (s : module_state) : module_state :=
  {| _is_initialized := _is_initialized s; _is_finalized := true;
     use_mpi := use_mpi s; current_session := current_session s;
     environ := environ s |}.

Definition set_is_initialized (b : bool) (s : module_state) : module_state :=
  {| _is_initialized := b; _is_finalized := _is_finalized s;
     use_mpi := use_mpi s; current_session := current_session s;
     environ := environ s |}.

(** [finalize()]; the second component counts the calls of
    [omnitrace_finalize] made so far. *)
Definition finalize (s : module_state) (finalize_calls : nat)
    : result * nat :=
  if _is_finalized s then (throw already_finalized s, finalize_calls)
  else (ok (mark_finalized s), S finalize_calls).

(** [n] calls of [finalize()] in a row: what each raised, and the state and
    the number of [omnitrace_finalize] calls at the end. *)
Fixpoint finalize_repeatedly (n : nat) (s : module_state) (calls : nat)
    : list (option exception) * module_state * nat :=
  match n with
  | O => ([], s, calls)
  | S n' =>
      let '(r, calls') := finalize s calls in
      let '(rs, s', calls'') := finalize_repeatedly n' (state_after r) calls' in
      (raised r :: rs, s', calls'')
  end.

(** The first element of the list that is not empty, [""] if there is
    none. *)
Definition first_nonempty (l : list string) : string :=
  default "" (head (List.filter (λ x, negb (empty x)) l)).

Definition trace_session (cmd : string) : session :=
  {| session_mode := "trace"; is_binary_rewrite := false; session_cmd := cmd |}.

End PyModule.

(** ** The interpreter trace adapter: [profiler_function] *)

Module PyProfile.

(** [strset_t] is a [std::unordered_set<std::string>]; a set is kept as the
    list of its elements in iteration order. *)
Abbreviation strset_t := (list string).

Definition default_exclude_functions : strset_t := ["^<.*>$"].
Definition default_exclude_filenames : strset_t :=
  ["(encoder|decoder|threading).py$"; "^<.*>$"].

(** [struct config]; a record of [records] is the label captured by the
    closure that pops the region. *)
Record config := {
  is_running : bool;
  trace_c : bool;
  include_internal : bool;
  include_args : bool;
  include_line : bool;
  include_filename : bool;
  full_filepath : bool;
  ignore_stack_depth : Z;
  base_stack_depth : Z;
  verbose : Z;
  depth_tracker : Z;
  base_module_path : string;
  restrict_functions : strset_t;
  restrict_filenames : strset_t;
  include_functions : strset_t;
  include_filenames : strset_t;
  exclude_functions : strset_t;
  exclude_filenames : strset_t;
  records : list string
}.

Definition default_config : config :=
  {| is_running := false; trace_c := false; include_internal := false;
     include_args := false; include_line := false; include_filename := false;
     full_filepath := false; ignore_stack_depth := 0; base_stack_depth := -1;
     verbose := 0; depth_tracker := 0; base_module_path := "";
     restrict_functions := []; restrict_filenames := [];
     include_functions := []; include_filenames := [];
     exclude_functions := default_exclude_functions;
     exclude_filenames := default_exclude_filenames; records := [] |}.

Definition set_ignore_stack_depth (d : Z) (c : config) : config :=
  {| is_running := is_running c; trace_c := trace_c c;
     include_internal := include_internal c; include_args := include_args c;
     include_line := include_line c; include_filename := include_filename c;
     full_filepath := full_filepath c; ignore_stack_depth := d;
     base_stack_depth := base_stack_depth c; verbose := verbose c;
     depth_tracker := depth_tracker c; base_module_path := base_module_path c;
     restrict_functions := restrict_functions c;
     restrict_filenames := restrict_filenames c;
     include_functions := include_functions c;
     include_filenames := include_filenames c;
     exclude_functions := exclude_functions c;
     exclude_filenames := exclude_filenames c; records := records c |}.

Definition set_records (r : list string) (c : config) : config :=
  {| is_running := is_running c; trace_c := trace_c c;
     include_internal := include_internal c; include_args := include_args c;
     include_line := include_line c; include_filename := include_filename c;
     full_filepath := full_filepath c;
     ignore_stack_depth := ignore_stack_depth c;
     base_stack_depth := base_stack_depth c; verbose := verbose c;
     depth_tracker := depth_tracker c; base_module_path := base_module_path c;
     restrict_functions := restrict_functions c;
     restrict_filenames := restrict_filenames c;
     include_functions := include_functions c;
     include_filenames := include_filenames c;
     exclude_functions := exclude_functions c;
     exclude_filenames := exclude_filenames c; records := r |}.

(** What [inspect.formatargvalues] gives on the [inspect.getargvalues] of
    the frame. *)
Inductive argvalues :=
| formatted (s : string)
| raises_AttributeError
| raises_other (exc : string).

(** The fields of the [PyFrameObject] that the function reads. *)
Record frame := {
  co_name : string;
  co_filename : string;
  f_lineno : Z;
  f_argvalues : argvalues
}.

Inductive trace_kind :=
| PyTrace_CALL | PyTrace_C_CALL | PyTrace_RETURN | PyTrace_C_RETURN.

(** The chain of [strcmp]s on [swhat]; [None] is [what = -1]. *)
Definition what_of (swhat : string) : option trace_kind :=
  if decide (swhat = "call") then Some PyTrace_CALL
  else if decide (swhat = "c_call") then Some PyTrace_C_CALL
  else if decide (swhat = "return") then Some PyTrace_RETURN
  else if decide (swhat = "c_return") then Some PyTrace_C_RETURN
  else None.

(** The thread-local and static variables of [profiler_function]. *)
Record profiler_state := {
  _config : config;
  _disable : bool;
  _omnitrace_path : option string;   (* [None] before the static is set *)
  _labels : list string
}.

Inductive region_event :=
| omnitrace_push_region (label : string)
| omnitrace_pop_region (label : string).

Inductive exception :=
| regex_error (pattern : string)
| error_already_set (exc : string).

(** How a call of [profiler_function] ends.  [Undefined] is undefined
    behaviour: [back()] and [pop_back()] on an empty [std::vector]. *)
Inductive outcome :=
| Returns (s : profiler_state) (es : list region_event)
| Raises (e : exception) (s : profiler_state)
| Undefined.

(** Control inside the function body: go on with a value, [return;] early,
    or leave by an exception. *)
Inductive flow (A : Type) :=
| Go (a : A)
| Return (s : profiler_state)
| Throw (e : exception) (s : profiler_state).

Arguments Go {A} a.
Arguments Return {A} s.
Arguments Throw {A} e s.

Definition bind {A B} (m : flow A) (k : A → flow B) : flow B :=
  match m with
  | Go a => k a
  | Return s => Return s
  | Throw e s => Throw e s
  end.

Definition with_config (c : config) (s : profiler_state) : profiler_state :=
  {| _config := c; _disable := _disable s;
     _omnitrace_path := _omnitrace_path s; _labels := _labels s |}.

Definition with_disable (b : bool) (s : profiler_state) : profiler_state :=
  {| _config := _config s; _disable := b;
     _omnitrace_path := _omnitrace_path s; _labels := _labels s |}.

(** [std::string::find('/')] and [substr(find_last_of('/') + 1)]. *)
Fixpoint after_last_slash (x : string) : option string :=
  match x with
  | EmptyString => None
  | String c rest =>
      match after_last_slash rest with
      | Some y => Some y
      | None => if Ascii.eqb c "/" then Some rest else None
      end
  end.

Definition basename (_full : string) : string :=
  default _full (after_last_slash _full).

Section profiler_function.

(** [std::regex_search(name, std::regex(pattern, egrep | optimize))]:
    [None] when constructing the regex throws [std::regex_error]. *)
Variable regex_search : string → string → option bool.

(** The lambda [_find_matching], over the elements in iteration order. *)
Fixpoint _find_matching (_expr : strset_t) (_name : string)
    : bool + exception :=
  match _expr with
  | [] => inl false
  | itr :: rest =>
      match regex_search itr _name with
      | None => inr (regex_error itr)
      | Some true => inl true
      | Some false => _find_matching rest _name
      end
  end.

Definition find_matching (_expr : strset_t) (_name : string)
    (s : profiler_state) : flow bool :=
  match _find_matching _expr _name with
  | inl b => Go b
  | inr e => Throw e s
  end.

(** The lambda [_update_ignore_stack_depth]. *)
Definition _update_ignore_stack_depth (what : trace_kind)
    (s : profiler_state) : profiler_state :=
  let c := _config s in
  match what with
  | PyTrace_CALL =>
      with_config (set_ignore_stack_depth (ignore_stack_depth c + 1) c) s
  | PyTrace_RETURN =>
      with_config (set_ignore_stack_depth (ignore_stack_depth c - 1) c) s
  | _ => s
  end.

(** The lambda [_get_args]: an [AttributeError] gives the empty string,
    any other exception is rethrown. *)
Definition _get_args (fr : frame) (s : profiler_state) : flow string :=
  match f_argvalues fr with
  | formatted a => Go a
  | raises_AttributeError => Go ""
  | raises_other exc => Throw (error_already_set exc) s
  end.

(** The lambda [_get_label]. *)
Definition _get_label (fr : frame) (_func _filename _fullpath : string)
    (s : profiler_state) : flow string :=
  let c := _config s in
  let _bracket := include_filename c in
  let _func := if _bracket then "[" +:+ _func else _func in
  bind (if include_args c
        then bind (_get_args fr s) (λ a, Go (_func +:+ a))
        else Go _func) (λ _func,
  let _func := if _bracket then _func +:+ "]" else _func in
  let _func :=
    if include_filename c then
      if full_filepath c then _func +:+ "[" +:+ _fullpath
      else _func +:+ "[" +:+ _filename
    else _func in
  let _func :=
    if include_line c && include_filename c
    then _func +:+ ":" +:+ pretty (f_lineno fr) +:+ "]"
    else if include_line c then _func +:+ ":" +:+ pretty (f_lineno fr)
    else if include_filename c then _func +:+ "]"
    else _func in
  Go _func).

Definition is_c_event (what : trace_kind) : bool :=
  match what with
  | PyTrace_C_CALL | PyTrace_C_RETURN => true
  | _ => false
  end.

Definition nonempty (x : strset_t) : bool :=
  match x with [] => false | _ => true end.

(** The function filters: [Go _force] when the event goes on. *)
Definition function_filters (what : trace_kind) (_func : string)
    (s : profiler_state) : flow bool :=
  let c := _config s in
  bind (if nonempty (restrict_functions c) then
          bind (find_matching (restrict_functions c) _func s) (λ _force,
          if _force then Go true else Return s)
        else Go false) (λ _force,
  if _force then Go true
  else
    bind (find_matching (include_functions c) _func s) (λ incl,
    if incl then Go true
    else
      bind (find_matching (exclude_functions c) _func s) (λ skip,
      if skip then
        bind (find_matching default_exclude_functions _func s) (λ dflt,
        if dflt then Return s
        else Return (_update_ignore_stack_depth what s))
      else Go false))).

(** The filename filters, from the internal-path test on. *)
Definition filename_filters (_force : bool) (_full : string)
    (s : profiler_state) : flow bool :=
  let c := _config s in
  let path := default "" (_omnitrace_path s) in
  if negb (include_internal c) && String.prefix path _full then Return s
  else
    bind (if negb _force && nonempty (restrict_filenames c) then
            bind (find_matching (restrict_filenames c) _full s) (λ _force,
            if _force then Go true else Return s)
          else Go _force) (λ _force,
    if _force then Go true
    else
      bind (find_matching (include_filenames c) _full s) (λ incl,
      if incl then Go true
      else
        bind (find_matching (exclude_filenames c) _full s) (λ skip,
        if skip then Return s else Go false))).

(** [_labels.emplace(_label)]. *)
Definition intern (_label : string) (s : profiler_state) : profiler_state :=
  {| _config := _config s; _disable := _disable s;
     _omnitrace_path := _omnitrace_path s;
     _labels := if bool_decide (_label ∈ _labels s) then _labels s
                else _labels s ++ [_label] |}.

(** Everything from the top of the function to the [switch] on [what]:
    [Go (what, label, s)] when the event passed every filter. *)
Definition filters (pframe : option frame) (swhat : string)
    (s : profiler_state) : flow (trace_kind * string * profiler_state) :=
  match pframe with
  | None => Return s
  | Some fr =>
      let s :=
        match _omnitrace_path s with
        | Some _ => s
        | None =>
            {| _config := _config s; _disable := _disable s;
               _omnitrace_path := Some (base_module_path (_config s));
               _labels := _labels s |}
        end in
      match what_of swhat with
      | None => Return s
      | Some what =>
          let c := _config s in
          if 0 <? ignore_stack_depth c
          then Return (_update_ignore_stack_depth what s)
          else if negb (trace_c c) && is_c_event what then Return s
          else
            let _func := co_name fr in
            bind (function_filters what _func s) (λ _force,
            let _full := co_filename fr in
            let _file := basename _full in
            bind (filename_filters _force _full s) (λ _force,
            bind (if 3 <? verbose c then _get_args fr s else Go "") (λ _,
            bind (_get_label fr _func _file _full s) (λ _label,
            if bool_decide (_label = "") then Return s
            else Go (what, _label, intern _label s)))))
      end
  end.

(** The lambdas [_profiler_call] and [_profiler_return], selected by the
    [switch] on [what]. *)
Definition dispatch (what : trace_kind) (_label : string)
    (s : profiler_state) : outcome :=
  let c := _config s in
  match what with
  | PyTrace_CALL | PyTrace_C_CALL =>
      Returns (with_config (set_records (records c ++ [_label]) c) s)
              [omnitrace_push_region _label]
  | PyTrace_RETURN | PyTrace_C_RETURN =>
      match last (records c) with
      | None => Undefined
      | Some top =>
          Returns (with_config (set_records (removelast (records c)) c) s)
                  [omnitrace_pop_region top]
      end
  end.

(** [profiler_function(pframe, swhat, arg)].  The scope guard [_dtor]
    clears [_disable] on every way out. *)
Definition profiler_function (pframe : option frame) (swhat : string)
    (s : profiler_state) : outcome :=
  if _disable s then Returns s []
  else
    match filters pframe swhat (with_disable true s) with
    | Return s' => Returns (with_disable false s') []
    | Throw e s' => Raises e (with_disable false s')
    | Go (what, _label, s') =>
        match dispatch what _label s' with
        | Returns s'' es => Returns (with_disable false s'') es
        | Raises e s'' => Raises e (with_disable false s'')
        | Undefined => Undefined
        end
    end.

(** The interpreter delivering a sequence of events to the hook, one
    after the other, whether a call raised or not; [None] once a call had
    undefined behaviour. *)
Fixpoint profile (events : list (option frame * string))
    (s : profiler_state) : option (profiler_state * list region_event) :=
  match events with
  | [] => Some (s, [])
  | (pframe, swhat) :: rest =>
      match profiler_function pframe swhat s with
      | Returns s' es =>
          match profile rest s' with
          | Some (s'', es') => Some (s'', es ++ es')
          | None => None
          end
      | Raises _ s' => profile rest s'
      | Undefined => None
      end
  end.

End profiler_function.

(** *** Predicates of the properties and sample inputs *)

(** The filter configuration of the boundary case: [exclude_functions]
    contains ["^.*$"], [include_functions] and [restrict_functions] are
    empty. *)
Definition excludes_everything (s : profiler_state) : Prop :=
  "^.*$" ∈ exclude_functions (_config s)
  ∧ include_functions (_config s) = []
  ∧ restrict_functions (_config s) = [].

(** The computation stops, by [return;] or by an exception, in a state
    satisfying [P]. *)
Definition ends_in {A} (P : profiler_state → Prop) (m : flow A) : Prop :=
  match m with
  | Go _ => False
  | Return s => P s
  | Throw _ s => P s
  end.

Definition is_return (what : trace_kind) : bool :=
  match what with
  | PyTrace_RETURN | PyTrace_C_RETURN => true
  | _ => false
  end.

Definition suffix (a b : string) : bool :=
  String.prefix (String.rev a) (String.rev b).

(** A regex engine for the sample runs: it knows ["^.*$"] and the default
    patterns (the dot of the filename pattern taken literally); any other
    pattern is a [regex_error]. *)
Definition sample_regex_search (pattern subject : string) : option bool :=
  if decide (pattern = "^.*$") then Some true
  else if decide (pattern = "^<.*>$")
  then Some (String.prefix "<" subject && suffix ">" subject)
  else if decide (pattern = "(encoder|decoder|threading).py$")
  then Some (suffix "encoder.py" subject || suffix "decoder.py" subject
             || suffix "threading.py" subject)
  else None.

(** The configuration after [profiler_init], with the given label options
    and function exclusions. *)
Definition configured (file line : bool) (exclude : strset_t) : config :=
  {| is_running := true; trace_c := false; include_internal := false;
     include_args := false; include_line := line; include_filename := file;
     full_filepath := false; ignore_stack_depth := 0; base_stack_depth := -1;
     verbose := 0; depth_tracker := 0;
     base_module_path := "/opt/omnitrace/lib/python/site-packages/omnitrace";
     restrict_functions := []; restrict_filenames := [];
     include_functions := []; include_filenames := [];
     exclude_functions := exclude;
     exclude_filenames := default_exclude_filenames; records := [] |}.

Definition started (c : config) : profiler_state :=
  {| _config := c; _disable := false; _omnitrace_path := None; _labels := [] |}.

Definition user_frame (name : string) (line : Z) : frame :=
  {| co_name := name; co_filename := "/home/user/app.py"; f_lineno := line;
     f_argvalues := formatted "()" |}.

(** A program calling [f], which calls [g]. *)
Definition f_calls_g : list (option frame * string) :=
  [ (Some (user_frame "f" 10), "call"); (Some (user_frame "g" 20), "call");
    (Some (user_frame "g" 21), "return"); (Some (user_frame "f" 11), "return") ].

(** *** Paths, the pattern setters and the further predicates *)


(** [x.find('/') != std::string::npos]. *)
Fixpoint has_slash (x : string) : bool :=
  match x with
  | EmptyString => false
  | String c rest => Ascii.eqb c "/" || has_slash rest
  end.

(** [_file.substr(0, _file.find_last_of('/'))]; [None] when [_file] has no
    ['/']. *)
Fixpoint before_last_slash (x : string) : option string :=
  match x with
  | EmptyString => None
  | String c rest =>
      match before_last_slash rest with
      | Some y => Some (String c y)
      | None => if Ascii.eqb c "/" then Some EmptyString else None
      end
  end.

(** The value [_init] stores in [base_module_path] for the [__file__] of
    the module. *)
Definition dirname (_file : string) : string :=
  default _file (before_last_slash _file).

(** [_targ.insert(x)] on the set. *)
Definition strset_insert (x : string) (_targ : strset_t) : strset_t :=
  if bool_decide (x ∈ _targ) then _targ else _targ ++ [x].

(** The lambda [_set_strset], the setter of the six pattern properties: the
    set after the loop, and the [py::cast_error] that ended it, if any. *)
Fixpoint _set_strset (_inp : list PyModule.py_object) (_targ : strset_t)
    : strset_t * option PyModule.exception :=
  match _inp with
  | [] => (_targ, None)
  | itr :: rest =>
      match PyModule.cast_string itr with
      | None => (_targ, Some PyModule.cast_error)
      | Some x => _set_strset rest (strset_insert x _targ)
      end
  end.

(** The prefix that the internal-path test compares with: the static
    [_omnitrace_path], which the first event with a frame initializes from
    [base_module_path]. *)
Definition internal_path (s : profiler_state) : string :=
  default (base_module_path (_config s)) (_omnitrace_path s).

(** The members of [config] that the hook only reads. *)
Definition settings (c : config) :=
  (is_running c, trace_c c, include_internal c, include_args c,
   include_line c, include_filename c, full_filepath c,
   base_stack_depth c, verbose c, depth_tracker c, base_module_path c,
   (restrict_functions c, restrict_filenames c, include_functions c,
    include_filenames c, exclude_functions c, exclude_filenames c)).

Definition settings_kept (s s' : profiler_state) : Prop :=
  settings (_config s') = settings (_config s)
  ∧ internal_path s' = internal_path s
  ∧ _disable s' = _disable s
  ∧ _labels s `prefix_of` _labels s'.

(** A computation that stops does so in a state satisfying [P]; a value it
    goes on with satisfies [Q]. *)
Definition flow_all {A} (P : profiler_state → Prop) (Q : A → Prop)
    (m : flow A) : Prop :=
  match m with
  | Go a => Q a
  | Return s => P s
  | Throw _ s => P s
  end.




(** Every frame of the events has a file name that starts with [p]. *)
Definition internal_only (p : string)
    (events : list (option frame * string)) : bool :=
  forallb (λ e, match e.1 with
                | Some fr => String.prefix p (co_filename fr)
                | None => true
                end) events.

(** A frame of a file of the tracer's own Python package. *)
Definition internal_frame (name : string) (line : Z) : frame :=
  {| co_name := name;
     co_filename :=
       "/opt/omnitrace/lib/python/site-packages/omnitrace/profiler.py";
     f_lineno := line; f_argvalues := formatted "()" |}.


End PyProfile.

(** ** The coverage module: [get_summary] *)

Module PyCoverage.

(** [coverage::coverage_data], with the members the module exposes;
    [count], [address] and [line] are [size_t]. *)
Module coverage_data.
Record coverage_data := {
  count : Z;
  address : Z;
  line : Z;
  module : string;
  function : string;
  source : string
}.
End coverage_data.

(** [coverage::code_coverage] and its [data]. *)
Module code_coverage.
Record data := {
  addresses : gset Z;
  modules : gset string;
  functions : gset string
}.

Record code_coverage := {
  count : Z;
  size : Z;
  covered : data;
  possible : data
}.
End code_coverage.

Abbreviation coverage_data_vector_t := (list coverage_data.coverage_data).

(** A key of [coverage_data_map]: the three nested maps, from module to
    function to address to count, are kept as one map from the three
    keys. *)
Abbreviation key_t := (string * string * Z)%type.
Abbreviation coverage_data_map := (gmap key_t Z).

Definition key_of (itr : coverage_data.coverage_data) : key_t :=
  (coverage_data.module itr, coverage_data.function itr,
   coverage_data.address itr).

(** [_mdata[itr.module][itr.function][itr.address] += itr.count];
    [operator[]] starts a missing entry at 0. *)
Definition accumulate (_mdata : coverage_data_map)
    (itr : coverage_data.coverage_data) : coverage_data_map :=
  <[key_of itr :=
      ClockSkew.wrap_u64
        (default 0 (_mdata !! key_of itr) + coverage_data.count itr)]>
    _mdata.

(** The three [emplace] calls on a [data], for the entry of a key. *)
Definition emplace_key (k : key_t) (d : code_coverage.data)
    : code_coverage.data :=
  {| code_coverage.modules := {[k.1.1]} ∪ code_coverage.modules d;
     code_coverage.functions := {[k.1.2]} ∪ code_coverage.functions d;
     code_coverage.addresses := {[k.2]} ∪ code_coverage.addresses d |}.

(** The body of the innermost loop, for the entry [addr] of [func] of
    [file]. *)
Definition visit (k : key_t) (n : Z) (_summary : code_coverage.code_coverage)
    : code_coverage.code_coverage :=
  let _summary :=
    if 0 <? n then
      {| code_coverage.count :=
           ClockSkew.wrap_u64 (code_coverage.count _summary + 1);
         code_coverage.size := code_coverage.size _summary;
         code_coverage.covered :=
           emplace_key k (code_coverage.covered _summary);
         code_coverage.possible := code_coverage.possible _summary |}
    else _summary in
  {| code_coverage.count := code_coverage.count _summary;
     code_coverage.size := ClockSkew.wrap_u64 (code_coverage.size _summary + 1);
     code_coverage.covered := code_coverage.covered _summary;
     code_coverage.possible :=
       emplace_key k (code_coverage.possible _summary) |}.

Definition no_data : code_coverage.data :=
  {| code_coverage.addresses := ∅; code_coverage.modules := ∅;
     code_coverage.functions := ∅ |}.

(** [coverage::code_coverage _summary{}]. *)
Definition empty_summary : code_coverage.code_coverage :=
  {| code_coverage.count := 0; code_coverage.size := 0;
     code_coverage.covered := no_data; code_coverage.possible := no_data |}.

(** The lambda [_coverage_summary], bound as [coverage.get_summary]: the
    first loop fills the map from the entries in order; the nested loops
    then visit every entry of the map once, in an order that the unordered
    containers leave open ([map_fold] takes the order of the keys). *)
Definition _coverage_summary (_data : coverage_data_vector_t)
    : code_coverage.code_coverage :=
  map_fold visit empty_summary (foldl accumulate ∅ _data).

(** *** What the summary is compared with *)

(** The sum of the counts of the entries of the key [k]. *)
Definition hits (k : key_t) (_data : coverage_data_vector_t) : Z :=
  foldr (λ itr n, if bool_decide (key_of itr = k)
                  then coverage_data.count itr + n else n) 0 _data.

(** The distinct keys of the entries, and those of them whose summed count,
    as a [size_t], is not 0. *)
Definition keys (_data : coverage_data_vector_t) : gset key_t :=
  list_to_set (key_of <$> _data).

Definition covered_keys (_data : coverage_data_vector_t) : gset key_t :=
  filter (λ k, 0 < ClockSkew.wrap_u64 (hits k _data)) (keys _data).

(** The modules, functions and addresses of a set of keys. *)
Definition data_of (X : gset key_t) : code_coverage.data :=
  {| code_coverage.addresses := set_map (λ k : key_t, k.2) X;
     code_coverage.modules := set_map (λ k : key_t, k.1.1) X;
     code_coverage.functions := set_map (λ k : key_t, k.1.2) X |}.

Definition data_subseteq (d1 d2 : code_coverage.data) : Prop :=
  code_coverage.addresses d1 ⊆ code_coverage.addresses d2
  ∧ code_coverage.modules d1 ⊆ code_coverage.modules d2
  ∧ code_coverage.functions d1 ⊆ code_coverage.functions d2.

(** An entry of the details, as [coverage.load] gives them. *)
Definition entry (m f : string) (a c : Z) : coverage_data.coverage_data :=
  {| coverage_data.count := c; coverage_data.address := a;
     coverage_data.line := 0; coverage_data.module := m;
     coverage_data.function := f; coverage_data.source := f |}.

(** [main] seen twice at the same address and run 5 times in all, and
    [helper], never run. *)
Definition demo_details : coverage_data_vector_t :=
  [ entry "libfoo.so" "main" 4096 3; entry "libfoo.so" "helper" 8192 0;
    entry "libfoo.so" "main" 4096 2 ].

Definition nothing_run : coverage_data_vector_t :=
  [ entry "libfoo.so" "main" 4096 0; entry "libfoo.so" "helper" 8192 0 ].

End PyCoverage.

(** ** Theorems *)

Module ClockSkewFacts.
Import ClockSkew.

Lemma wrap_u64_small z : 0 ≤ z < 2 ^ 64 → wrap_u64 z = z.
Proof. intros H. unfold wrap_u64. apply Z.mod_small. lia. Qed.

Lemma wrap_i64_small z : - 2 ^ 63 ≤ z < 2 ^ 63 → wrap_i64 z = z.
Proof.
  intros H. unfold wrap_i64. rewrite Z.mod_small; lia.
Qed.

Lemma quot2_bounds h : 0 ≤ h < 2 ^ 63 → 0 ≤ Z.quot h 2 < 2 ^ 62.
Proof.
  intros H. rewrite Z.quot_div_nonneg by lia.
  split; [apply Z.div_pos; lia | apply Z.div_lt_upper_bound; lia].
Qed.

Lemma compute_no_wrap h1 d h2 :
  0 ≤ h1 < 2 ^ 63 → 0 ≤ d < 2 ^ 63 → 0 ≤ h2 < 2 ^ 63 →
  _compute h1 d h2 = Z.quot h1 2 + Z.quot h2 2 - d.
Proof.
  intros H1 Hd H2. unfold _compute.
  pose proof (quot2_bounds h1 H1) as B1.
  pose proof (quot2_bounds h2 H2) as B2.
  rewrite Z.quot_1_r. rewrite !Z.add_0_l.
  rewrite (wrap_u64_small (Z.quot h1 2)) by lia.
  rewrite (wrap_u64_small d) by lia.
  rewrite (wrap_u64_small (_ + _)) by lia.
  rewrite (wrap_i64_small (_ + _)) by lia.
  rewrite (wrap_i64_small d) by lia.
  rewrite wrap_i64_small by lia. lia.
Qed.

Lemma skew_loop_no_wrap cpu gpu fuel i acc :
  in_range cpu gpu →
  - (Z.of_nat i * 2 ^ 59) ≤ acc ≤ Z.of_nat i * 2 ^ 59 →
  (i + fuel ≤ 10)%nat →
  skew_loop cpu gpu fuel i acc = acc + sum_from (code_diff cpu gpu) i fuel.
Proof.
  intros (Hc & Hg & Hd). revert i acc.
  induction fuel as [|fuel IH]; intros i acc Hacc Hfuel; simpl.
  - lia.
  - rewrite compute_no_wrap
      by (unfold host1, host2, device; first [apply Hc | apply Hg]; lia).
    fold (code_diff cpu gpu i).
    specialize (Hd i ltac:(lia)).
    rewrite wrap_i64_small by lia.
    rewrite IH by lia. lia.
Qed.

Lemma sum_from_snoc (f : nat → Z) i n :
  sum_from f i (S n) = sum_from f i n + f (i + n)%nat.
Proof.
  revert i. induction n as [|n IH]; intros i.
  - simpl. rewrite Nat.add_0_r. lia.
  - pose proof (IH (S i)) as H.
    change (sum_from f i (S (S n))) with (f i + sum_from f (S i) (S n)).
    change (sum_from f i (S n)) with (f i + sum_from f (S i) n).
    replace (i + S n)%nat with (S i + n)%nat by lia. lia.
Qed.

(** The loop without wrap-around: the running sum is the sum of the
    per-iteration values. *)
Lemma skew_loop_exact cpu gpu fuel i :
  no_conversion_wraps cpu gpu →
  (i + fuel ≤ 10)%nat →
  skew_loop cpu gpu fuel i (sum_from (code_diff cpu gpu) 0 i)
  = sum_from (code_diff cpu gpu) 0 (i + fuel).
Proof.
  intros (Hc & Hg & Hs). revert i.
  induction fuel as [|fuel IH]; intros i Hfuel; simpl.
  - by rewrite Nat.add_0_r.
  - rewrite compute_no_wrap
      by (unfold host1, host2, device; first [apply Hc | apply Hg]; lia).
    fold (code_diff cpu gpu i).
    pose proof (sum_from_snoc (code_diff cpu gpu) 0 i) as Hsn.
    rewrite Nat.add_0_l in Hsn. rewrite <- Hsn.
    rewrite wrap_i64_small by (apply Hs; lia).
    rewrite IH by lia. f_equal. lia.
Qed.

(** Halving each host read loses at most one unit per iteration against
    the doubled exact difference. *)
Lemma sum_from_halves cpu gpu i n :
  (∀ k, (1 ≤ k ≤ 2 * (i + n))%nat → 0 ≤ cpu k) →
  sum_from (diff_x2 cpu gpu) i n - 2 * Z.of_nat n
    ≤ 2 * sum_from (code_diff cpu gpu) i n
    ≤ sum_from (diff_x2 cpu gpu) i n.
Proof.
  revert i. induction n as [|n IH]; intros i Hc; simpl sum_from; [lia|].
  specialize (IH (S i) ltac:(intros; apply Hc; lia)).
  pose proof (Hc (2 * i + 1)%nat ltac:(lia)) as H1.
  pose proof (Hc (2 * i + 2)%nat ltac:(lia)) as H2.
  assert (diff_x2 cpu gpu i - 2 ≤ 2 * code_diff cpu gpu i
          ≤ diff_x2 cpu gpu i).
  { unfold diff_x2, code_diff, host1, host2 in *.
    Z.to_euclidean_division_equations. lia. }
  lia.
Qed.

Lemma quot10_near a : a - 9 ≤ 10 * Z.quot a 10 ≤ a + 9.
Proof. Z.to_euclidean_division_equations. lia. Qed.

Ltac sums_in_range :=
  let n := fresh "n" in
  let Hn := fresh "Hn" in
  intros n Hn;
  do 11 (destruct n as [|n]; [vm_compute; split; [discriminate|reflexivity]|]);
  lia.

(** C4, the claim as stated fails: with host reads 1003, 1005, 1007, ... and
    device reads 904, 908, ... no conversion wraps and every iteration has
    [avg(host1, host2) - device = 100], so the average is exactly 100; the
    code returns 99, because it halves each (odd) host read before adding
    them. *)
Lemma get_clock_skew_is_not_the_exact_average :
  no_conversion_wraps odd_host_clock steady_device_clock ∧
  (∀ i, diff_x2 odd_host_clock steady_device_clock i = 2 * 100) ∧
  is_the_average odd_host_clock steady_device_clock 100 ∧
  get_clock_skew odd_host_clock steady_device_clock true = 99 ∧
  ¬ is_the_average odd_host_clock steady_device_clock
      (get_clock_skew odd_host_clock steady_device_clock true).
Proof.
  split; [|split; [|split; [|split]]].
  - split; [|split].
    + intros k Hk. unfold odd_host_clock. lia.
    + intros k Hk. unfold steady_device_clock. lia.
    + sums_in_range.
  - intros i. unfold diff_x2, host1, host2, device, odd_host_clock,
      steady_device_clock. lia.
  - vm_compute. reflexivity.
  - vm_compute. reflexivity.
  - vm_compute. discriminate.
Qed.

(** C4, amended: with the flag cleared the function returns 0, whatever
    the clocks.  With the flag set, when no conversion and no addition
    wraps, the value is the quotient, truncated toward zero, by [N = 10] of
    the sum over the ten iterations of [host1/2 + host2/2 - device] (each
    host read halved by integer division before the two are added).  It is
    not the average [A] of [avg(host1, host2) - device] in general, but
    lies within [A - 1.9 ≤ value ≤ A + 0.9]: in integers,
    [20 A - 38 ≤ 20 value ≤ 20 A + 18]. *)
Theorem get_clock_skew_value (cpu gpu : nat → Z) :
  get_clock_skew cpu gpu false = 0
  ∧ (no_conversion_wraps cpu gpu →
     get_clock_skew cpu gpu true
       = Z.quot (sum_from (code_diff cpu gpu) 0 10) 10
     ∧ average_x20 cpu gpu - 38 ≤ 20 * get_clock_skew cpu gpu true
         ≤ average_x20 cpu gpu + 18).
Proof.
  split; [reflexivity|]. intros Hr.
  assert (Hv : get_clock_skew cpu gpu true
               = Z.quot (sum_from (code_diff cpu gpu) 0 10) 10).
  { unfold get_clock_skew, _v, _n. change (Z.to_nat 10) with 10%nat.
    change 0 with (sum_from (code_diff cpu gpu) 0 0) at 1.
    by rewrite (skew_loop_exact cpu gpu 10 0 Hr) by lia. }
  split; [exact Hv|]. rewrite Hv.
  unfold average_x20, _n. change (Z.to_nat 10) with 10%nat.
  destruct Hr as (Hc & _ & _).
  pose proof (sum_from_halves cpu gpu 0 10
                ltac:(intros k Hk; apply Hc; lia)) as Hh.
  change (Z.of_nat 10) with 10 in Hh.
  pose proof (quot10_near (sum_from (code_diff cpu gpu) 0 10)) as Hq.
  lia.
Qed.

(** The sample clocks: the host ahead of the device by 99.5 ns in every
    iteration; the value is 99. *)
Lemma get_clock_skew_value_witness :
  no_conversion_wraps demo_host_clock demo_device_clock ∧
  get_clock_skew demo_host_clock demo_device_clock true = 99 ∧
  average_x20 demo_host_clock demo_device_clock = 1990 ∧
  get_clock_skew demo_host_clock demo_device_clock false = 0.
Proof.
  assert (Hr : no_conversion_wraps demo_host_clock demo_device_clock).
  { split; [|split].
    - intros k Hk. unfold demo_host_clock. lia.
    - intros k Hk. unfold demo_device_clock. lia.
    - sums_in_range. }
  destruct (get_clock_skew_value demo_host_clock demo_device_clock)
    as (Hz & Hv).
  destruct (Hv Hr) as (Hq & _).
  split; [exact Hr|]. split; [|split; [vm_compute; reflexivity|exact Hz]].
  rewrite Hq. vm_compute. reflexivity.
Defined.

(** *** The range of the skew *)

Lemma sum_from_between (g : nat → Z) (lo hi : Z) i n :
  (∀ j, (i ≤ j < i + n)%nat → lo ≤ g j ≤ hi) →
  Z.of_nat n * lo ≤ sum_from g i n ≤ Z.of_nat n * hi.
Proof.
  revert i. induction n as [|n IH]; intros i H; simpl sum_from; [lia|].
  specialize (IH (S i) ltac:(intros; apply H; lia)).
  specialize (H i ltac:(lia)). lia.
Qed.

(** X1: under the range assumption, the skew that [get_clock_skew] caches
    lies between the smallest and the largest of the ten per-iteration
    differences: truncating the mean does not leave their range. *)
Theorem get_clock_skew_between (cpu gpu : nat → Z) (lo hi : Z) :
  in_range cpu gpu →
  (∀ i, (i < 10)%nat → lo ≤ code_diff cpu gpu i ≤ hi) →
  lo ≤ get_clock_skew cpu gpu true ≤ hi.
Proof.
  intros Hr Hb.
  assert (Hv : get_clock_skew cpu gpu true
               = Z.quot (sum_from (code_diff cpu gpu) 0 10) 10).
  { unfold get_clock_skew, _v, _n. change (Z.to_nat 10) with 10%nat.
    rewrite (skew_loop_no_wrap cpu gpu 10 0 0 Hr) by (simpl; lia).
    by rewrite Z.add_0_l. }
  rewrite Hv.
  pose proof (sum_from_between (code_diff cpu gpu) lo hi 0 10
                ltac:(intros; apply Hb; lia)) as Hs.
  change (Z.of_nat 10) with 10 in Hs.
  split.
  - rewrite <- (Z.quot_mul lo 10) by lia.
    apply Z.quot_le_mono; lia.
  - rewrite <- (Z.quot_mul hi 10) by lia.
    apply Z.quot_le_mono; lia.
Qed.
Lemma demo_clocks_in_range : in_range demo_host_clock demo_device_clock.
Proof.
  unfold in_range, code_diff, host1, host2, device, demo_host_clock,
    demo_device_clock.
  split; [|split]; intros.
  - lia.
  - lia.
  - Z.to_euclidean_division_equations. lia.
Qed.

(** Every iteration of the sample clocks sees a difference of 99 ns. *)
Lemma get_clock_skew_between_witness :
  99 ≤ get_clock_skew demo_host_clock demo_device_clock true ≤ 99.
Proof.
  apply (get_clock_skew_between demo_host_clock demo_device_clock 99 99).
  - exact demo_clocks_in_range.
  - intros i Hi.
    unfold code_diff, host1, host2, device, demo_host_clock,
      demo_device_clock.
    Z.to_euclidean_division_equations. lia.
Defined.

End ClockSkewFacts.

Module RoctracerFacts.
Import Roctracer.

(** *** Draining the per-thread activity queue *)

Section drain.

Variables (self tid : Z).

Lemma closures_run_run_closures q :
  closures_run (run_closures self q) = queued q.
Proof.
  unfold closures_run, run_closures, queued.
  induction q as [|[c|] q IH]; simpl; [done| |exact IH].
  f_equal. exact IH.
Qed.

Lemma closures_run_with_locked q rest :
  closures_run_with tid true true (run_closures self q ++ rest)
    = closures_run_with tid true true rest.
Proof.
  unfold run_closures.
  induction q as [|[c|] q IH]; simpl; [done|exact IH|exact IH].
Qed.

Lemma lock_held_run_closures held q rest :
  lock_held tid held (run_closures self q ++ rest) = lock_held tid held rest.
Proof.
  unfold run_closures.
  induction q as [|[c|] q IH]; simpl; [done|exact IH|exact IH].
Qed.

Lemma closures_run_app es1 es2 :
  closures_run (es1 ++ es2) = closures_run es1 ++ closures_run es2.
Proof. unfold closures_run. apply omap_app. Qed.

End drain.

(** C3, the claim as stated fails: with one closure in the queue of thread 1,
    the drain runs it between taking and releasing the mutex of that
    queue. *)
Lemma drain_runs_closure_under_lock :
  (hip_exec_activity_callbacks 1 1 one_pending).2
    = [ (1, mutex_lock 1); (1, run_closure one_sample); (1, mutex_unlock 1) ]
  ∧ ¬ drains_outside_lock 1 1 one_pending.
Proof.
  split; [reflexivity|].
  unfold drains_outside_lock. intros (H & _). vm_compute in H. discriminate.
Qed.

(** C3, amended: a drain takes the mutex of the queue first, executes every
    closure of the queue in insertion order while holding it, clears the
    queue, and has released the mutex when it returns; afterwards the queue
    is empty. *)
Theorem hip_exec_activity_callbacks_drains_under_lock
    (self tid : Z) (s : tracer_state) :
  let r := hip_exec_activity_callbacks self tid s in
  head r.2 = Some (self, mutex_lock tid)
  ∧ closures_run_with tid true false r.2 = true
  ∧ closures_run r.2 = queued (queue_of s tid)
  ∧ lock_held tid false r.2 = false
  ∧ queue_of r.1 tid = [].
Proof.
  unfold hip_exec_activity_callbacks, queue_of.
  destruct (activity_callbacks s !! tid) as [q|] eqn:Hq; simpl.
  - rewrite !decide_True by done.
    rewrite closures_run_with_locked, lock_held_run_closures,
      lookup_insert_eq.
    change ((self, mutex_lock tid) :: run_closures self q
              ++ [(self, mutex_unlock tid)])
      with ([(self, mutex_lock tid)]
              ++ run_closures self q ++ [(self, mutex_unlock tid)]).
    rewrite !closures_run_app, closures_run_run_closures. simpl.
    rewrite !decide_True by done. by rewrite app_nil_r.
  - rewrite !decide_True by done. by rewrite Hq.
Qed.

(** *** Timestamp inversion in [hsa_api_callback] *)

Section hsa.

Variable hsa_op_string : hsa_api_id → option string.

(** The ENTER phase only records the begin timestamp of the thread. *)
Lemma hsa_api_callback_enter cfg amb cid data s :
  tracing_enabled cfg = true → hsa_skipped cid = false →
  hsa_phase data = ACTIVITY_API_PHASE_ENTER →
  hsa_api_callback hsa_op_string cfg amb cid data s
    = returns (set_begin_timestamp s
                 (<[thread_id amb := wall_clock_record amb]>
                    (begin_timestamp s))) [].
Proof.
  intros He Hs Hp. unfold hsa_api_callback. by rewrite He, Hs, Hp.
Qed.

(** C7: in the HSA API callback, when the begin timestamp recorded at ENTER
    is strictly greater than the end timestamp read at EXIT, the EXIT phase
    emits nothing and leaves the state as it is: no event exists for the
    call (ENTER emits none either). *)
Theorem hsa_api_callback_drops_inverted_pair
    cfg amb1 amb2 cid d1 d2 s :
  tracing_enabled cfg = true → hsa_skipped cid = false →
  hsa_phase d1 = ACTIVITY_API_PHASE_ENTER →
  hsa_phase d2 = ACTIVITY_API_PHASE_EXIT →
  thread_id amb1 = thread_id amb2 →
  wall_clock_record amb2 < wall_clock_record amb1 →
  let r1 := hsa_api_callback hsa_op_string cfg amb1 cid d1 s in
  let r2 := hsa_api_callback hsa_op_string cfg amb2 cid d2 (final r1) in
  begin_timestamp (final r1) !! thread_id amb1 = Some (wall_clock_record amb1)
  ∧ emitted r1 = []
  ∧ emitted r2 = []
  ∧ final r2 = final r1.
Proof.
  intros He Hs Hp1 Hp2 Ht Hinv. cbv zeta.
  rewrite (hsa_api_callback_enter cfg amb1 cid d1 s He Hs Hp1). simpl.
  split; [apply lookup_insert_eq|]. split; [done|].
  unfold hsa_api_callback. rewrite He, Hs, Hp2. simpl.
  rewrite <- Ht, lookup_insert_eq. simpl.
  destruct cid; try discriminate Hs.
  rewrite decide_False by discriminate.
  destruct (Z.ltb_spec (wall_clock_record amb2) (wall_clock_record amb1));
    [done | lia].
Qed.

(** For comparison, a pair in the right order is emitted to the timeline
    with exactly these two timestamps. *)
Lemma hsa_api_callback_emits_ordered_pair cfg amb beg cid data s :
  tracing_enabled cfg = true → hsa_skipped cid = false →
  hsa_phase data = ACTIVITY_API_PHASE_EXIT →
  get_use_perfetto cfg = true → get_use_timemory cfg = false →
  begin_timestamp s !! thread_id amb = Some beg →
  beg ≤ wall_clock_record amb →
  emitted (hsa_api_callback hsa_op_string cfg amb cid data s)
    = [ (thread_id amb,
         TRACE_EVENT_BEGIN "device" (hsa_op_string cid)
           (ClockSkew.wrap_u64 beg) None []);
        (thread_id amb,
         TRACE_EVENT_END "device"
           (ClockSkew.wrap_u64 (wall_clock_record amb))) ].
Proof.
  intros He Hs Hp Hperf Htim Hb Hle.
  unfold hsa_api_callback. rewrite He, Hs, Hp, Hb, Hperf, Htim. simpl.
  destruct cid; try discriminate Hs.
  rewrite decide_False by discriminate.
  destruct (Z.ltb_spec (wall_clock_record amb) beg); [lia | done].
Qed.

End hsa.

(** A call of [hsa_queue_create] (id 17 here) on thread 1 whose ENTER reads
    2000 ns and whose EXIT reads 1500 ns. *)
Lemma hsa_api_callback_drops_inverted_pair_witness :
  let r1 := hsa_api_callback (λ _, Some "hsa_queue_create") perfetto_only
              (on_thread 1 2000) (HSA_API_ID_other 17)
              {| hsa_phase := ACTIVITY_API_PHASE_ENTER; hsa_correlation_id := 5 |}
              initial_state in
  let r2 := hsa_api_callback (λ _, Some "hsa_queue_create") perfetto_only
              (on_thread 1 1500) (HSA_API_ID_other 17)
              {| hsa_phase := ACTIVITY_API_PHASE_EXIT; hsa_correlation_id := 5 |}
              (final r1) in
  begin_timestamp (final r1) !! 1 = Some 2000
  ∧ emitted r1 = [] ∧ emitted r2 = [] ∧ final r2 = final r1.
Proof.
  apply (hsa_api_callback_drops_inverted_pair (λ _, Some "hsa_queue_create")
           perfetto_only (on_thread 1 2000) (on_thread 1 1500)
           (HSA_API_ID_other 17)
           {| hsa_phase := ACTIVITY_API_PHASE_ENTER; hsa_correlation_id := 5 |}
           {| hsa_phase := ACTIVITY_API_PHASE_EXIT; hsa_correlation_id := 5 |}
           initial_state);
    [reflexivity | reflexivity | reflexivity | reflexivity | reflexivity
    | simpl; lia].
Defined.

(** *** Host API calls: one BEGIN and one END per sink *)

Lemma count_events_app p es1 es2 :
  count_events p (es1 ++ es2) = (count_events p es1 + count_events p es2)%nat.
Proof. unfold count_events. by rewrite List.filter_app, length_app. Qed.

Lemma count_events_none p es :
  Forall (λ e, p e = false) es → count_events p es = 0%nat.
Proof.
  unfold count_events. induction 1 as [|e es He _ IH]; simpl; [done|].
  by rewrite He.
Qed.

Lemma run_closures_not_host self q :
  Forall not_a_host_event (run_closures self q).
Proof.
  unfold run_closures. induction q as [|[c|] q IH]; simpl; [done| |done].
  constructor; [|exact IH].
  repeat split; intros; try destruct k; reflexivity.
Qed.

Lemma drain_not_host self tid s :
  Forall not_a_host_event (hip_exec_activity_callbacks self tid s).2.
Proof.
  assert (Hl : ∀ a, (a = mutex_lock tid ∨ a = mutex_unlock tid) →
                 not_a_host_event (self, a)).
  { intros a [-> | ->]; repeat split; intros; try destruct k; reflexivity. }
  unfold hip_exec_activity_callbacks.
  destruct (activity_callbacks s !! tid) as [q|]; simpl.
  - constructor; [apply Hl; auto|].
    apply Forall_app. split; [apply run_closures_not_host|].
    constructor; [apply Hl; auto | constructor].
  - repeat constructor; apply Hl; auto.
Qed.

Lemma drain_count_begin self tid s k c :
  count_events (host_begin k c) (hip_exec_activity_callbacks self tid s).2 = 0%nat.
Proof.
  apply count_events_none. eapply Forall_impl; [apply drain_not_host|].
  intros e (H & _). apply H.
Qed.

Lemma drain_count_end self tid s k c :
  count_events (host_end k c) (hip_exec_activity_callbacks self tid s).2 = 0%nat.
Proof.
  apply count_events_none. eapply Forall_impl; [apply drain_not_host|].
  intros e (_ & H & _). apply H.
Qed.

Lemma drain_registry self tid s :
  let s' := (hip_exec_activity_callbacks self tid s).1 in
  cid_data s' = cid_data s ∧ hip_data s' = hip_data s
  ∧ key_data s' = key_data s ∧ tid_data s' = tid_data s.
Proof.
  unfold hip_exec_activity_callbacks.
  by destruct (activity_callbacks s !! tid).
Qed.

Lemma emplace_is_Some {V} (k : Z) (v : V) (m : gmap Z V) :
  is_Some (emplace k v m !! k).
Proof.
  unfold emplace. destruct (m !! k) eqn:E; [by rewrite E|].
  rewrite lookup_insert_eq. eauto.
Qed.

Lemma wrap_u64_int64 z : 0 ≤ z < 2 ^ 63 → ClockSkew.wrap_u64 z = z.
Proof. intros H. apply ClockSkewFacts.wrap_u64_small. lia. Qed.

Section hip.
Variable hip_op_string : hip_api_id → option string.
Variable hip_api_name : hip_api_id → option string.
Variable hipKernelNameRefByPtr : Z → Z → option string.
Variable hipKernelNameRef : Z → option string.

Lemma host_begin_perfetto k c tid name ts fl a1 a2 a3 a4 :
  host_begin k c
    (tid, TRACE_EVENT_BEGIN "host" name ts fl
            [a1; a2; a3; a4; ("corr_id", Aint c)])
  = bool_decide (k = Perfetto).
Proof.
  destruct k; simpl; try done.
  rewrite bool_decide_eq_true_2; [done|]. set_solver.
Qed.

Lemma host_begin_timemory k c tid name :
  host_begin k c (tid, bundle_start c name) = bool_decide (k = Timemory).
Proof. destruct k; simpl; try done. by rewrite bool_decide_eq_true_2. Qed.

Lemma host_begin_critical k c tid cid pcid t1 t2 q n d p :
  host_begin k c (tid, add_critical_trace CPU BEGIN tid cid c pcid t1 t2 q n d p)
  = bool_decide (k = CriticalTrace).
Proof. destruct k; simpl; try done. by rewrite bool_decide_eq_true_2. Qed.

Lemma count_events_cons p e es :
  count_events p (e :: es)
  = ((if p e then 1 else 0) + count_events p es)%nat.
Proof. unfold count_events. simpl. by destruct (p e). Qed.

Lemma hip_api_enter_begin cfg amb cid op_name data s :
  thread_hip_data s (thread_id amb) !! hip_correlation_id data = None →
  let r := hip_api_enter hipKernelNameRefByPtr hipKernelNameRef
             cfg amb cid op_name data s in
  let c := hip_correlation_id data in
  thrown r = None
  ∧ (∀ k, count_events (host_begin k c) (emitted r)
          = if sink_enabled cfg k then 1%nat else 0%nat)
  ∧ (∀ k, count_events (host_end k c) (emitted r) = 0%nat)
  ∧ outstanding cfg (thread_id amb) c (final r).
Proof.
  intros Hfresh. cbv zeta. unfold hip_api_enter.
  destruct (cpu_cid_entry amb) as [[_cid _pcid] _depth].
  set (s1 := match hip_kernel_name _ _ _ _ with Some _ => _ | None => s end).
  assert (Hs1 : hip_data s1 = hip_data s ∧ cid_data s1 = cid_data s).
  { subst s1. destruct (hip_kernel_name _ _ _ _); [|done].
    by destruct (_ || _). }
  destruct Hs1 as [Hh Hc].
  assert (Hf1 : thread_hip_data s1 (thread_id amb) !! hip_correlation_id data = None).
  { unfold thread_hip_data in *. by rewrite Hh. }
  rewrite Hf1. clearbody s1.
  set (tid := thread_id amb) in *. set (c := hip_correlation_id data) in *.
  destruct (get_use_timemory cfg) eqn:Htim.
  all: match goal with
       | |- context [hip_exec_activity_callbacks ?a ?b ?st] =>
           pose proof (drain_registry a b st) as Hreg;
           pose proof (λ k, drain_count_begin a b st k c) as Hdb;
           pose proof (λ k, drain_count_end a b st k c) as Hde;
           destruct (hip_exec_activity_callbacks a b st) as [s3 dr]
       end.
  all: simpl in Hreg, Hdb, Hde; destruct Hreg as (Hr1 & Hr2 & _).
  all: simpl; split; [done|].
  all: split; [|split].
  all: try (intros k; unfold sink_enabled;
            destruct (get_use_perfetto cfg),
              (get_use_critical_trace cfg || get_use_rocm_smi cfg);
            repeat first [rewrite count_events_cons | rewrite count_events_app];
            rewrite ?Hdb, ?Hde,
              ?host_begin_perfetto, ?host_begin_timemory,
              ?host_begin_critical;
            destruct k; try rewrite Htim; reflexivity).
  all: split; [rewrite Hr1; apply emplace_is_Some|].
  all: intros Ht; try congruence.
  unfold thread_hip_data. rewrite Hr2, lookup_insert_eq. simpl.
  rewrite lookup_insert_eq. eauto.
Qed.

Lemma host_end_perfetto k c tid ts :
  host_end k c (tid, TRACE_EVENT_END "host" ts) = bool_decide (k = Perfetto).
Proof. by destruct k. Qed.

Lemma host_end_timemory k c tid name :
  host_end k c (tid, bundle_stop c name) = bool_decide (k = Timemory).
Proof. destruct k; simpl; try done. by rewrite bool_decide_eq_true_2. Qed.

Lemma host_end_critical k c tid cid pcid t1 t2 q n d p :
  host_end k c (tid, add_critical_trace CPU END tid cid c pcid t1 t2 q n d p)
  = bool_decide (k = CriticalTrace).
Proof. destruct k; simpl; try done. by rewrite bool_decide_eq_true_2. Qed.

Lemma hip_api_exit_end cfg amb cid op_name data s :
  outstanding cfg (thread_id amb) (hip_correlation_id data) s →
  let r := hip_api_exit cfg amb cid op_name data s in
  let c := hip_correlation_id data in
  thrown r = None
  ∧ (∀ k, count_events (host_end k c) (emitted r)
          = if sink_enabled cfg k then 1%nat else 0%nat)
  ∧ (∀ k, count_events (host_begin k c) (emitted r) = 0%nat).
Proof.
  intros [Hcid Hbundle]. cbv zeta. unfold hip_api_exit.
  set (tid := thread_id amb) in *. set (c := hip_correlation_id data) in *.
  pose proof (drain_registry tid tid s) as Hreg.
  pose proof (λ k, drain_count_begin tid tid s k c) as Hdb.
  pose proof (λ k, drain_count_end tid tid s k c) as Hde.
  destruct (hip_exec_activity_callbacks tid tid s) as [s1 dr].
  simpl in Hreg, Hdb, Hde. destruct Hreg as (Hr1 & Hr2 & _).
  cbn iota. rewrite Hr1.
  destruct (cid_data s !! c) as [[[_cid _pcid] _depth]|];
    [|by destruct Hcid].
  destruct (get_use_timemory cfg) eqn:Htim.
  - destruct (Hbundle eq_refl) as [b Hb].
    unfold _stop, thread_hip_data in *. rewrite Hr2, Hb. simpl.
    split; [done|]. split; intros k; unfold sink_enabled;
      destruct (get_use_perfetto cfg),
        (get_use_critical_trace cfg || get_use_rocm_smi cfg);
      repeat first [rewrite count_events_cons | rewrite count_events_app];
      rewrite ?Hdb, ?Hde, ?host_end_perfetto, ?host_end_timemory,
        ?host_end_critical;
      destruct k; try rewrite Htim; reflexivity.
  - simpl. split; [done|]. split; intros k; unfold sink_enabled;
      destruct (get_use_perfetto cfg),
        (get_use_critical_trace cfg || get_use_rocm_smi cfg);
      repeat first [rewrite count_events_cons | rewrite count_events_app];
      rewrite ?Hdb, ?Hde, ?host_end_perfetto, ?host_end_timemory,
        ?host_end_critical;
      destruct k; try rewrite Htim; reflexivity.
Qed.

Lemma stamped_drain ts self tid s :
  stamped ts (hip_exec_activity_callbacks self tid s).2.
Proof.
  eapply Forall_impl; [apply drain_not_host|].
  intros e (_ & _ & H) t Ht. congruence.
Qed.

Lemma hip_api_enter_stamped cfg amb cid op_name data s :
  0 ≤ wall_clock_record amb < 2 ^ 63 →
  stamped (wall_clock_record amb)
    (emitted (hip_api_enter hipKernelNameRefByPtr hipKernelNameRef
                cfg amb cid op_name data s)).
Proof.
  intros Hts. unfold hip_api_enter.
  destruct (cpu_cid_entry amb) as [[_cid _pcid] _depth].
  set (s1 := match hip_kernel_name _ _ _ _ with Some _ => _ | None => s end).
  clearbody s1.
  destruct (get_use_timemory cfg);
    [destruct (thread_hip_data s1 (thread_id amb) !! hip_correlation_id data)|].
  all: match goal with
       | |- context [hip_exec_activity_callbacks ?a ?b ?st] =>
           pose proof (stamped_drain (wall_clock_record amb) a b st) as Hd;
           destruct (hip_exec_activity_callbacks a b st) as [s3 dr]
       end.
  all: simpl in Hd; cbn iota; unfold returns, emitted.
  all: destruct (get_use_perfetto cfg),
         (get_use_critical_trace cfg || get_use_rocm_smi cfg).
  all: repeat first [apply Forall_app; split | apply Forall_cons; split
                    | apply Forall_nil | exact Hd].
  all: try exact I.
  all: rewrite ?wrap_u64_int64 by done.
  all: intros t Ht; unfold host_timestamp in Ht; simpl in Ht; congruence.
Qed.

Lemma stop_result c s t s' a :
  _stop c s t = Some (s', a) → ∃ b, a = bundle_stop c b.
Proof.
  unfold _stop. destruct (thread_hip_data s t !! c); [|done].
  intros [= <- <-]. eauto.
Qed.

Lemma stop_any_result c s ts s' a :
  stop_any c s ts = Some (s', a) → ∃ b, a = bundle_stop c b.
Proof.
  induction ts as [|t ts IH]; simpl; [done|].
  destruct (_stop c s t) as [[s'' a']|] eqn:E; [|exact IH].
  intros [= <- <-]. by eapply stop_result.
Qed.

Lemma hip_api_exit_stamped cfg amb cid op_name data s :
  0 ≤ wall_clock_record amb < 2 ^ 63 →
  stamped (wall_clock_record amb)
    (emitted (hip_api_exit cfg amb cid op_name data s)).
Proof.
  intros Hts. unfold hip_api_exit.
  pose proof (stamped_drain (wall_clock_record amb)
                (thread_id amb) (thread_id amb) s) as Hd.
  destruct (hip_exec_activity_callbacks _ _ s) as [s1 dr].
  simpl in Hd; cbn iota.
  destruct (cid_data s1 !! _) as [[[_cid _pcid] _depth]|]; [|exact Hd].
  destruct (get_use_timemory cfg);
    [destruct (_stop _ s1 _) as [[s' a]|] eqn:Hstop;
     [|destruct (stop_any _ s1 _) as [[s' a]|] eqn:Hany]|].
  all: unfold returns, emitted.
  all: destruct (get_use_perfetto cfg),
         (get_use_critical_trace cfg || get_use_rocm_smi cfg).
  all: repeat first [apply Forall_app; split | apply Forall_cons; split
                    | apply Forall_nil | exact Hd].
  all: try exact I.
  all: rewrite ?wrap_u64_int64 by done.
  all: intros t Ht; unfold host_timestamp in Ht; simpl in Ht; try congruence.
  all: apply stop_result in Hstop || apply stop_any_result in Hany.
  all: destruct Hstop as (b & ->) || destruct Hany as (b & ->).
  all: discriminate Ht.
Qed.

Lemma count_events_pos p es :
  (0 < count_events p es)%nat → ∃ e, e ∈ es ∧ p e = true.
Proof.
  unfold count_events. intros H.
  destruct (List.filter p es) as [|e l] eqn:E; [simpl in H; lia|].
  assert (Hin : In e (List.filter p es)) by (rewrite E; by left).
  apply filter_In in Hin as [Hin Hp].
  exists e. split; [by apply list_elem_of_In|done].
Qed.

Lemma host_begin_timestamp k c e :
  k ≠ Timemory → host_begin k c e = true → is_Some (host_timestamp e).
Proof.
  destruct e as [t a]. unfold host_begin, host_timestamp. simpl.
  destruct k, a; try done; intros _ H.
  - apply andb_true_iff in H as [H _]. apply bool_decide_eq_true in H.
    subst. rewrite decide_True by done. eauto.
  - destruct dev, ph; try done; eauto.
Qed.

Lemma host_end_timestamp k c e :
  k ≠ Timemory → host_end k c e = true → is_Some (host_timestamp e).
Proof.
  destruct e as [t a]. unfold host_end, host_timestamp. simpl.
  destruct k, a; try done; intros _ H.
  - apply bool_decide_eq_true in H.
    subst. rewrite decide_True by done. eauto.
  - destruct dev, ph; try done; eauto.
Qed.

(** C1, amended: for a host API call that [hip_api_callback] traces,
    delivered as one ENTER and then one EXIT with the same correlation id
    on the same thread, with no ENTER of that id outstanding before and
    host clock reads that are not negative (in [0, 2^63)): the
    ENTER phase returns and emits exactly one BEGIN carrying the
    correlation id to every enabled sink (and no END); the call is then
    outstanding, and from every later state in which it still is, the EXIT
    phase returns and emits exactly one END to every enabled sink (and no
    BEGIN).  Every timestamp of the BEGIN events is the host clock read of
    the ENTER invocation and every timestamp of the END events the read of
    the EXIT invocation; there is no inversion test.  So the END
    timestamps are greater than or equal to the BEGIN timestamps when the
    read at EXIT is not below the read at ENTER and, for a sink that
    carries timestamps (perfetto, critical trace), only then. *)
Theorem hip_api_callback_begin_end_pair cfg amb1 amb2 cid d1 d2 s0 :
  traced hip_op_string hip_api_name cfg cid →
  hip_phase d1 = ACTIVITY_API_PHASE_ENTER →
  hip_phase d2 = ACTIVITY_API_PHASE_EXIT →
  hip_correlation_id d2 = hip_correlation_id d1 →
  thread_id amb2 = thread_id amb1 →
  thread_hip_data s0 (thread_id amb1) !! hip_correlation_id d1 = None →
  0 ≤ wall_clock_record amb1 < 2 ^ 63 →
  0 ≤ wall_clock_record amb2 < 2 ^ 63 →
  let c := hip_correlation_id d1 in
  let tid := thread_id amb1 in
  let r1 := hip_api_callback hip_op_string hip_api_name
              hipKernelNameRefByPtr hipKernelNameRef cfg amb1 cid d1 s0 in
  thrown r1 = None
  ∧ (∀ k, count_events (host_begin k c) (emitted r1)
          = if sink_enabled cfg k then 1%nat else 0%nat)
  ∧ (∀ k, count_events (host_end k c) (emitted r1) = 0%nat)
  ∧ stamped (wall_clock_record amb1) (emitted r1)
  ∧ outstanding cfg tid c (final r1)
  ∧ ∀ s1, outstanding cfg tid c s1 →
      let r2 := hip_api_callback hip_op_string hip_api_name
                  hipKernelNameRefByPtr hipKernelNameRef cfg amb2 cid d2 s1 in
      thrown r2 = None
      ∧ (∀ k, count_events (host_end k c) (emitted r2)
              = if sink_enabled cfg k then 1%nat else 0%nat)
      ∧ (∀ k, count_events (host_begin k c) (emitted r2) = 0%nat)
      ∧ stamped (wall_clock_record amb2) (emitted r2)
      ∧ (wall_clock_record amb1 ≤ wall_clock_record amb2 →
         end_not_before_begin r1 r2)
      ∧ (sink_enabled cfg Perfetto || sink_enabled cfg CriticalTrace = true →
         end_not_before_begin r1 r2 →
         wall_clock_record amb1 ≤ wall_clock_record amb2).
Proof.
  intros (Hen & [op_name Hop] & Hsk) Hp1 Hp2 Hc Ht Hfresh Hr1 Hr2.
  cbv zeta. unfold hip_api_callback. rewrite Hen, Hop, Hsk, Hp1, Hp2. simpl.
  destruct (hip_api_enter_begin cfg amb1 cid op_name d1 s0 Hfresh)
    as (E1 & E2 & E3 & E4).
  pose proof (hip_api_enter_stamped cfg amb1 cid op_name d1 s0 Hr1) as S1.
  repeat (split; [assumption|]).
  intros s1 Hout. rewrite <- Hc, <- Ht in Hout.
  destruct (hip_api_exit_end cfg amb2 cid op_name d2 s1 Hout)
    as (X1 & X2 & X3).
  rewrite Hc in X2, X3.
  pose proof (hip_api_exit_stamped cfg amb2 cid op_name d2 s1 Hr2) as S2.
  repeat (split; [assumption|]).
  unfold stamped in S1, S2. rewrite Forall_forall in S1, S2.
  split.
  - intros Hle e1 e2 t1 t2 He1 He2 Ht1 Ht2.
    by rewrite (S1 e1 He1 t1 Ht1), (S2 e2 He2 t2 Ht2).
  - intros Hsink Hord.
    assert (∃ k, k ≠ Timemory ∧ sink_enabled cfg k = true) as (k & Hk & Hon).
    { apply orb_true_iff in Hsink as [H|H];
        [exists Perfetto | exists CriticalTrace]; by split. }
    destruct (count_events_pos (host_begin k (hip_correlation_id d1))
                (emitted (hip_api_enter hipKernelNameRefByPtr
                            hipKernelNameRef cfg amb1 cid op_name d1 s0)))
      as (e1 & He1 & Hb1); [rewrite E2, Hon; lia|].
    destruct (count_events_pos (host_end k (hip_correlation_id d1))
                (emitted (hip_api_exit cfg amb2 cid op_name d2 s1)))
      as (e2 & He2 & Hb2); [rewrite X2, Hon; lia|].
    destruct (host_begin_timestamp k _ e1 Hk Hb1) as [t1 Ht1].
    destruct (host_end_timestamp k _ e2 Hk Hb2) as [t2 Ht2].
    pose proof (Hord e1 e2 t1 t2 He1 He2 Ht1 Ht2) as Hle.
    by rewrite (S1 e1 He1 t1 Ht1), (S2 e2 He2 t2 Ht2) in Hle.
Qed.

End hip.

(** A [hipMemcpyAsync] with correlation id 42 on thread 1, entered at 1000 ns
    and left at 1500 ns. *)
Lemma hip_api_callback_begin_end_pair_witness :
  let r1 := demo_callback (on_thread 1 1000) HIP_API_ID_hipMemcpyAsync
              memcpy_enter initial_state in
  let r2 := demo_callback (on_thread 1 1500) HIP_API_ID_hipMemcpyAsync
              memcpy_exit (final r1) in
  thrown r1 = None
  ∧ count_events (host_begin Perfetto 42) (emitted r1) = 1%nat
  ∧ thrown r2 = None
  ∧ count_events (host_end Perfetto 42) (emitted r2) = 1%nat.
Proof.
  cbv zeta.
  destruct (hip_api_callback_begin_end_pair demo_hip_names (λ _, None)
              (λ _ _, None) (λ _, None) perfetto_only
              (on_thread 1 1000) (on_thread 1 1500)
              HIP_API_ID_hipMemcpyAsync memcpy_enter memcpy_exit
              initial_state)
    as (H1 & H2 & _ & _ & H4 & H5).
  - split; [reflexivity|]. split; [eexists; reflexivity | reflexivity].
  - reflexivity.
  - reflexivity.
  - reflexivity.
  - reflexivity.
  - reflexivity.
  - simpl; lia.
  - simpl; lia.
  - destruct (H5 _ H4) as (X1 & X2 & _).
    split; [exact H1|]. split; [exact (H2 Perfetto)|].
    split; [exact X1 | exact (X2 Perfetto)].
Defined.

(** The events of that call, one after the other. *)
Example memcpy_async_events :
  let r1 := demo_callback (on_thread 1 1000) HIP_API_ID_hipMemcpyAsync
              memcpy_enter initial_state in
  let r2 := demo_callback (on_thread 1 1500) HIP_API_ID_hipMemcpyAsync
              memcpy_exit (final r1) in
  emitted r1
    = [ (1, TRACE_EVENT_BEGIN "host" (Some "hipMemcpyAsync") 1000 (Some 7)
              [ ("pcid", Aint 0); ("cid", Aint 7); ("tid", Aint 1);
                ("depth", Aint 0); ("corr_id", Aint 42) ]);
        (1, mutex_lock 1); (1, mutex_unlock 1) ]
  ∧ emitted r2
    = [ (1, mutex_lock 1); (1, mutex_unlock 1);
        (1, TRACE_EVENT_END "host" 1500) ].
Proof. split; vm_compute; reflexivity. Qed.

(** C1, the claim as stated fails: [hip_api_callback] has no inversion
    test.  If the host clock reads 2000 ns at the ENTER and 1500 ns at the
    EXIT of the same call on the same thread, the BEGIN is out with 2000
    and the EXIT still emits its END, with 1500: the END timestamp is below
    the BEGIN timestamp. *)
Lemma hip_api_callback_end_before_begin :
  let r1 := demo_callback (on_thread 1 2000) HIP_API_ID_hipMemcpyAsync
              memcpy_enter initial_state in
  let r2 := demo_callback (on_thread 1 1500) HIP_API_ID_hipMemcpyAsync
              memcpy_exit (final r1) in
  thrown r1 = None ∧ thrown r2 = None
  ∧ omap host_timestamp (emitted r1) = [2000]
  ∧ omap host_timestamp (emitted r2) = [1500]
  ∧ ¬ end_not_before_begin r1 r2.
Proof.
  cbv zeta.
  split; [reflexivity|]. split; [reflexivity|].
  split; [vm_compute; reflexivity|]. split; [vm_compute; reflexivity|].
  intros H.
  assert (Hle : 2000 ≤ 1500); [|lia].
  apply (H (1, TRACE_EVENT_BEGIN "host" (Some "hipMemcpyAsync") 2000 (Some 7)
                 [ ("pcid", Aint 0); ("cid", Aint 7); ("tid", Aint 1);
                   ("depth", Aint 0); ("corr_id", Aint 42) ])
           (1, TRACE_EVENT_END "host" 1500)).
  - apply list_elem_of_here.
  - do 2 apply list_elem_of_further. apply list_elem_of_here.
  - reflexivity.
  - reflexivity.
Qed.

(** *** Activity records with an unregistered correlation id *)

Section activity.

Variable hip_ops_string : Z → Z → option string.
Variable demangle : string → string.

(** C2, amended: for a device-op record (domain HIP_OPS, op up to
    BARRIER) whose correlation id is in none of the registry maps and for
    which the op-string helper returns a name, [hip_activity_callback]
    emits, when the perfetto sink is enabled, exactly one device span, on
    the current thread, named by [tim::demangle] of the op-string; with
    perfetto disabled it emits nothing.  In both cases no closure is
    queued for any thread and no critical-trace entry is emitted. *)
Theorem hip_activity_callback_unregistered cfg self record s n :
  tracing_enabled cfg = true →
  device_op record →
  unregistered (correlation_id record) s →
  hip_ops_string (op record) (kind record) = Some n →
  cache_consistent demangle s →
  let r := hip_activity_callback hip_ops_string demangle cfg self
             [record] s in
  r.2 = (if get_use_perfetto cfg
         then perfetto_span cfg self record (demangle n) else [])
  ∧ device_spans r.2
    = (if get_use_perfetto cfg then [(self, Some (demangle n))] else [])
  ∧ activity_callbacks r.1 = activity_callbacks s.
Proof.
  intros Hen [Hdom Hop] (Hk & Ht & Hc) Hn Hcache. cbv zeta.
  assert (E : hip_activity_callback hip_ops_string demangle cfg self
                [record] s
              = (let r := hip_activity_record hip_ops_string demangle cfg
                            self record s in (r.1, r.2 ++ []))).
  { unfold hip_activity_callback. rewrite Hen. simpl.
    by destruct (hip_activity_record _ _ _ _ _ _). }
  rewrite E. clear E. cbv zeta. rewrite app_nil_r.
  unfold hip_activity_record.
  rewrite Hdom, bool_decide_eq_true_2 by done. simpl negb. cbn iota.
  destruct (Z.ltb_spec HIP_OP_ID_BARRIER (op record)) as [Hlt|_]; [lia|].
  unfold set_indexes, set_kernel_names, set_activity_callbacks.
  cbn [tid_data cid_data key_data _kernel_names activity_callbacks _indexes].
  rewrite Ht, Hn, Hc.
  assert (Hcrit : (if get_use_critical_trace cfg || get_use_rocm_smi cfg
                   then (false, (0, 0, 0)) else (false, (0, 0, 0)))
                  = (false, ((0, 0, 0) : cid_tuple_t)))
    by (by destruct (_ || _)).
  rewrite Hcrit. clear Hcrit.
  destruct (get_use_perfetto cfg); simpl.
  - assert (Hname : match _kernel_names s !! n with
                    | Some _ => _kernel_names s
                    | None => <[n:=demangle n]> (_kernel_names s)
                    end !! n = Some (demangle n)).
    { destruct (_kernel_names s !! n) as [v|] eqn:Ev.
      - by rewrite Ev, (Hcache n v Ev).
      - apply lookup_insert_eq. }
    rewrite Hname. done.
  - done.
Qed.

End activity.

(** C2, the claim as stated fails: with only the timemory sink enabled, a
    COPY record whose correlation id 999 was never registered gives no span
    at all: nothing is emitted and nothing is queued. *)
Lemma unregistered_record_without_span :
  hip_activity_callback generic_op_string id timemory_only 9
    [unknown_copy] initial_state = (set_indexes initial_state {[ 999 := 1 ]}, [])
  ∧ ¬ emits_fallback_span generic_op_string id timemory_only 9
        unknown_copy initial_state.
Proof.
  split; [reflexivity|].
  intros (n & _ & H). vm_compute in H. discriminate H.
Qed.

(** The same record with the perfetto sink enabled and a skew of -100 ns. *)
Lemma hip_activity_callback_unregistered_witness :
  (hip_activity_callback generic_op_string id perfetto_only 9
     [unknown_copy] initial_state).2
  = [ (9, TRACE_EVENT_BEGIN "device" (Some "COPY") 900 (Some 0)
            [ ("corr_id", Aint 999); ("device", Aint 0); ("queue", Aint 3);
              ("op", Astr "COPY") ]);
      (9, TRACE_EVENT_END "device" 1900);
      (9, TRACE_EVENT_END "device" 1900) ].
Proof.
  destruct (hip_activity_callback_unregistered generic_op_string id
              perfetto_only 9 unknown_copy initial_state "COPY")
    as (H & _).
  - reflexivity.
  - split; [reflexivity | vm_compute; discriminate].
  - repeat split.
  - reflexivity.
  - intros n v Hv. discriminate Hv.
  - exact H.
Defined.

(** *** Further properties of the callbacks *)

Lemma wrap_u64_sub_shift a b k :
  ClockSkew.wrap_u64 (ClockSkew.wrap_u64 (a + k) - ClockSkew.wrap_u64 (b + k))
  = ClockSkew.wrap_u64 (a - b).
Proof.
  unfold ClockSkew.wrap_u64.
  rewrite <- Zminus_mod. f_equal. lia.
Qed.

Lemma static_cast_double_exact z :
  0 ≤ z < 2 ^ 53 → static_cast_double z = z.
Proof.
  intros Hz. unfold static_cast_double.
  destruct (Z.leb_spec (Z.log2 (Z.abs z) - 52) 0) as [_|Hlt]; [done|].
  assert (Hpos : 0 < z) by (destruct (decide (z = 0)) as [->|]; [done|lia]).
  rewrite Z.abs_eq in Hlt by lia.
  pose proof (proj1 (Z.log2_lt_pow2 z 53 Hpos) ltac:(lia)). lia.
Qed.

(** Above [2^53] the conversion rounds to the nearest double, ties to the
    even significand. *)
Example static_cast_double_rounds :
  static_cast_double (2 ^ 53 + 1) = 2 ^ 53
  ∧ static_cast_double (2 ^ 53 + 2) = 2 ^ 53 + 2
  ∧ static_cast_double (2 ^ 53 + 3) = 2 ^ 53 + 4
  ∧ static_cast_double (- (2 ^ 53 + 1)) = - 2 ^ 53
  ∧ static_cast_double (2 ^ 63 - 1) = 2 ^ 63.
Proof. repeat split; vm_compute; reflexivity. Qed.

Section activity_more.
Variable hip_ops_string : Z → Z → option string.
Variable demangle : string → string.

Lemma device_event_not_host self e :
  (∃ n ts fl ann, e = TRACE_EVENT_BEGIN "device" n ts fl ann)
  ∨ (∃ ts, e = TRACE_EVENT_END "device" ts)
  ∨ (∃ tid cid c pcid b e' q n d p,
       e = add_critical_trace GPU DELTA tid cid c pcid b e' q n d p) →
  not_a_host_event (self, e).
Proof.
  intros [(n & ts & fl & ann & ->)
         | [(ts & ->)
           | (tid & cid & c & pcid & b & e' & q & n & d & p & ->)]];
    repeat split; intros; try destruct k; reflexivity.
Qed.

Lemma extends_append (m : gmap Z (list (option closure))) z x t :
  extends (default [] (m !! t))
    (default [] (<[z := default [] (m !! z) ++ [x]]> m !! t)).
Proof.
  unfold extends. destruct (decide (z = t)) as [->|Hne].
  - rewrite lookup_insert_eq. simpl. by apply prefix_app_r.
  - by rewrite lookup_insert_ne.
Qed.

Lemma cache_insert (m : gmap string string) n :
  (∀ k v, m !! k = Some v → v = demangle k) →
  ∀ k v, <[n := demangle n]> m !! k = Some v → v = demangle k.
Proof.
  intros H k v. destruct (decide (n = k)) as [->|Hne].
  - rewrite lookup_insert_eq. congruence.
  - rewrite lookup_insert_ne by done. apply H.
Qed.

Ltac frame_events :=
  repeat first
    [ apply Forall_nil_2
    | apply Forall_cons_2;
      [ apply device_event_not_host;
        first [ left; by repeat eexists
              | right; left; by repeat eexists
              | right; right; by repeat eexists ] | ] ].

Lemma hip_activity_record_frame cfg self record s :
  let r := hip_activity_record hip_ops_string demangle cfg self record s in
  record_frame demangle s r.1 r.2.
Proof.
  cbv zeta. unfold hip_activity_record.
  repeat case_match; simplify_eq; simpl.
  all: unfold record_frame, cache_consistent, queue_of; simpl.
  all: repeat split; try done.
  all: try (intros t; first [ apply extends_append | done ]).
  all: try frame_events.
  all: try (by apply cache_insert).
Qed.

Lemma record_frame_trans s1 s2 s3 es1 es2 :
  record_frame demangle s1 s2 es1 → record_frame demangle s2 s3 es2 →
  record_frame demangle s1 s3 (es1 ++ es2).
Proof.
  intros (K1 & T1 & C1 & H1 & B1 & Q1 & E1 & R1 & X1)
         (K2 & T2 & C2 & H2 & B2 & Q2 & E2 & R2 & X2).
  unfold record_frame. rewrite K2, T2, C2, H2, B2.
  repeat split; try done.
  - intros t. unfold extends in *. etrans; [apply Q1|apply Q2].
  - by apply Forall_app.
  - by rewrite closures_run_app, R1, R2.
  - auto.
Qed.

Lemma record_frame_refl s : record_frame demangle s s [].
Proof. unfold record_frame, extends. repeat split; try done. Qed.

Lemma hip_activity_records_frame cfg self buffer s :
  let r := hip_activity_records hip_ops_string demangle cfg self buffer s in
  record_frame demangle s r.1 r.2.
Proof.
  revert s. induction buffer as [|record rest IH]; intros s; simpl.
  - apply record_frame_refl.
  - pose proof (hip_activity_record_frame cfg self record s) as H1.
    destruct (hip_activity_record hip_ops_string demangle cfg self record s)
      as [s1 es1]. simpl in H1.
    specialize (IH s1).
    destruct (hip_activity_records _ _ cfg self rest s1) as [s2 es2].
    simpl in *. by eapply record_frame_trans.
Qed.

(** X6: [hip_activity_callback] only reads the correlation registry:
    whatever the buffer holds, [key_data], [tid_data], [cid_data] and the
    host bundles are as before, every per-thread queue is the old one with
    entries added at the back, no host BEGIN or END is emitted, and no
    queued closure is executed by the callback itself. *)
Theorem hip_activity_callback_frame cfg self buffer s :
  let r := hip_activity_callback hip_ops_string demangle cfg self buffer s in
  key_data r.1 = key_data s ∧ tid_data r.1 = tid_data s
  ∧ cid_data r.1 = cid_data s ∧ hip_data r.1 = hip_data s
  ∧ (∀ t, extends (queue_of s t) (queue_of r.1 t))
  ∧ Forall not_a_host_event r.2 ∧ closures_run r.2 = [].
Proof.
  cbv zeta. unfold hip_activity_callback.
  destruct (negb (tracing_enabled cfg)).
  - simpl. unfold extends. repeat split; try done.
  - destruct (hip_activity_records_frame cfg self buffer s)
      as (K & T & C & H & _ & Q & E & R & _).
    repeat split; done.
Qed.

(** X7: the demangle cache [_kernel_names] stays consistent over a buffer:
    if every cached entry is the demangled form of its key before
    [hip_activity_callback], the same holds afterwards. *)
Theorem hip_activity_callback_keeps_cache cfg self buffer s :
  cache_consistent demangle s →
  cache_consistent demangle
    (hip_activity_callback hip_ops_string demangle cfg self buffer s).1.
Proof.
  intros Hc. unfold hip_activity_callback.
  destruct (negb (tracing_enabled cfg)); [done|].
  by apply hip_activity_records_frame.
Qed.
End activity_more.

Section correlation.
Variable hip_op_string : hip_api_id → option string.
Variable hip_api_name : hip_api_id → option string.
Variable hipKernelNameRefByPtr : Z → Z → option string.
Variable hipKernelNameRef : Z → option string.
Variable hip_ops_string : Z → Z → option string.
Variable demangle : string → string.

Lemma emplace_fresh {V} (k : Z) (v : V) (m : gmap Z V) :
  m !! k = None → emplace k v m !! k = Some v.
Proof. intros H. unfold emplace. rewrite H. apply lookup_insert_eq. Qed.

Lemma emplace_keeps {V} (k : Z) (v : V) (m : gmap Z V) :
  m ⊆ emplace k v m.
Proof.
  unfold emplace. destruct (m !! k) eqn:E; [done|]. by apply insert_subseteq.
Qed.

Lemma drain_queue_empty self tid s :
  queue_of (hip_exec_activity_callbacks self tid s).1 tid = [].
Proof.
  unfold hip_exec_activity_callbacks, queue_of.
  destruct (activity_callbacks s !! tid) as [q|] eqn:Hq; simpl.
  - by rewrite lookup_insert_eq.
  - by rewrite Hq.
Qed.

Lemma hip_api_enter_registers cfg amb cid op_name data s name :
  hip_kernel_name hipKernelNameRefByPtr hipKernelNameRef cid (args data)
    = Some name →
  get_use_perfetto cfg || get_use_timemory cfg || get_use_rocm_smi cfg = true →
  key_data s !! hip_correlation_id data = None →
  tid_data s !! hip_correlation_id data = None →
  let r := hip_api_enter hipKernelNameRefByPtr hipKernelNameRef
             cfg amb cid op_name data s in
  key_data (final r) !! hip_correlation_id data = Some name
  ∧ tid_data (final r) !! hip_correlation_id data = Some (thread_id amb)
  ∧ is_Some (cid_data (final r) !! hip_correlation_id data)
  ∧ queue_of (final r) (thread_id amb) = [].
Proof.
  intros Hname Hsink Hk Ht. cbv zeta. unfold hip_api_enter.
  rewrite Hname, Hsink.
  destruct (cpu_cid_entry amb) as [[_cid _pcid] _depth].
  set (tid := thread_id amb). set (c := hip_correlation_id data) in *.
  set (s1 := set_key_tid s _ _).
  destruct (get_use_timemory cfg);
    [destruct (thread_hip_data s1 tid !! c)|].
  all: match goal with
       | |- context [hip_exec_activity_callbacks ?a ?b ?st] =>
           pose proof (drain_registry a b st) as (Hc' & _ & Hk' & Ht');
           pose proof (drain_queue_empty a b st) as Hq;
           destruct (hip_exec_activity_callbacks a b st) as [s3 dr]
       end.
  all: simpl in *; rewrite Hk', Ht', Hc'.
  all: repeat split; try done; try by apply emplace_fresh.
  all: apply emplace_is_Some.
Qed.

Lemma hip_activity_record_queues cfg self record s t n :
  device_op record →
  tid_data s !! correlation_id record = Some t →
  key_data s !! correlation_id record = Some n →
  get_use_timemory cfg = true →
  activity_callbacks
    (hip_activity_record hip_ops_string demangle cfg self record s).1
    = <[t := queue_of s t ++ [Some (activity_closure cfg record n)]]>
        (activity_callbacks s).
Proof.
  intros [Hdom Hop] Ht Hk Htim.
  unfold hip_activity_record.
  rewrite Hdom, bool_decide_eq_true_2 by done. simpl negb. cbn iota.
  destruct (Z.ltb_spec HIP_OP_ID_BARRIER (op record)) as [Hlt|_]; [lia|].
  unfold set_indexes, set_kernel_names, set_activity_callbacks.
  cbn [tid_data cid_data key_data _kernel_names activity_callbacks _indexes].
  rewrite Ht, Hk, Htim. cbn iota beta.
  destruct (get_use_critical_trace cfg || get_use_rocm_smi cfg);
    [destruct (cid_data s !! correlation_id record) as [[[a b] d]|]|];
    destruct (get_use_perfetto cfg); done.
Qed.

Lemma hip_activity_record_span cfg self record s t n :
  device_op record →
  tid_data s !! correlation_id record = Some t →
  key_data s !! correlation_id record = Some n →
  cache_consistent demangle s →
  device_spans (hip_activity_record hip_ops_string demangle cfg self record s).2
    = (if get_use_perfetto cfg then [(self, Some (demangle n))] else []).
Proof.
  intros [Hdom Hop] Ht Hk Hcache.
  unfold hip_activity_record.
  rewrite Hdom, bool_decide_eq_true_2 by done. simpl negb. cbn iota.
  destruct (Z.ltb_spec HIP_OP_ID_BARRIER (op record)) as [Hlt|_]; [lia|].
  unfold set_indexes, set_kernel_names, set_activity_callbacks.
  cbn [tid_data cid_data key_data _kernel_names activity_callbacks _indexes].
  rewrite Ht, Hk. cbn iota beta.
  assert (Hname : match _kernel_names s !! n with
                  | Some _ => _kernel_names s
                  | None => <[n:=demangle n]> (_kernel_names s)
                  end !! n = Some (demangle n)).
  { destruct (_kernel_names s !! n) as [v|] eqn:Ev.
    - by rewrite Ev, (Hcache n v Ev).
    - apply lookup_insert_eq. }
  destruct (get_use_critical_trace cfg || get_use_rocm_smi cfg);
    [destruct (cid_data s !! correlation_id record) as [[[a b] d]|]|];
    destruct (get_use_perfetto cfg); destruct (get_use_timemory cfg); simpl;
    rewrite ?Hname; done.
Qed.

Lemma single_record cfg self record s :
  tracing_enabled cfg = true →
  hip_activity_callback hip_ops_string demangle cfg self [record] s
  = hip_activity_record hip_ops_string demangle cfg self record s.
Proof.
  intros Hen. unfold hip_activity_callback. rewrite Hen. simpl.
  destruct (hip_activity_record _ _ _ _ _ _) as [s' es].
  by rewrite app_nil_r.
Qed.

(** X8: a device record whose correlation id was registered by a launch
    on thread [t] under the kernel name [n]: with the timemory sink on, the
    callback appends one closure, named [n] and stamped with the skewed
    begin and end, at the back of the queue of [t], the thread of the
    launch and not the thread that delivers the record; every other queue
    is unchanged; the perfetto span, if that sink is on, is named by the
    demangled [n] and drawn on the delivering thread. *)
Theorem hip_activity_callback_registered cfg self record s t n :
  tracing_enabled cfg = true →
  device_op record →
  tid_data s !! correlation_id record = Some t →
  key_data s !! correlation_id record = Some n →
  get_use_timemory cfg = true →
  cache_consistent demangle s →
  let r := hip_activity_callback hip_ops_string demangle cfg self
             [record] s in
  queue_of r.1 t = queue_of s t ++ [Some (activity_closure cfg record n)]
  ∧ (∀ t', t' ≠ t → queue_of r.1 t' = queue_of s t')
  ∧ device_spans r.2
    = (if get_use_perfetto cfg then [(self, Some (demangle n))] else []).
Proof.
  intros Hen Hdev Ht Hk Htim Hcache. cbv zeta.
  rewrite (single_record cfg self record s Hen).
  split; [|split].
  - unfold queue_of at 1.
    rewrite (hip_activity_record_queues cfg self record s t n) by done.
    by rewrite lookup_insert_eq.
  - intros t' Hne. unfold queue_of at 1.
    rewrite (hip_activity_record_queues cfg self record s t n) by done.
    by rewrite lookup_insert_ne.
  - by eapply hip_activity_record_span.
Qed.

(** X9: the duration carried by the closure that [hip_activity_callback]
    queues for a registered record (timemory on, [0 ≤ begin_ns ≤ end_ns <
    2^64]).  The closure at the back of the launching thread's queue has the
    registered name; the value [_end_ns - _beg_ns] it computes on
    [uint64_t] is [end_ns - begin_ns] of the record whatever the clock skew
    (both stamps are shifted by the same skew, which the subtraction
    cancels, also when a shifted stamp wrapped around); the double it hands
    to [store] is that difference rounded to a 53-bit significand, and the
    difference itself when it is below [2^53]. *)
Theorem activity_closure_duration cfg self record s t n :
  tracing_enabled cfg = true →
  device_op record →
  tid_data s !! correlation_id record = Some t →
  key_data s !! correlation_id record = Some n →
  get_use_timemory cfg = true →
  0 ≤ begin_ns record → begin_ns record ≤ end_ns record →
  end_ns record < 2 ^ 64 →
  let r := hip_activity_callback hip_ops_string demangle cfg self
             [record] s in
  ∃ cl, last (queue_of r.1 t) = Some (Some cl)
        ∧ closure_name cl = n
        ∧ closure_duration cl = end_ns record - begin_ns record
        ∧ closure_store cl
          = static_cast_double (end_ns record - begin_ns record)
        ∧ (end_ns record - begin_ns record < 2 ^ 53 →
           closure_store cl = end_ns record - begin_ns record).
Proof.
  intros Hen Hdev Ht Hk Htim H0 H1 H2. cbv zeta.
  rewrite (single_record cfg self record s Hen).
  exists (activity_closure cfg record n).
  assert (Hd : closure_duration (activity_closure cfg record n)
               = end_ns record - begin_ns record).
  { unfold closure_duration, activity_closure. simpl.
    rewrite wrap_u64_sub_shift. apply ClockSkewFacts.wrap_u64_small. lia. }
  split.
  { unfold queue_of at 1.
    rewrite (hip_activity_record_queues cfg self record s t n) by done.
    rewrite lookup_insert_eq. simpl. apply last_snoc. }
  split; [done|]. split; [exact Hd|].
  unfold closure_store. rewrite Hd. split; [done|].
  intros Hlt. apply static_cast_double_exact. lia.
Qed.

Lemma stop_keeps_queues c s t s' a :
  _stop c s t = Some (s', a) → activity_callbacks s' = activity_callbacks s.
Proof.
  unfold _stop. destruct (thread_hip_data s t !! c); [|done].
  by intros [= <- <-].
Qed.

Lemma stop_any_keeps_queues c s ts s' a :
  stop_any c s ts = Some (s', a) →
  activity_callbacks s' = activity_callbacks s.
Proof.
  induction ts as [|t ts IH]; simpl; [done|].
  destruct (_stop c s t) as [[s'' a']|] eqn:E; [|exact IH].
  intros [= <- <-]. by eapply stop_keeps_queues.
Qed.

(** X10: the three callbacks composed.  A kernel launch is entered on a
    thread, its completion record arrives on another thread, then the launch
    exits on the first thread: after the record the queue of the launching
    thread holds exactly the closure of the record and nothing was executed;
    the EXIT does not throw, starts with locking the queue, executing that
    closure and unlocking, executes no other closure, and leaves the queue
    empty. *)
Theorem launch_completion_runs_at_exit
    cfg amb1 amb3 worker cid d1 d3 record s0 name :
  traced hip_op_string hip_api_name cfg cid →
  hip_kernel_name hipKernelNameRefByPtr hipKernelNameRef cid (args d1)
    = Some name →
  get_use_timemory cfg = true →
  hip_phase d1 = ACTIVITY_API_PHASE_ENTER →
  hip_phase d3 = ACTIVITY_API_PHASE_EXIT →
  hip_correlation_id d3 = hip_correlation_id d1 →
  thread_id amb3 = thread_id amb1 →
  key_data s0 !! hip_correlation_id d1 = None →
  tid_data s0 !! hip_correlation_id d1 = None →
  device_op record →
  correlation_id record = hip_correlation_id d1 →
  let tid := thread_id amb1 in
  let cl := activity_closure cfg record name in
  let r1 := hip_api_callback hip_op_string hip_api_name
              hipKernelNameRefByPtr hipKernelNameRef cfg amb1 cid d1 s0 in
  let a := hip_activity_callback hip_ops_string demangle cfg worker
             [record] (final r1) in
  let r3 := hip_api_callback hip_op_string hip_api_name
              hipKernelNameRefByPtr hipKernelNameRef cfg amb3 cid d3 a.1 in
  queue_of a.1 tid = [Some cl]
  ∧ closures_run a.2 = []
  ∧ thrown r3 = None
  ∧ (∃ rest, emitted r3
             = [ (tid, mutex_lock tid); (tid, run_closure cl);
                 (tid, mutex_unlock tid) ] ++ rest
             ∧ closures_run rest = [])
  ∧ queue_of (final r3) tid = [].
Proof.
  intros (Hen & [op_name Hop] & Hsk) Hname Htim Hp1 Hp3 Hc Ht Hk Htd
         Hdev Hrc.
  cbv zeta. unfold hip_api_callback. rewrite Hen, Hop, Hsk, Hp1, Hp3. simpl.
  destruct (hip_api_enter_registers cfg amb1 cid op_name d1 s0 name Hname
              ltac:(rewrite Htim; by destruct (get_use_perfetto cfg))
              Hk Htd) as (K1 & T1 & C1 & Q1).
  set (s1 := final (hip_api_enter _ _ cfg amb1 cid op_name d1 s0)) in *.
  rewrite (single_record cfg worker record s1 Hen).
  pose proof (hip_activity_record_frame hip_ops_string demangle cfg worker
                record s1) as (_ & _ & C2 & _ & _ & _ & _ & R2 & _).
  pose proof (hip_activity_record_queues cfg worker record s1
                (thread_id amb1) name Hdev
                ltac:(by rewrite Hrc) ltac:(by rewrite Hrc) Htim) as Q2.
  destruct (hip_activity_record hip_ops_string demangle cfg worker record s1)
    as [s2 es2]. simpl in C2, R2, Q2 |- *.
  rewrite Q1 in Q2. simpl in Q2.
  assert (Hq2 : activity_callbacks s2 !! thread_id amb1
                = Some [Some (activity_closure cfg record name)])
    by (by rewrite Q2, lookup_insert_eq).
  split; [unfold queue_of; by rewrite Hq2|]. split; [exact R2|].
  assert (Hr3 : ∃ rest s',
            hip_api_exit cfg amb3 cid op_name d3 s2
            = returns s'
                ([ (thread_id amb1, mutex_lock (thread_id amb1));
                   (thread_id amb1,
                    run_closure (activity_closure cfg record name));
                   (thread_id amb1, mutex_unlock (thread_id amb1)) ] ++ rest)
            ∧ closures_run rest = []
            ∧ activity_callbacks s' !! thread_id amb1 = Some []).
  { unfold hip_api_exit, hip_exec_activity_callbacks.
    rewrite Ht, Hq2, Hc. cbn iota beta.
    unfold set_activity_callbacks. cbn [cid_data].
    rewrite C2. destruct C1 as [[[_cid _pcid] _depth] ->].
    rewrite Htim.
    match goal with
    | |- context [_stop ?c ?st ?t] =>
        pose proof (stop_keeps_queues c st t) as Hs1;
        destruct (_stop c st t) as [[s' act]|] eqn:Hstop;
        [ apply stop_result in Hstop as [b ->]
        | match goal with
          | |- context [stop_any ?c ?st ?l] =>
              pose proof (stop_any_keeps_queues c st l) as Hs2;
              destruct (stop_any c st l) as [[s' act]|] eqn:Hany;
              [ apply stop_any_result in Hany as [b ->] | ]
          end ]
    end.
    all: destruct (get_use_perfetto cfg),
           (get_use_critical_trace cfg || get_use_rocm_smi cfg); simpl.
    all: eexists _, _; split; [reflexivity|]; split; [reflexivity|].
    all: first [ rewrite (Hs1 _ _ eq_refl) | rewrite (Hs2 _ _ eq_refl)
               | idtac ].
    all: simpl; apply lookup_insert_eq. }
  destruct Hr3 as (rest & s' & -> & Hrest & Hq3). simpl.
  split; [done|]. split; [eauto|].
  unfold queue_of. by rewrite Hq3.
Qed.

End correlation.

Section more_hip.
Variable hip_op_string : hip_api_id → option string.
Variable hip_api_name : hip_api_id → option string.
Variable hipKernelNameRefByPtr : Z → Z → option string.
Variable hipKernelNameRef : Z → option string.

(** X5: the EXIT of a call whose correlation id is not in [cid_data] (its
    ENTER was not seen): [cid_data.at] throws [std::out_of_range] out of
    the callback, after the queue of the thread was drained; nothing but
    the drain happened and no host END is emitted for any sink. *)
Theorem hip_api_callback_exit_unregistered cfg amb cid data s :
  traced hip_op_string hip_api_name cfg cid →
  hip_phase data = ACTIVITY_API_PHASE_EXIT →
  cid_data s !! hip_correlation_id data = None →
  let r := hip_api_callback hip_op_string hip_api_name
             hipKernelNameRefByPtr hipKernelNameRef cfg amb cid data s in
  let drain := hip_exec_activity_callbacks (thread_id amb) (thread_id amb) s in
  thrown r = Some "std::out_of_range"
  ∧ final r = drain.1 ∧ emitted r = drain.2
  ∧ ∀ k, count_events (host_end k (hip_correlation_id data)) (emitted r)
         = 0%nat.
Proof.
  intros (Hen & [op_name Hop] & Hsk) Hp Hc. cbv zeta.
  unfold hip_api_callback. rewrite Hen, Hop, Hsk, Hp. simpl.
  unfold hip_api_exit.
  pose proof (drain_registry (thread_id amb) (thread_id amb) s) as (Hr & _).
  pose proof (λ k, drain_count_end (thread_id amb) (thread_id amb) s k
                     (hip_correlation_id data)) as Hde.
  destruct (hip_exec_activity_callbacks _ _ s) as [s1 dr].
  simpl in *. rewrite Hr, Hc. simpl. done.
Qed.

Lemma stop_keeps_registry c s t s' a :
  _stop c s t = Some (s', a) →
  key_data s' = key_data s ∧ tid_data s' = tid_data s
  ∧ cid_data s' = cid_data s.
Proof.
  unfold _stop. destruct (thread_hip_data s t !! c); [|done].
  by intros [= <- <-].
Qed.

Lemma stop_any_keeps_registry c s ts s' a :
  stop_any c s ts = Some (s', a) →
  key_data s' = key_data s ∧ tid_data s' = tid_data s
  ∧ cid_data s' = cid_data s.
Proof.
  induction ts as [|t ts IH]; simpl; [done|].
  destruct (_stop c s t) as [[s'' a']|] eqn:E; [|exact IH].
  intros [= <- <-]. by eapply stop_keeps_registry.
Qed.

Lemma hip_api_enter_grows cfg amb cid op_name data s :
  registry_grows s
    (final (hip_api_enter hipKernelNameRefByPtr hipKernelNameRef
              cfg amb cid op_name data s)).
Proof.
  unfold hip_api_enter.
  destruct (cpu_cid_entry amb) as [[_cid _pcid] _depth].
  set (s1 := match hip_kernel_name _ _ _ _ with Some _ => _ | None => s end).
  assert (H1 : registry_grows s s1 ∧ cid_data s1 = cid_data s).
  { subst s1. unfold registry_grows.
    destruct (hip_kernel_name _ _ _ _); [|done].
    destruct (_ || _); [|done]. simpl.
    repeat split; try done; apply emplace_keeps. }
  destruct H1 as [(K1 & T1 & C1) E1]. clearbody s1.
  destruct (get_use_timemory cfg);
    [destruct (thread_hip_data s1 (thread_id amb) !! hip_correlation_id data)|].
  all: match goal with
       | |- context [hip_exec_activity_callbacks ?a ?b ?st] =>
           pose proof (drain_registry a b st) as (Hc' & _ & Hk' & Ht');
           destruct (hip_exec_activity_callbacks a b st) as [s3 dr]
       end.
  all: simpl in *; unfold registry_grows; rewrite Hk', Ht', Hc'.
  all: repeat split; try done.
  all: etrans; [exact C1|]; apply emplace_keeps.
Qed.

Lemma hip_api_exit_grows cfg amb cid op_name data s :
  registry_grows s (final (hip_api_exit cfg amb cid op_name data s)).
Proof.
  unfold hip_api_exit.
  pose proof (drain_registry (thread_id amb) (thread_id amb) s)
    as (Hc & _ & Hk & Ht).
  destruct (hip_exec_activity_callbacks _ _ s) as [s1 dr]. simpl in *.
  assert (H1 : registry_grows s s1)
    by (unfold registry_grows; by rewrite Hk, Ht, Hc).
  destruct (cid_data s1 !! _) as [[[_cid _pcid] _depth]|]; [|exact H1].
  destruct (get_use_timemory cfg); [|exact H1].
  destruct (_stop _ s1 _) as [[s' a]|] eqn:Hstop.
  - apply stop_keeps_registry in Hstop as (K & T & C).
    simpl. unfold registry_grows. by rewrite K, T, C, Hk, Ht, Hc.
  - destruct (stop_any _ s1 _) as [[s' a]|] eqn:Hany; [|exact H1].
    apply stop_any_keeps_registry in Hany as (K & T & C).
    simpl. unfold registry_grows. by rewrite K, T, C, Hk, Ht, Hc.
Qed.

(** X4: [hip_api_callback] never removes or overwrites an entry of the
    correlation registry: every entry of [key_data], [tid_data] and
    [cid_data] is still there, with the same value, after any call, in
    either phase and also when the call throws. *)
Theorem hip_api_callback_keeps_registry cfg amb cid data s :
  let r := hip_api_callback hip_op_string hip_api_name
             hipKernelNameRefByPtr hipKernelNameRef cfg amb cid data s in
  key_data s ⊆ key_data (final r) ∧ tid_data s ⊆ tid_data (final r)
  ∧ cid_data s ⊆ cid_data (final r).
Proof.
  cbv zeta. unfold hip_api_callback.
  destruct (negb (tracing_enabled cfg)); [done|].
  destruct (hip_op_name _ _ cid) as [op_name|]; [|done].
  destruct (hip_skipped cfg cid); [done|].
  destruct (hip_phase data); [apply hip_api_enter_grows
                             |apply hip_api_exit_grows|done].
Qed.
End more_hip.

Section more_activity.
Variable hip_ops_string : Z → Z → option string.
Variable demangle : string → string.

Lemma hip_activity_record_indexes cfg self record s :
  _indexes (hip_activity_record hip_ops_string demangle cfg self record s).1
  = if is_device_op record
    then <[correlation_id record :=
             default 0 (_indexes s !! correlation_id record) + 1]> (_indexes s)
    else _indexes s.
Proof.
  unfold hip_activity_record, is_device_op.
  destruct (bool_decide (domain record = ACTIVITY_DOMAIN_HIP_OPS));
    simpl; [|done].
  destruct (HIP_OP_ID_BARRIER <? op record); simpl; [done|].
  repeat case_match; simplify_eq; done.
Qed.

Lemma hip_activity_records_count cfg self buffer s c :
  default 0 (_indexes (hip_activity_records hip_ops_string demangle cfg self
                         buffer s).1 !! c)
  = default 0 (_indexes s !! c) + Z.of_nat (records_of c buffer).
Proof.
  revert s. induction buffer as [|record rest IH]; intros s.
  - simpl. unfold records_of. simpl. lia.
  - simpl.
    pose proof (hip_activity_record_indexes cfg self record s) as H1.
    destruct (hip_activity_record _ _ cfg self record s) as [s1 es1].
    specialize (IH s1).
    destruct (hip_activity_records _ _ cfg self rest s1) as [s2 es2].
    simpl in *. rewrite IH, H1. unfold records_of. simpl.
    destruct (is_device_op record); simpl.
    + destruct (decide (correlation_id record = c)) as [->|Hne].
      * rewrite lookup_insert_eq, bool_decide_eq_true_2 by done. simpl. lia.
      * rewrite lookup_insert_ne, bool_decide_eq_false_2 by done. simpl. lia.
    + lia.
Qed.

(** X11: the per-correlation-id counter [_indexes] counts the records: over
    a buffer it grows, for every id, by the number of records of the buffer
    that pass the two guards and carry that id (as long as the [int] does
    not overflow), whether the id is registered or not and whatever sinks
    are on. *)
Theorem hip_activity_callback_counts cfg self buffer s c :
  tracing_enabled cfg = true →
  default 0 (_indexes s !! c) + Z.of_nat (records_of c buffer) < 2 ^ 31 →
  default 0 (_indexes (hip_activity_callback hip_ops_string demangle cfg self
                         buffer s).1 !! c)
  = default 0 (_indexes s !! c) + Z.of_nat (records_of c buffer).
Proof.
  intros Hen _. unfold hip_activity_callback. rewrite Hen. simpl.
  apply hip_activity_records_count.
Qed.

(** X12: a buffer whose records all fail a guard (another domain than the
    HIP ops, or an op above [HIP_OP_ID_BARRIER]) changes nothing and emits
    nothing. *)
Theorem hip_activity_callback_skips_foreign cfg self buffer s :
  Forall (λ r, is_device_op r = false) buffer →
  hip_activity_callback hip_ops_string demangle cfg self buffer s = (s, []).
Proof.
  intros H. unfold hip_activity_callback.
  destruct (negb (tracing_enabled cfg)); [done|].
  revert s. induction H as [|record rest Hr _ IH]; intros s; [done|].
  simpl.
  assert (E : hip_activity_record hip_ops_string demangle cfg self record s
              = (s, [])).
  { unfold hip_activity_record. unfold is_device_op in Hr.
    destruct (bool_decide (domain record = ACTIVITY_DOMAIN_HIP_OPS));
      simpl in *; [|done].
    by destruct (HIP_OP_ID_BARRIER <? op record). }
  by rewrite E, IH.
Qed.
End more_activity.

Section more_hsa.
Variable hsa_op_string : hsa_api_id → option string.

Lemma hsa_api_callback_other_thread cfg amb cid data s t :
  thread_id amb ≠ t →
  begin_timestamp (final (hsa_api_callback hsa_op_string cfg amb cid data s))
    !! t = begin_timestamp s !! t.
Proof.
  intros Hne. unfold hsa_api_callback.
  destruct (negb (tracing_enabled cfg)); [done|].
  destruct (hsa_skipped cid); [done|].
  destruct (hsa_phase data); simpl.
  - by rewrite lookup_insert_ne.
  - by destruct (_ <? _).
  - by destruct (_ <? _).
Qed.

(** X2: begin timestamps are per thread.  An ENTER on one thread, any
    HSA callback on another thread, then the EXIT on the first thread with a
    clock that did not go back (reads in [0, 2^63)): the EXIT emits the span
    from the ENTER's timestamp to its own and, with timemory and a task
    pool, the sample [static_cast<double>] of their difference, which is
    the difference itself when that is below [2^53]; it changes no state. *)
Theorem hsa_api_callback_pair_span
    cfg amb1 amb2 amb3 cid cid2 d1 d2 d3 s :
  tracing_enabled cfg = true → hsa_skipped cid = false →
  hsa_phase d1 = ACTIVITY_API_PHASE_ENTER →
  hsa_phase d3 = ACTIVITY_API_PHASE_EXIT →
  thread_id amb3 = thread_id amb1 →
  thread_id amb2 ≠ thread_id amb1 →
  0 ≤ wall_clock_record amb1 →
  wall_clock_record amb1 ≤ wall_clock_record amb3 →
  wall_clock_record amb3 < 2 ^ 63 →
  let s1 := final (hsa_api_callback hsa_op_string cfg amb1 cid d1 s) in
  let s2 := final (hsa_api_callback hsa_op_string cfg amb2 cid2 d2 s1) in
  let r3 := hsa_api_callback hsa_op_string cfg amb3 cid d3 s2 in
  emitted r3
  = (if get_use_perfetto cfg then
       [ (thread_id amb1,
          TRACE_EVENT_BEGIN "device" (hsa_op_string cid)
            (wall_clock_record amb1) None []);
         (thread_id amb1,
          TRACE_EVENT_END "device" (wall_clock_record amb3)) ]
     else [])
    ++ (if get_use_timemory cfg && task_group_pool cfg then
          [ (thread_id amb1,
             task_group_exec (hsa_op_string cid)
               (static_cast_double
                  (wall_clock_record amb3 - wall_clock_record amb1))) ]
        else [])
  ∧ final r3 = s2
  ∧ (wall_clock_record amb3 - wall_clock_record amb1 < 2 ^ 53 →
     static_cast_double (wall_clock_record amb3 - wall_clock_record amb1)
     = wall_clock_record amb3 - wall_clock_record amb1).
Proof.
  intros Hen Hsk Hp1 Hp3 Ht Hne H0 Hle Hmax. cbv zeta.
  pose proof (hsa_api_callback_other_thread cfg amb2 cid2 d2
                (final (hsa_api_callback hsa_op_string cfg amb1 cid d1 s))
                (thread_id amb1) Hne) as Hb.
  rewrite (hsa_api_callback_enter hsa_op_string cfg amb1 cid d1 s Hen Hsk Hp1)
    in Hb |- *.
  simpl in Hb. rewrite lookup_insert_eq in Hb.
  set (s2 := final (hsa_api_callback hsa_op_string cfg amb2 cid2 d2 _)) in *.
  clearbody s2.
  unfold hsa_api_callback. rewrite Hen, Hsk, Hp3, Ht, Hb. simpl.
  destruct cid; try discriminate Hsk.
  rewrite decide_False by discriminate.
  destruct (Z.ltb_spec (wall_clock_record amb3) (wall_clock_record amb1));
    [lia|].
  rewrite !ClockSkewFacts.wrap_u64_small by lia.
  rewrite ClockSkewFacts.wrap_i64_small by lia.
  split; [done|]. split; [done|].
  intros Hlt. apply static_cast_double_exact. lia.
Qed.
End more_hsa.

(** X3: [hsa_activity_callback] on one of the three known ops, with a task
    pool and [0 ≤ begin_ns ≤ end_ns < 2^64]: a perfetto span under the
    static name of the op at the skewed stamps, and a timemory sample of
    [static_cast<double>(end_ns - begin_ns)]: the skew cancels in the
    [uint64_t] subtraction, and the sample is the difference itself when
    that is below [2^53]. *)
Theorem hsa_activity_callback_sample cfg worker op record n :
  tracing_enabled cfg = true → task_group_pool cfg = true →
  hsa_op_name op = Some n →
  0 ≤ activity_begin_ns record →
  activity_begin_ns record ≤ activity_end_ns record →
  activity_end_ns record < 2 ^ 64 →
  hsa_activity_callback cfg worker op record
  = (if get_use_perfetto cfg then
       [ (worker, TRACE_EVENT_BEGIN "device" (Some n)
                    (ClockSkew.wrap_u64
                       (activity_begin_ns record + clock_skew cfg)) None []);
         (worker, TRACE_EVENT_END "device"
                    (ClockSkew.wrap_u64
                       (activity_end_ns record + clock_skew cfg))) ]
     else [])
    ++ (if get_use_timemory cfg then
          [ (worker, task_group_exec (Some n)
                       (static_cast_double
                          (activity_end_ns record
                           - activity_begin_ns record))) ]
        else [])
  ∧ (activity_end_ns record - activity_begin_ns record < 2 ^ 53 →
     static_cast_double (activity_end_ns record - activity_begin_ns record)
     = activity_end_ns record - activity_begin_ns record).
Proof.
  intros Hen Hpool Hn H0 H1 H2. unfold hsa_activity_callback.
  rewrite Hen, Hn, Hpool. simpl.
  rewrite wrap_u64_sub_shift.
  rewrite (ClockSkewFacts.wrap_u64_small
             (activity_end_ns record - activity_begin_ns record))
    by lia.
  split; [done|]. intros Hlt. apply static_cast_double_exact. lia.
Qed.

(** *** The further properties at the sample inputs *)

(** The launch with correlation id 43 and its record of 2000 ns. *)
Lemma activity_closure_duration_witness :
  let s := final (launch_callback (on_thread 1 1000)
                    HIP_API_ID_hipLaunchKernel launch_enter initial_state) in
  ∃ cl, last (queue_of (hip_activity_callback generic_op_string id
                          timemory_only 9 [completed_kernel] s).1 1)
        = Some (Some cl)
        ∧ closure_store cl = 2000.
Proof.
  cbv zeta.
  destruct (activity_closure_duration generic_op_string id timemory_only 9
              completed_kernel
              (final (launch_callback (on_thread 1 1000)
                        HIP_API_ID_hipLaunchKernel launch_enter
                        initial_state))
              1 "_Z3fooPi") as (cl & Hq & _ & _ & Hs & _).
  - reflexivity.
  - split; [reflexivity | vm_compute; discriminate].
  - reflexivity.
  - reflexivity.
  - reflexivity.
  - simpl. lia.
  - simpl. lia.
  - simpl. lia.
  - exists cl. split; [exact Hq|]. rewrite Hs. reflexivity.
Defined.

(** The empty cache stays consistent over the copy record. *)
Lemma hip_activity_callback_keeps_cache_witness :
  cache_consistent id
    (hip_activity_callback generic_op_string id perfetto_only 9
       [unknown_copy] initial_state).1.
Proof.
  apply (hip_activity_callback_keeps_cache generic_op_string id
           perfetto_only 9 [unknown_copy] initial_state).
  intros n v Hv. discriminate Hv.
Defined.

(** The launch with correlation id 43 is entered on thread 1; its record
    is delivered on thread 9 and queued for thread 1. *)
Lemma hip_activity_callback_registered_witness :
  let s := final (launch_callback (on_thread 1 1000)
                    HIP_API_ID_hipLaunchKernel launch_enter initial_state) in
  queue_of (hip_activity_callback generic_op_string id timemory_only 9
              [completed_kernel] s).1 1
  = [Some (activity_closure timemory_only completed_kernel "_Z3fooPi")].
Proof.
  cbv zeta.
  destruct (hip_activity_callback_registered generic_op_string id
              timemory_only 9 completed_kernel
              (final (launch_callback (on_thread 1 1000)
                        HIP_API_ID_hipLaunchKernel launch_enter
                        initial_state))
              1 "_Z3fooPi") as (H & _).
  - reflexivity.
  - split; [reflexivity | vm_compute; discriminate].
  - reflexivity.
  - reflexivity.
  - reflexivity.
  - intros n v Hv. discriminate Hv.
  - rewrite H. reflexivity.
Defined.

(** The same launch, its record, and its EXIT at 9000 ns. *)
Lemma launch_completion_runs_at_exit_witness :
  let r1 := launch_callback (on_thread 1 1000) HIP_API_ID_hipLaunchKernel
              launch_enter initial_state in
  let a := hip_activity_callback generic_op_string id timemory_only 9
             [completed_kernel] (final r1) in
  let r3 := launch_callback (on_thread 1 9000) HIP_API_ID_hipLaunchKernel
              launch_exit a.1 in
  thrown r3 = None ∧ queue_of (final r3) 1 = [].
Proof.
  cbv zeta.
  destruct (launch_completion_runs_at_exit demo_hip_names (λ _, None)
              demo_kernel_name (λ _, None) generic_op_string id
              timemory_only (on_thread 1 1000) (on_thread 1 9000) 9
              HIP_API_ID_hipLaunchKernel launch_enter launch_exit
              completed_kernel initial_state "_Z3fooPi")
    as (_ & _ & H3 & _ & H5).
  - split; [reflexivity|]. split; [eexists; reflexivity | reflexivity].
  - reflexivity.
  - reflexivity.
  - reflexivity.
  - reflexivity.
  - reflexivity.
  - reflexivity.
  - reflexivity.
  - reflexivity.
  - split; [reflexivity | vm_compute; discriminate].
  - reflexivity.
  - split; [exact H3 | exact H5].
Defined.

(** The EXIT of the copy of the samples, without its ENTER. *)
Lemma hip_api_callback_exit_unregistered_witness :
  thrown (demo_callback (on_thread 1 1500) HIP_API_ID_hipMemcpyAsync
            memcpy_exit initial_state)
  = Some "std::out_of_range".
Proof.
  destruct (hip_api_callback_exit_unregistered demo_hip_names (λ _, None)
              (λ _ _, None) (λ _, None) perfetto_only (on_thread 1 1500)
              HIP_API_ID_hipMemcpyAsync memcpy_exit initial_state)
    as (H & _).
  - split; [reflexivity|]. split; [eexists; reflexivity | reflexivity].
  - reflexivity.
  - reflexivity.
  - exact H.
Defined.

(** Two records of the copy with the id 999 and a foreign record. *)
Lemma hip_activity_callback_counts_witness :
  default 0
    (_indexes (hip_activity_callback generic_op_string id perfetto_only 9
                 [unknown_copy; foreign_record; unknown_copy]
                 initial_state).1 !! 999)
  = 2.
Proof.
  apply (hip_activity_callback_counts generic_op_string id perfetto_only 9
           [unknown_copy; foreign_record; unknown_copy] initial_state 999).
  - reflexivity.
  - vm_compute. reflexivity.
Defined.

Lemma hip_activity_callback_skips_foreign_witness :
  hip_activity_callback generic_op_string id perfetto_only 9
    [foreign_record; foreign_record] initial_state
  = (initial_state, []).
Proof.
  apply (hip_activity_callback_skips_foreign generic_op_string id
           perfetto_only 9 [foreign_record; foreign_record] initial_state).
  repeat constructor.
Defined.

(** [hsa_queue_create] (id 17 here) entered on thread 1 at 1000 ns, another
    call entered on thread 2 at 1200 ns, the first left at 1500 ns. *)
Lemma hsa_api_callback_pair_span_witness :
  let s1 := final (hsa_api_callback (λ _, Some "hsa_queue_create")
                     perfetto_only (on_thread 1 1000) (HSA_API_ID_other 17)
                     hsa_enter initial_state) in
  let s2 := final (hsa_api_callback (λ _, Some "hsa_queue_create")
                     perfetto_only (on_thread 2 1200) (HSA_API_ID_other 17)
                     hsa_enter s1) in
  emitted (hsa_api_callback (λ _, Some "hsa_queue_create") perfetto_only
             (on_thread 1 1500) (HSA_API_ID_other 17) hsa_exit s2)
  = [ (1, TRACE_EVENT_BEGIN "device" (Some "hsa_queue_create") 1000 None []);
      (1, TRACE_EVENT_END "device" 1500) ].
Proof.
  cbv zeta.
  destruct (hsa_api_callback_pair_span (λ _, Some "hsa_queue_create")
              perfetto_only (on_thread 1 1000) (on_thread 2 1200)
              (on_thread 1 1500) (HSA_API_ID_other 17) (HSA_API_ID_other 17)
              hsa_enter hsa_enter hsa_exit initial_state) as [H _].
  - reflexivity.
  - reflexivity.
  - reflexivity.
  - reflexivity.
  - reflexivity.
  - simpl. lia.
  - simpl. lia.
  - simpl. lia.
  - simpl. lia.
  - rewrite H. reflexivity.
Defined.

(** A copy of 1000 ns reported to the timemory sink by worker 3. *)
Lemma hsa_activity_callback_sample_witness :
  hsa_activity_callback timemory_only 3 HSA_OP_ID_COPY
    {| activity_begin_ns := 1000; activity_end_ns := 2000 |}
  = [ (3, task_group_exec (Some "hsa_async_copy") 1000) ].
Proof.
  destruct (hsa_activity_callback_sample timemory_only 3 HSA_OP_ID_COPY
              {| activity_begin_ns := 1000; activity_end_ns := 2000 |}
              "hsa_async_copy") as [H _].
  - reflexivity.
  - reflexivity.
  - reflexivity.
  - simpl. lia.
  - simpl. lia.
  - simpl. lia.
  - rewrite H. reflexivity.
Defined.

End RoctracerFacts.

Module LifecycleFacts.
Import Roctracer Lifecycle.

(** C5, the claim as stated fails: with [OMNITRACE_INIT_TOOLING] false,
    [OnLoad] registers nothing and returns true, not false. *)
Lemma OnLoad_stands_down_with_true :
  OnLoad (λ _, false) false trace_everything fresh_process
    = (true, fresh_process)
  ∧ ¬ stands_down_with_false (λ _, false) false trace_everything
        fresh_process.
Proof.
  split; [reflexivity|].
  unfold stands_down_with_false. intros [_ H].
  specialize (H eq_refl). discriminate H.
Qed.

(** C5, amended: [OnLoad] returns true on every path; when
    [OMNITRACE_INIT_TOOLING] is false it returns true as well and leaves the
    state as it is (no registration); when the flag is true it registers the
    setup and the shutdown closure under the name "hsa". *)
Theorem OnLoad_returns_true (throws : registration → bool) (flag : bool)
    (cfg : hsa_settings) (s : load_state) :
  (OnLoad throws flag cfg s).1 = true
  ∧ OnLoad throws false cfg s = (true, s)
  ∧ ("hsa", _setup) ∈ roctracer_setup_routines (OnLoad throws true cfg s).2
  ∧ ("hsa", _shutdown) ∈ roctracer_shutdown_routines (OnLoad throws true cfg s).2.
Proof.
  split; [by destruct flag|]. split; [reflexivity|].
  split; simpl; set_solver.
Qed.

(** A load with the flag set, in a fresh process that traces the HSA API and
    the HSA activity: the calls made to the runtime. *)
Example OnLoad_registers :
  registered (OnLoad (λ _, false) true trace_everything fresh_process).2
  = [ roctracer_set_properties ACTIVITY_DOMAIN_HSA_API;
      roctracer_enable_domain_callback ACTIVITY_DOMAIN_HSA_API;
      roctracer_set_properties ACTIVITY_DOMAIN_HSA_OPS;
      roctracer_enable_op_activity ACTIVITY_DOMAIN_HSA_OPS "HSA_OP_ID_COPY" ].
Proof. reflexivity. Qed.

(** *** Failures during the setup *)

(** The calls made by [_setup] up to the first failure. *)
Lemma roctracer_calls_prefix throws calls :
  roctracer_calls throws calls `prefix_of` calls
  ∧ Forall (λ c, in_ROCTRACER_CALL c && throws c = false)
      (removelast (roctracer_calls throws calls))
  ∧ (roctracer_calls throws calls ≠ calls →
     ∃ c, last (roctracer_calls throws calls) = Some c
          ∧ in_ROCTRACER_CALL c = true ∧ throws c = true).
Proof.
  induction calls as [|c rest (IH1 & IH2 & IH3)]; simpl.
  - split; [done|]. split; [constructor|done].
  - destruct (in_ROCTRACER_CALL c && throws c) eqn:E.
    + split; [by apply prefix_cons, prefix_nil|].
      split; [constructor|]. intros _. exists c.
      apply andb_true_iff in E as [E1 E2]. done.
    + split; [by apply prefix_cons|]. split.
      * destruct (roctracer_calls throws rest) as [|d l] eqn:El.
        -- constructor.
        -- constructor; [done|]. exact IH2.
      * intros Hne. destruct IH3 as (d & Hl & Hd); [congruence|].
        exists d. split; [|done].
        destruct (roctracer_calls throws rest); [done|]. exact Hl.
Qed.

(** When no call inside [ROCTRACER_CALL] throws, every call is made. *)
Lemma roctracer_calls_all throws calls :
  (∀ c, in_ROCTRACER_CALL c = true → throws c = false) →
  roctracer_calls throws calls = calls.
Proof.
  intros H. induction calls as [|c rest IH]; simpl; [done|].
  destruct (in_ROCTRACER_CALL c) eqn:E; simpl; [|by rewrite IH].
  rewrite (H c E). by rewrite IH.
Qed.

(** X28: a failure inside the setup closure is absorbed.  On the first
    load with [OMNITRACE_INIT_TOOLING] set, [OnLoad] returns true and
    restores the sampling switch, whether a call into the runtime throws or
    not; the calls made are a prefix of the calls the settings ask for,
    none of them but the last threw, and when calls are missing the last
    one made is a call inside [ROCTRACER_CALL] that threw: after a failure
    while enabling the API callbacks, the HSA activity tracing is never
    enabled.  [roctracer_set_properties], called outside the macro, never
    ends the setup: when no call inside the macro throws, all the calls
    are made. *)
Theorem OnLoad_absorbs_setup_failure (throws : registration → bool)
    (cfg : hsa_settings) (s : load_state) :
  roctracer_setup_routines s = [] →
  let r := OnLoad throws true cfg s in
  let made := roctracer_calls throws (setup_calls cfg) in
  r.1 = true
  ∧ sampling_on_child_threads r.2 = sampling_on_child_threads s
  ∧ registered r.2 = registered s ++ made
  ∧ made `prefix_of` setup_calls cfg
  ∧ Forall (λ c, in_ROCTRACER_CALL c && throws c = false) (removelast made)
  ∧ (made ≠ setup_calls cfg →
     ∃ c, last made = Some c ∧ in_ROCTRACER_CALL c = true ∧ throws c = true)
  ∧ ((∀ c, in_ROCTRACER_CALL c = true → throws c = false) →
     made = setup_calls cfg).
Proof.
  intros Hs. cbv zeta.
  destruct (roctracer_calls_prefix throws (setup_calls cfg)) as (H1 & H2 & H3).
  repeat split; try done.
  - simpl. rewrite Hs. simpl. by rewrite app_nil_r.
  - apply roctracer_calls_all.
Qed.

(** Enabling the callback of [hsa_init] fails: [hsa_shut_down] and the
    activity tracing are never enabled. *)
Lemma OnLoad_absorbs_setup_failure_witness :
  registered (OnLoad (fails_on "hsa_init") true trace_two_apis fresh_process).2
  = [ roctracer_set_properties ACTIVITY_DOMAIN_HSA_API;
      roctracer_op_code ACTIVITY_DOMAIN_HSA_API "hsa_init";
      roctracer_enable_op_callback ACTIVITY_DOMAIN_HSA_API "hsa_init" ].
Proof.
  destruct (OnLoad_absorbs_setup_failure (fails_on "hsa_init") trace_two_apis
              fresh_process eq_refl) as (_ & _ & H & _).
  rewrite H. reflexivity.
Defined.

(** Every call fails: the setup still goes past [roctracer_set_properties]
    and ends at the first call inside [ROCTRACER_CALL]. *)
Example OnLoad_set_properties_is_unchecked :
  registered (OnLoad fails_always true trace_everything fresh_process).2
  = [ roctracer_set_properties ACTIVITY_DOMAIN_HSA_API;
      roctracer_enable_domain_callback ACTIVITY_DOMAIN_HSA_API ].
Proof. reflexivity. Qed.

End LifecycleFacts.

Module PyModuleFacts.
Import PyModule.

Lemma initialize_marks (imp : import_result) (a : argument) (s : module_state) :
  _is_initialized (state_after (initialize imp a s)) = true.
Proof.
  destruct a as [v|v]; simpl.
  - unfold initialize_string. destruct (_is_initialized s) eqn:E; [done|].
    by destruct imp.
  - unfold initialize_list. destruct (_is_initialized s) eqn:E; [done|].
    destruct imp; simpl; try done.
    all: destruct (collect v "" "") as [[c l]|]; [|done].
    all: destruct (empty l); [done|].
    all: by destruct (substr l _).
Qed.

Lemma initialize_again (imp : import_result) (a : argument) (s : module_state) :
  _is_initialized s = true →
  initialize imp a s = throw already_initialized s.
Proof.
  intros H. destruct a; simpl; unfold initialize_string, initialize_list;
    by rewrite H.
Qed.

Lemma substr_find_first x n :
  find_first_not_of_space x = Some n → is_Some (substr x (Some n)).
Proof.
  revert n. induction x as [|c x IH]; intros n; simpl; [done|].
  destruct (Ascii.eqb c " ").
  - destruct (find_first_not_of_space x) as [m|] eqn:E; [|done].
    intros [= <-]. specialize (IH m eq_refl).
    unfold substr in *. simpl.
    destruct (m <=? String.length x)%nat eqn:L; [eauto|].
    by destruct IH.
  - intros [= <-]. unfold substr. simpl. eauto.
Qed.

(** C6, amended: of two consecutive calls of [initialize] (each on a [str]
    or on a list), the second raises "already initialized" and changes
    nothing, so whatever the first call established stays in effect; a call
    on a module that is not initialized yet, whose argument is not a list of
    empty or blank elements, raises exactly when the import of [mpi4py]
    fails with an exception other than [ImportError] or, for a list, when
    an element is not a [str]; when it does not raise it establishes a
    "trace" session. *)
Theorem initialize_twice (imp1 imp2 : import_result) (a1 a2 : argument)
    (s : module_state) :
  let r1 := initialize imp1 a1 s in
  let r2 := initialize imp2 a2 (state_after r1) in
  raised r2 = Some already_initialized
  ∧ state_after r2 = state_after r1
  ∧ (_is_initialized s = false → ¬ blank_argv a1 →
     (raised r1 ≠ None ↔ raises_when_fresh imp1 a1)
     ∧ (raised r1 = None →
        ∃ cmd, current_session (state_after r1)
               = Some {| session_mode := "trace"; is_binary_rewrite := false;
                         session_cmd := cmd |})).
Proof.
  cbv zeta.
  rewrite (initialize_again imp2 a2 _ (initialize_marks imp1 a1 s)).
  split; [done|]. split; [done|].
  intros Hfresh Hnb. unfold raises_when_fresh.
  destruct a1 as [v|v]; simpl; unfold initialize_string, initialize_list;
    rewrite Hfresh.
  - destruct imp1; simpl.
    + split; [|eauto]. split; [done|]. intros [[exc [=]]|[]].
    + split; [|eauto]. split; [done|]. intros [[exc [=]]|[]].
    + split; [|done]. split; [eauto|done].
  - simpl in Hnb.
    destruct imp1; simpl.
    3: { split; [|done]. split; [eauto|done]. }
    all: destruct (collect v "" "") as [[c l]|]; simpl.
    all: try (split; [|done]; split; [eauto|done]).
    all: unfold empty; case_bool_decide as Hl; simpl.
    all: try (split; [|eauto]; split; [done|];
              intros [[exc [=]]|[=]]).
    all: destruct (find_first_not_of_space l) as [n|] eqn:Hf;
           [|by destruct Hnb].
    all: destruct (substr_find_first l n Hf) as [x ->]; simpl;
           split; [|eauto]; split; [done|]; intros [[exc [=]]|[=]].
Qed.

(** C6, the claim as stated fails: a first call [initialize("python")] on
    a module that is not initialized raises when importing [mpi4py] fails
    with a [RuntimeError], which [_get_use_mpi] rethrows. *)
Lemma initialize_rethrows_import_failure :
  raised (initialize (import_raises "RuntimeError") (arg_str "python")
            just_imported)
    = Some (error_already_set "RuntimeError")
  ∧ ¬ never_raises_when_fresh (import_raises "RuntimeError")
        (arg_str "python") just_imported.
Proof.
  split; [reflexivity|].
  unfold never_raises_when_fresh. intros H. specialize (H eq_refl).
  discriminate H.
Qed.

(** A list of blank elements is outside the amended statement: the call
    raises from [substr] past the end of the command line. *)
Example initialize_blank_argv :
  raised (initialize import_ImportError (arg_list [py_str ""]) just_imported)
    = Some out_of_range.
Proof. reflexivity. Qed.

(** [initialize(["python", "script.py"])] followed by [initialize("other")]. *)
Lemma initialize_twice_witness :
  let r1 := initialize import_ImportError
              (arg_list [py_str "python"; py_str "script.py"]) just_imported in
  let r2 := initialize import_ok (arg_str "other") (state_after r1) in
  raised r1 = None
  ∧ raised r2 = Some already_initialized
  ∧ current_session (state_after r2)
    = Some {| session_mode := "trace"; is_binary_rewrite := false;
              session_cmd := "python" |}.
Proof.
  cbv zeta.
  destruct (initialize_twice import_ImportError import_ok
              (arg_list [py_str "python"; py_str "script.py"])
              (arg_str "other") just_imported) as (H1 & H2 & H3).
  destruct (H3 eq_refl) as [_ H4].
  { simpl. intros [_ [=]]. }
  split; [reflexivity|]. split; [exact H1|].
  rewrite H2. reflexivity.
Defined.

Lemma append_assoc (a b c : string) : (a +:+ b) +:+ c = a +:+ (b +:+ c).
Proof.
  induction a as [|ch a IH]; [reflexivity|].
  change (String ch ((a +:+ b) +:+ c) = String ch (a +:+ (b +:+ c))).
  by f_equal.
Qed.

Lemma append_nil_r (a : string) : a +:+ "" = a.
Proof.
  induction a as [|ch a IH]; [reflexivity|].
  change (String ch (a +:+ "") = String ch a). by f_equal.
Qed.

Lemma collect_strings (l : list string) (cmd acc : string) :
  ∃ cmd', collect (py_str <$> l) cmd acc = Some (cmd', acc +:+ spaced l).
Proof.
  revert cmd acc. induction l as [|x l IH]; intros cmd acc.
  - simpl. rewrite append_nil_r. eauto.
  - change (collect (py_str <$> x :: l) cmd acc)
      with (collect (py_str <$> l) (if empty cmd then x else cmd)
              (acc +:+ " " +:+ x)).
    change (spaced (x :: l)) with (" " +:+ x +:+ spaced l).
    destruct (IH (if empty cmd then x else cmd) (acc +:+ " " +:+ x))
      as [cmd' ->].
    exists cmd'. by rewrite !append_assoc.
Qed.

Lemma spaced_join (l : list string) :
  l ≠ [] → spaced l = " " +:+ join_spaces l.
Proof.
  induction l as [|x l IH]; [done|]. intros _.
  destruct l as [|y l]; [simpl; by rewrite append_nil_r|].
  change (spaced (x :: y :: l)) with (" " +:+ x +:+ spaced (y :: l)).
  rewrite IH by done. reflexivity.
Qed.

(** What the list overload stores for a list of strings that is not blank,
    when the variable is not set yet: the elements joined with single
    spaces, after a leading space, as a C string. *)
Lemma initialize_list_command_line (imp : import_result) (l : list string)
    (s : module_state) :
  _is_initialized s = false →
  (∀ exc, imp ≠ import_raises exc) →
  environ s !! "OMNITRACE_COMMAND_LINE" = None →
  l ≠ [] →
  find_first_not_of_space (spaced l) ≠ None →
  environ (state_after (initialize imp (arg_list (py_str <$> l)) s))
    !! "OMNITRACE_COMMAND_LINE" = Some (c_str (" " +:+ join_spaces l)).
Proof.
  intros Hfresh Himp Henv Hl Hns.
  change (initialize imp (arg_list (py_str <$> l)) s)
    with (initialize_list imp (py_str <$> l) s).
  unfold initialize_list. rewrite Hfresh.
  assert (∃ b, _get_use_mpi imp = inl b) as [b ->].
  { destruct imp; simpl; eauto. by destruct (Himp exc). }
  destruct (collect_strings l "" "") as [cmd Hc].
  change ("" +:+ spaced l) with (spaced l) in Hc. rewrite Hc.
  assert (Hne : empty (spaced l) = false).
  { destruct l as [|x l]; [done|]. reflexivity. }
  rewrite Hne.
  destruct (find_first_not_of_space (spaced l)) as [n|] eqn:Hf; [|done].
  destruct (substr_find_first _ n Hf) as [y ->]. simpl.
  rewrite Henv, lookup_insert_eq. by rewrite spaced_join.
Qed.

(** C9, at [initialize(["python", "script.py"])]: the stored command line is
    [" python script.py"], with the leading space that the dropped [substr]
    was meant to remove; the elements joined with single spaces are
    ["python script.py"]. *)
Theorem initialize_argv_keeps_leading_space :
  environ (state_after
             (initialize import_ImportError
                (arg_list [py_str "python"; py_str "script.py"])
                just_imported))
    !! "OMNITRACE_COMMAND_LINE" = Some " python script.py"
  ∧ join_spaces ["python"; "script.py"] = "python script.py".
Proof. split; reflexivity. Qed.

(** *** [finalize] and the session *)

Lemma finalize_repeatedly_done n s calls :
  _is_finalized s = true →
  finalize_repeatedly n s calls
  = (replicate n (Some already_finalized), s, calls).
Proof.
  intros H. induction n as [|n IH]; [done|].
  simpl. unfold finalize. rewrite H. simpl. by rewrite IH.
Qed.

(** X13: [finalize] is one-shot.  On a module that is not finalized, the
    first of any number of consecutive calls succeeds, sets the flag and
    calls [omnitrace_finalize] once; every later call raises "already
    finalized", changes nothing and does not reach [omnitrace_finalize]. *)
Theorem finalize_is_one_shot n s calls :
  _is_finalized s = false →
  finalize_repeatedly (S n) s calls
  = (None :: replicate n (Some already_finalized), mark_finalized s, S calls).
Proof.
  intros H. simpl. unfold finalize. rewrite H. simpl.
  by rewrite finalize_repeatedly_done.
Qed.

(** X14: the two guards are independent.  [initialize] neither reads nor
    writes [_is_finalized]: on a finalized module it raises and establishes
    exactly what it does on the same module not finalized, so a module can
    be initialized after it was finalized.  [finalize] neither reads nor
    writes [_is_initialized] and the session: with [_is_initialized] set to
    either value it raises the same, makes the same calls of
    [omnitrace_finalize] and leaves the same state, that value apart; so on
    a module that is not finalized it succeeds and calls
    [omnitrace_finalize] once, also when the module was never
    initialized. *)
Theorem initialize_finalize_independent imp a s k b :
  raised (initialize imp a (mark_finalized s)) = raised (initialize imp a s)
  ∧ state_after (initialize imp a (mark_finalized s))
    = mark_finalized (state_after (initialize imp a s))
  ∧ _is_finalized (state_after (initialize imp a s)) = _is_finalized s
  ∧ _is_initialized (state_after (finalize s k).1) = _is_initialized s
  ∧ current_session (state_after (finalize s k).1) = current_session s
  ∧ raised (finalize (set_is_initialized b s) k).1 = raised (finalize s k).1
  ∧ state_after (finalize (set_is_initialized b s) k).1
    = set_is_initialized b (state_after (finalize s k).1)
  ∧ (finalize (set_is_initialized b s) k).2 = (finalize s k).2
  ∧ (_is_finalized s = false →
     raised (finalize (set_is_initialized false s) k).1 = None
     ∧ _is_finalized (state_after (finalize (set_is_initialized false s) k).1)
       = true
     ∧ (finalize (set_is_initialized false s) k).2 = S k).
Proof.
  assert (Hfin : _is_initialized (state_after (finalize s k).1)
                 = _is_initialized s
                 ∧ current_session (state_after (finalize s k).1)
                   = current_session s
                 ∧ raised (finalize (set_is_initialized b s) k).1
                   = raised (finalize s k).1
                 ∧ state_after (finalize (set_is_initialized b s) k).1
                   = set_is_initialized b (state_after (finalize s k).1)
                 ∧ (finalize (set_is_initialized b s) k).2 = (finalize s k).2
                 ∧ (_is_finalized s = false →
                    raised (finalize (set_is_initialized false s) k).1 = None
                    ∧ _is_finalized
                        (state_after
                           (finalize (set_is_initialized false s) k).1) = true
                    ∧ (finalize (set_is_initialized false s) k).2 = S k)).
  { unfold finalize, set_is_initialized, mark_finalized, throw, ok. simpl.
    destruct (_is_finalized s) eqn:E; simpl; rewrite ?E; repeat split; done. }
  destruct a as [v|v]; simpl; unfold initialize_string, initialize_list,
    set_env, throw, ok; simpl.
  - destruct (_is_initialized s); [done|].
    by destruct imp.
  - destruct (_is_initialized s); [done|].
    destruct imp; simpl; try done.
    all: destruct (collect v "" "") as [[c l]|]; simpl; [|done].
    all: destruct (empty l); simpl; [done|].
    all: by destruct (substr l _).
Qed.

Lemma collect_cmd (l : list string) (cmd acc : string) :
  fst <$> collect (py_str <$> l) cmd acc
  = Some (if empty cmd then first_nonempty l else cmd).
Proof.
  revert cmd acc. induction l as [|x l IH]; intros cmd acc.
  - simpl. unfold first_nonempty, empty. simpl.
    case_bool_decide; by subst.
  - change (collect (py_str <$> x :: l) cmd acc)
      with (collect (py_str <$> l) (if empty cmd then x else cmd)
              (acc +:+ " " +:+ x)).
    rewrite IH. f_equal. unfold first_nonempty. simpl.
    destruct (empty cmd) eqn:Ec; [|by rewrite Ec].
    by destruct (empty x) eqn:Ex.
Qed.

(** X16: the list overload names the session after the first element that
    is not empty: for a list of strings that is empty or not blank, on a
    module that is not initialized and with an import of [mpi4py] that does
    not raise anything but [ImportError], the call does not raise and
    starts a "trace" session whose command is the first non-empty element
    ([""] when there is none), passed as a C string: cut at its first NUL,
    if it has one. *)
Theorem initialize_list_session (imp : import_result) (l : list string)
    (s : module_state) :
  _is_initialized s = false →
  (∀ exc, imp ≠ import_raises exc) →
  l = [] ∨ find_first_not_of_space (spaced l) ≠ None →
  let r := initialize imp (arg_list (py_str <$> l)) s in
  raised r = None
  ∧ current_session (state_after r)
    = Some (trace_session (c_str (first_nonempty l))).
Proof.
  intros Hfresh Himp Hl.
  change (initialize imp (arg_list (py_str <$> l)) s)
    with (initialize_list imp (py_str <$> l) s).
  cbv zeta. unfold initialize_list. rewrite Hfresh.
  assert (∃ b, _get_use_mpi imp = inl b) as [b ->].
  { destruct imp; simpl; eauto. by destruct (Himp exc). }
  pose proof (collect_cmd l "" "") as Hcmd.
  destruct (collect_strings l "" "") as [cmd Hc].
  change ("" +:+ spaced l) with (spaced l) in Hc. rewrite Hc in Hcmd |- *.
  simpl in Hcmd. injection Hcmd as ->.
  destruct Hl as [-> | Hns]; [done|].
  assert (Hne : empty (spaced l) = false).
  { destruct l as [|x l]; [done|]. reflexivity. }
  rewrite Hne.
  destruct (find_first_not_of_space (spaced l)) as [n|] eqn:Hf; [|done].
  destruct (substr_find_first _ n Hf) as [y ->]. done.
Qed.

(** Three calls of [finalize] on a module just imported. *)
Lemma finalize_is_one_shot_witness :
  finalize_repeatedly 3 just_imported 0
  = ([None; Some already_finalized; Some already_finalized],
     mark_finalized just_imported, 1%nat).
Proof. exact (finalize_is_one_shot 2 just_imported 0 eq_refl). Defined.

(** [initialize(["", "python", "script.py"])]: the session is "python". *)
Lemma initialize_list_session_witness :
  current_session
    (state_after (initialize import_ImportError
                    (arg_list (py_str <$> [""; "python"; "script.py"]))
                    just_imported))
  = Some (trace_session "python").
Proof.
  destruct (initialize_list_session import_ImportError
              [""; "python"; "script.py"] just_imported) as [_ H].
  - reflexivity.
  - intros exc. discriminate.
  - right. vm_compute. discriminate.
  - exact H.
Defined.

(** [initialize(["a\0b", "c"])]: the command handed to [omnitrace_init]
    ends at the NUL, and so does the value of the environment variable. *)
Example initialize_list_cuts_at_nul :
  let r := initialize import_ImportError
             (arg_list (py_str <$> [String "a" (String "000" "b"); "c"]))
             just_imported in
  raised r = None
  ∧ current_session (state_after r) = Some (trace_session "a")
  ∧ environ (state_after r) !! "OMNITRACE_COMMAND_LINE" = Some " a".
Proof. cbv zeta. repeat split; vm_compute; reflexivity. Qed.

End PyModuleFacts.

Module PyProfileFacts.
Import PyProfile.

Section facts.
Variable regex_search : string → string → option bool.
Hypothesis match_all : ∀ name, regex_search "^.*$" name = Some true.

Lemma find_matching_everything (_expr : strset_t) (_name : string) :
  "^.*$" ∈ _expr →
  _find_matching regex_search _expr _name = inl true
  ∨ ∃ e, _find_matching regex_search _expr _name = inr e.
Proof.
  induction _expr as [|itr rest IH]; intros Hin; [by apply elem_of_nil in Hin|].
  simpl. apply elem_of_cons in Hin as [<- | Hin].
  - rewrite match_all. by left.
  - destruct (regex_search itr _name) as [[|]|]; eauto.
Qed.

Lemma ends_in_bind {A B} P (m : flow A) (k : A → flow B) :
  ends_in P m → ends_in P (bind m k).
Proof. by destruct m. Qed.

Lemma update_keeps what s :
  excludes_everything s →
  excludes_everything (_update_ignore_stack_depth what s).
Proof. by destruct what. Qed.

Lemma function_filters_stop what _func s :
  excludes_everything s →
  ends_in excludes_everything (function_filters regex_search what _func s).
Proof.
  intros Hs. pose proof Hs as (Hex & Hin & Hre).
  unfold function_filters. rewrite Hre, Hin. simpl.
  unfold find_matching.
  destruct (find_matching_everything (exclude_functions (_config s)) _func Hex)
    as [-> | [e ->]]; simpl; [|done].
  destruct (regex_search "^<.*>$" _func) as [[|]|]; simpl; try done.
  by apply update_keeps.
Qed.

Lemma filters_stop pframe swhat s :
  excludes_everything s →
  ends_in excludes_everything (filters regex_search pframe swhat s).
Proof.
  intros Hs. unfold filters. destruct pframe as [fr|]; [|done].
  set (s1 := match _omnitrace_path s with Some _ => s | None => _ end).
  assert (H1 : excludes_everything s1) by (subst s1; by destruct (_omnitrace_path s)).
  clearbody s1.
  destruct (what_of swhat) as [what|]; [|done].
  destruct (0 <? _); [by apply update_keeps|].
  destruct (negb _ && _); [done|].
  apply ends_in_bind. by apply function_filters_stop.
Qed.

Lemma profiler_function_silent pframe swhat s :
  excludes_everything s →
  (∃ s', profiler_function regex_search pframe swhat s = Returns s' []
         ∧ excludes_everything s')
  ∨ (∃ e s', profiler_function regex_search pframe swhat s = Raises e s'
             ∧ excludes_everything s').
Proof.
  intros Hs. unfold profiler_function.
  destruct (_disable s); [left; eauto|].
  pose proof (filters_stop pframe swhat (with_disable true s) Hs) as H.
  destruct (filters _ _ _ _) as [[[w l] s']|s'|e s']; simpl in H; [done|..].
  - left. eauto.
  - right. eauto.
Qed.

(** C8: when [exclude_functions] contains ["^.*$"] (a pattern that every
    function name matches) and [include_functions] and
    [restrict_functions] are empty, processing any sequence of interpreter
    events emits no region push or pop at all; every call of
    [profiler_function] returns or raises before the [switch], and the
    filter configuration stays as it is.  The filename sets play no
    part. *)
Theorem exclude_everything_emits_nothing events s :
  excludes_everything s →
  ∃ s', profile regex_search events s = Some (s', [])
        ∧ excludes_everything s'.
Proof.
  revert s. induction events as [|[pframe swhat] rest IH]; intros s Hs.
  - simpl. eauto.
  - simpl.
    destruct (profiler_function_silent pframe swhat s Hs)
      as [(s' & -> & Hs') | (e & s' & -> & Hs')].
    + destruct (IH s' Hs') as (s'' & -> & Hs''). eauto.
    + destruct (IH s' Hs') as (s'' & -> & Hs''). eauto.
Qed.
End facts.

Section pop.
Variable regex_search : string → string → option bool.

Lemma bind_Go {A B} (m : flow A) (k : A → flow B) b :
  bind m k = Go b → ∃ a, m = Go a ∧ k a = Go b.
Proof. destruct m; simpl; [eauto|done|done]. Qed.

Lemma filters_Go pframe swhat s what label s' :
  filters regex_search pframe swhat s = Go (what, label, s') →
  _config s' = _config s ∧ _disable s' = _disable s
  ∧ what_of swhat = Some what.
Proof.
  unfold filters. destruct pframe as [fr|]; [|done].
  set (s1 := match _omnitrace_path s with Some _ => s | None => _ end).
  assert (H1 : _config s1 = _config s ∧ _disable s1 = _disable s)
    by (subst s1; by destruct (_omnitrace_path s)).
  clearbody s1.
  destruct (what_of swhat) as [w|]; [|done].
  destruct (0 <? _); [done|].
  destruct (negb _ && _); [done|].
  intros H.
  apply bind_Go in H as (f1 & _ & H).
  apply bind_Go in H as (f2 & _ & H).
  apply bind_Go in H as (a & _ & H).
  apply bind_Go in H as (l & _ & H).
  destruct (bool_decide (l = "")); [done|].
  injection H as <- <- <-. by destruct H1.
Qed.

(** C10: a RETURN or C_RETURN event that passed every filter reaches
    [_profiler_return], which takes [records.back()] without a test: with
    an empty [records] the call has undefined behaviour; with a non-empty
    one it executes the last closure (one pop of the label it captured)
    and removes it. *)
Theorem profiler_return_pops_unguarded pframe swhat s what label s' :
  _disable s = false →
  filters regex_search pframe swhat (with_disable true s)
    = Go (what, label, s') →
  is_return what = true →
  (records (_config s) = [] →
   profiler_function regex_search pframe swhat s = Undefined)
  ∧ (∀ rs top, records (_config s) = rs ++ [top] →
     profiler_function regex_search pframe swhat s
     = Returns (with_disable false
                  (with_config (set_records rs (_config s')) s'))
               [omnitrace_pop_region top]).
Proof.
  intros Hd Hf Hret. unfold profiler_function. rewrite Hd, Hf.
  apply filters_Go in Hf as (Hc & _ & _). simpl in Hc.
  unfold dispatch. rewrite Hc.
  destruct what; try discriminate Hret.
  all: split; [intros ->; reflexivity|].
  all: intros rs top ->; by rewrite last_snoc, removelast_last.
Qed.
End pop.

Lemma sample_matches_all name : sample_regex_search "^.*$" name = Some true.
Proof. reflexivity. Qed.

(** [f] calling [g] with every function excluded. *)
Lemma exclude_everything_emits_nothing_witness :
  ∃ s', profile sample_regex_search f_calls_g
          (started (configured false false ["^<.*>$"; "^.*$"]))
        = Some (s', []).
Proof.
  destruct (exclude_everything_emits_nothing sample_regex_search
              sample_matches_all f_calls_g
              (started (configured false false ["^<.*>$"; "^.*$"])))
    as (s' & H & _).
  - split; [|split; reflexivity]. simpl. repeat constructor.
  - exists s'. exact H.
Defined.

(** With every function excluded, the call of [f] is skipped and counted:
    [ignore_stack_depth] is 1 afterwards, so the events below [f] return at
    the first test. *)
Example excluded_call_is_counted :
  match profiler_function sample_regex_search (Some (user_frame "f" 10)) "call"
          (started (configured false false ["^<.*>$"; "^.*$"])) with
  | Returns s es => Some (ignore_stack_depth (_config s), es)
  | _ => None
  end = Some (1, []).
Proof. vm_compute. reflexivity. Qed.

(** The same program under the default exclusions, with file and line in
    the labels: two pushes and two pops, balanced. *)
Example f_calls_g_is_traced :
  snd <$> profile sample_regex_search f_calls_g
            (started (configured true true default_exclude_functions))
  = Some [ omnitrace_push_region "[f][app.py:10]";
           omnitrace_push_region "[g][app.py:20]";
           omnitrace_pop_region "[g][app.py:20]";
           omnitrace_pop_region "[f][app.py:10]" ].
Proof. vm_compute. reflexivity. Qed.

(** A [return] of [f] delivered to a profiler that saw no call. *)
Lemma profiler_return_pops_unguarded_witness :
  profiler_function sample_regex_search (Some (user_frame "f" 11)) "return"
    (started (configured false false default_exclude_functions))
  = Undefined.
Proof.
  eapply (profiler_return_pops_unguarded sample_regex_search
            (Some (user_frame "f" 11)) "return"
            (started (configured false false default_exclude_functions))
            PyTrace_RETURN).
  - reflexivity.
  - vm_compute. reflexivity.
  - reflexivity.
  - reflexivity.
Defined.

(** *** Paths, setters and the hook over event sequences *)

Lemma after_last_slash_None x :
  after_last_slash x = None ↔ has_slash x = false.
Proof.
  induction x as [|c x IH]; simpl; [done|].
  destruct (after_last_slash x) as [y|].
  - split; [done|]. intros H. apply orb_false_elim in H as [_ H].
    apply IH in H. done.
  - destruct (Ascii.eqb c "/"); simpl; [done|]. by rewrite <- IH.
Qed.

Lemma before_last_slash_None x :
  before_last_slash x = None ↔ has_slash x = false.
Proof.
  induction x as [|c x IH]; simpl; [done|].
  destruct (before_last_slash x) as [y|].
  - split; [done|]. intros H. apply orb_false_elim in H as [_ H].
    apply IH in H. done.
  - destruct (Ascii.eqb c "/"); simpl; [done|]. by rewrite <- IH.
Qed.

Lemma last_slash_split x b :
  after_last_slash x = Some b →
  has_slash b = false
  ∧ ∃ d, before_last_slash x = Some d ∧ x = d +:+ "/" +:+ b.
Proof.
  revert b. induction x as [|c x IH]; intros b; simpl; [done|].
  destruct (after_last_slash x) as [y|] eqn:E.
  - intros [= <-]. destruct (IH y eq_refl) as (Hy & d & -> & Hx).
    split; [done|]. exists (String c d). split; [done|].
    change (String c x = String c (d +:+ "/" +:+ y)). by rewrite <- Hx.
  - apply after_last_slash_None in E.
    pose proof (proj2 (before_last_slash_None x) E) as ->.
    destruct (Ascii.eqb c "/") eqn:Ec; [|done].
    intros [= <-]. split; [done|]. exists "". split; [done|].
    apply Ascii.eqb_eq in Ec as ->. done.
Qed.

Lemma prefix_append (d y : string) : String.prefix d (d +:+ y) = true.
Proof.
  induction d as [|c d IH]; [by destruct y|].
  change (String.prefix (String c d) (String c (d +:+ y)) = true).
  simpl. destruct (ascii_dec c c); done.
Qed.

Lemma prefix_refl (x : string) : String.prefix x x = true.
Proof.
  induction x as [|c x IH]; [done|]. simpl. by destruct (ascii_dec c c).
Qed.

(** X17: the two path computations split a path at its last ['/'].  The
    file name that [profiler_function] takes from [co_filename] has no
    ['/']; the directory that [profiler_init] stores as [base_module_path]
    is a prefix of the path, so the file of the module itself is always an
    internal path; a path with a ['/'] is the directory, a ['/'] and the
    file name, and a path without one is both its directory and its file
    name. *)
Theorem basename_splits_path (x : string) :
  has_slash (basename x) = false
  ∧ String.prefix (dirname x) x = true
  ∧ (if has_slash x then x = dirname x +:+ "/" +:+ basename x
     else basename x = x ∧ dirname x = x).
Proof.
  unfold basename, dirname.
  destruct (after_last_slash x) as [b|] eqn:E.
  - destruct (last_slash_split x b E) as (Hb & d & Hd & Hx).
    rewrite Hd. simpl. split; [done|]. split.
    + rewrite Hx. apply prefix_append.
    + destruct (has_slash x) eqn:Hs; [done|].
      apply after_last_slash_None in Hs. congruence.
  - pose proof (proj1 (after_last_slash_None x) E) as Hs.
    pose proof (proj2 (before_last_slash_None x) Hs) as ->.
    simpl. rewrite Hs. split; [done|]. split; [apply prefix_refl|done].
Qed.

(** *** The setter of the pattern sets *)

Lemma strset_insert_prefix x t : t `prefix_of` strset_insert x t.
Proof.
  unfold strset_insert. case_bool_decide; [done|]. by apply prefix_app_r.
Qed.

Lemma elem_of_strset_insert y x t :
  y ∈ strset_insert x t ↔ y = x ∨ y ∈ t.
Proof.
  unfold strset_insert. case_bool_decide.
  - split; [by right|]. intros [->|]; done.
  - rewrite elem_of_app, list_elem_of_singleton. tauto.
Qed.

Lemma set_strset_strings (l : list string) (t : strset_t) :
  (_set_strset (PyModule.py_str <$> l) t).2 = None
  ∧ ∀ x, x ∈ (_set_strset (PyModule.py_str <$> l) t).1 ↔ x ∈ t ∨ x ∈ l.
Proof.
  revert t. induction l as [|y l IH]; intros t.
  - split; [done|]. intros x. simpl. rewrite elem_of_nil. tauto.
  - change (_set_strset (PyModule.py_str <$> y :: l) t)
      with (_set_strset (PyModule.py_str <$> l) (strset_insert y t)).
    destruct (IH (strset_insert y t)) as [-> H]. split; [done|].
    intros x. rewrite H, elem_of_strset_insert, elem_of_cons. tauto.
Qed.

Lemma set_strset_prefix inp t : t `prefix_of` (_set_strset inp t).1.
Proof.
  revert t. induction inp as [|o inp IH]; intros t; simpl; [done|].
  destruct (PyModule.cast_string o) as [x|]; simpl; [|done].
  etrans; [apply (strset_insert_prefix x)|apply IH].
Qed.

(** X18: the setter of a pattern property merges, it does not replace.
    Assigning a list of strings does not raise, keeps every pattern that
    was in the set (so assigning the empty list clears nothing, and the
    default exclusions cannot be removed), and the set afterwards holds
    exactly the old patterns and the elements of the list. *)
Theorem set_strset_merges (l : list string) (_targ : strset_t) :
  (_set_strset (PyModule.py_str <$> l) _targ).2 = None
  ∧ _targ `prefix_of` (_set_strset (PyModule.py_str <$> l) _targ).1
  ∧ ∀ x, x ∈ (_set_strset (PyModule.py_str <$> l) _targ).1
         ↔ x ∈ _targ ∨ x ∈ l.
Proof.
  destruct (set_strset_strings l _targ) as [H1 H2].
  split; [done|]. split; [apply set_strset_prefix|done].
Qed.

(** X19: the setter is not atomic.  When an element of the list is not a
    [str], the assignment raises [py::cast_error]; the elements before it
    were already inserted and stay in the set, the elements after it are
    not looked at. *)
Theorem set_strset_cast_error (l : list string) (o : PyModule.py_object)
    (rest : list PyModule.py_object) (_targ : strset_t) :
  PyModule.cast_string o = None →
  _set_strset ((PyModule.py_str <$> l) ++ o :: rest) _targ
  = ((_set_strset (PyModule.py_str <$> l) _targ).1, Some PyModule.cast_error)
  ∧ ∀ x, x ∈ l →
         x ∈ (_set_strset ((PyModule.py_str <$> l) ++ o :: rest) _targ).1.
Proof.
  intros Ho.
  assert (H : _set_strset ((PyModule.py_str <$> l) ++ o :: rest) _targ
              = ((_set_strset (PyModule.py_str <$> l) _targ).1,
                 Some PyModule.cast_error)).
  { revert _targ. induction l as [|y l IH]; intros t.
    - simpl. by rewrite Ho.
    - apply (IH (strset_insert y t)). }
  split; [done|]. intros x Hx. rewrite H. simpl.
  apply set_strset_strings. by right.
Qed.

Section hook.
Variable regex_search : string → string → option bool.

Lemma flow_all_bind {A B} P (Q : B → Prop) (m : flow A) (k : A → flow B) :
  flow_all P (λ _, True) m →
  (∀ a, flow_all P Q (k a)) →
  flow_all P Q (bind m k).
Proof. destruct m; simpl; auto. Qed.

Lemma flow_all_mono {A} (P P' : profiler_state → Prop) (Q Q' : A → Prop) m :
  (∀ s, P s → P' s) → (∀ a, Q a → Q' a) →
  flow_all P Q m → flow_all P' Q' m.
Proof. destruct m; simpl; auto. Qed.

Lemma find_matching_stops e n s Q :
  (∀ b, Q b) → flow_all (eq s) Q (find_matching regex_search e n s).
Proof.
  intros HQ. unfold find_matching.
  destruct (_find_matching regex_search e n); simpl; auto.
Qed.

Lemma function_filters_stops what f s :
  flow_all (λ s', s' = s ∨ s' = _update_ignore_stack_depth what s)
    (λ _, True) (function_filters regex_search what f s).
Proof.
  unfold function_filters, find_matching.
  repeat (simpl; try case_match; auto).
Qed.

Lemma filename_filters_stops force full s :
  flow_all (eq s) (λ _, True) (filename_filters regex_search force full s).
Proof.
  unfold filename_filters, find_matching.
  repeat (simpl; try case_match; auto).
Qed.

Lemma get_args_stops fr s : flow_all (eq s) (λ _, True) (_get_args fr s).
Proof. unfold _get_args. by destruct (f_argvalues fr). Qed.

Lemma get_label_stops fr f file full s :
  flow_all (eq s) (λ _, True) (_get_label fr f file full s).
Proof.
  unfold _get_label, _get_args.
  repeat (simpl; try case_match; auto).
Qed.

(** Where [filters] can leave the state: as it is up to the path, with the
    skip counter changed, or with the label added. *)
Lemma filters_cases (R : profiler_state → Prop) pframe swhat s :
  R s →
  (_omnitrace_path s = None →
   R {| _config := _config s; _disable := _disable s;
        _omnitrace_path := Some (base_module_path (_config s));
        _labels := _labels s |}) →
  (∀ what s1, R s1 → R (_update_ignore_stack_depth what s1)) →
  (∀ l s1, R s1 → R (intern l s1)) →
  flow_all R (λ r, R r.2) (filters regex_search pframe swhat s).
Proof.
  intros Hs Hlatch Hupd Hint. unfold filters.
  destruct pframe as [fr|]; [|done].
  set (s1 := match _omnitrace_path s with Some _ => s | None => _ end).
  assert (H1 : R s1) by (subst s1; destruct (_omnitrace_path s) eqn:E; auto).
  clearbody s1.
  destruct (what_of swhat) as [what|]; [|done].
  destruct (0 <? _); [by apply Hupd|].
  destruct (negb _ && _); [done|].
  apply flow_all_bind.
  { eapply flow_all_mono; [| |apply function_filters_stops]; [|done].
    intros s' [->| ->]; auto. }
  intros force. apply flow_all_bind.
  { eapply flow_all_mono; [| |apply filename_filters_stops]; [|done].
    by intros s' <-. }
  intros force'. apply flow_all_bind.
  { destruct (3 <? _); [|done].
    eapply flow_all_mono; [| |apply get_args_stops]; [|done].
    by intros s' <-. }
  intros _. apply flow_all_bind.
  { eapply flow_all_mono; [| |apply get_label_stops]; [|done].
    by intros s' <-. }
  intros l. destruct (bool_decide (l = "")); simpl; auto.
Qed.

Lemma settings_kept_refl s : settings_kept s s.
Proof. by repeat split. Qed.

Lemma settings_kept_trans s1 s2 s3 :
  settings_kept s1 s2 → settings_kept s2 s3 → settings_kept s1 s3.
Proof.
  intros (A1 & B1 & C1 & D1) (A2 & B2 & C2 & D2).
  repeat split; try congruence. by etrans.
Qed.

(** One call of the hook: what it leaves as it is. *)
Lemma profiler_function_kept pframe swhat s :
  match profiler_function regex_search pframe swhat s with
  | Returns s' _ | Raises _ s' => settings_kept s s'
  | Undefined => True
  end.
Proof.
  unfold profiler_function.
  destruct (_disable s) eqn:Hd; [apply settings_kept_refl|].
  pose (R := λ s', settings (_config s') = settings (_config s)
                   ∧ internal_path s' = internal_path s
                   ∧ _labels s `prefix_of` _labels s').
  assert (HR : flow_all R (λ r, R r.2)
                 (filters regex_search pframe swhat (with_disable true s))).
  { apply filters_cases.
    - by repeat split.
    - simpl. intros E. repeat split; try done.
      unfold internal_path. simpl. by rewrite E.
    - intros what s1 (A & B & C). by destruct what.
    - intros l s1 (A & B & C). repeat split; try done. simpl.
      case_bool_decide; [done|]. etrans; [done|]. by apply prefix_app_r. }
  destruct (filters _ _ _ _) as [[[w l] s']|s'|e s']; simpl in HR.
  - destruct HR as (A & B & C). unfold dispatch.
    destruct w; simpl; try destruct (last _); simpl;
      by repeat split.
  - destruct HR as (A & B & C). by repeat split.
  - destruct HR as (A & B & C). by repeat split.
Qed.

(** X20: the hook only reads its settings.  After any sequence of events
    that the profiler got through, the switches, the verbosity, the module
    path and the six pattern sets of the configuration are what they were
    (only [ignore_stack_depth] and [records] change), the prefix that the
    internal-path test uses is the same, [_disable] is back at its value,
    and the interned labels are the old ones with new ones added at the
    back. *)
Theorem profile_keeps_settings events s s' es :
  profile regex_search events s = Some (s', es) → settings_kept s s'.
Proof.
  revert s es. induction events as [|[pframe swhat] rest IH]; intros s es.
  - intros [= <- <-]. apply settings_kept_refl.
  - simpl. pose proof (profiler_function_kept pframe swhat s) as H.
    destruct (profiler_function _ _ _ _) as [s1 es1|e s1|]; [| |done].
    + destruct (profile _ rest s1) as [[s2 es2]|] eqn:E; [|done].
      intros [= <- <-]. eapply settings_kept_trans; [done|]. by eapply IH.
    + intros E. eapply settings_kept_trans; [done|]. by eapply IH.
Qed.

(** *** Skipped events *)



(** *** Internal frames *)

Lemma internal_step p pframe swhat s :
  include_internal (_config s) = false →
  internal_path s = p →
  match pframe with
  | Some fr => String.prefix p (co_filename fr) = true
  | None => True
  end →
  ∃ s', (profiler_function regex_search pframe swhat s = Returns s' []
         ∨ ∃ e, profiler_function regex_search pframe swhat s = Raises e s')
        ∧ include_internal (_config s') = false
        ∧ internal_path s' = p
        ∧ records (_config s') = records (_config s).
Proof.
  intros Hi Hp Hfr. unfold profiler_function.
  destruct (_disable s) eqn:Hd; [exists s; eauto|].
  pose (I := λ s', include_internal (_config s') = false
                   ∧ internal_path s' = p
                   ∧ records (_config s') = records (_config s)).
  assert (HI : flow_all I (λ _, False)
                 (filters regex_search pframe swhat (with_disable true s))).
  { unfold filters. destruct pframe as [fr|]; [|done].
    set (s1 := match _omnitrace_path (with_disable true s) with
               | Some _ => with_disable true s | None => _ end).
    assert (H1 : I s1 ∧ _omnitrace_path s1 = Some p).
    { subst s1. unfold I, internal_path in *. simpl.
      destruct (_omnitrace_path s) eqn:E; simpl in *; subst;
        rewrite ?E; done. }
    clearbody s1. destruct H1 as [H1 Hpath].
    destruct (what_of swhat) as [what|]; [|done].
    destruct (0 <? _); [by destruct what|].
    destruct (negb _ && _); [done|].
    apply flow_all_bind.
    { eapply flow_all_mono; [| |apply function_filters_stops]; [|done].
      intros s' [->| ->]; [done|by destruct what]. }
    intros force. unfold filename_filters.
    pose proof H1 as (Hi1 & _ & _). rewrite Hi1, Hpath. simpl.
    rewrite Hfr. simpl. done. }
  destruct (filters _ _ _ _) as [[[w l] s']|s'|e s']; simpl in HI; [done|..].
  - destruct HI as (A & B & C). eexists. split; [by left|]. done.
  - destruct HI as (A & B & C). eexists. split; [right; by eexists|]. done.
Qed.

(** X22: with [include_internal] off, events whose frames all lie under
    the internal path (file names that start with it) never push or pop a
    region and never change [records], whatever the pattern sets hold and
    also when a pattern is not a valid regular expression; with an empty
    internal path this is every event. *)
Theorem internal_frames_are_skipped events s :
  include_internal (_config s) = false →
  internal_only (internal_path s) events = true →
  ∃ s', profile regex_search events s = Some (s', [])
        ∧ records (_config s') = records (_config s).
Proof.
  intros Hi. generalize (eq_refl (internal_path s)).
  generalize (internal_path s) at 2 3 as p. intros p Hp. revert s Hi Hp.
  induction events as [|[pframe swhat] rest IH]; intros s Hi Hp Hev.
  - by exists s.
  - simpl in Hev. apply andb_true_iff in Hev as [Hfr Hev].
    destruct (internal_step p pframe swhat s Hi Hp) as (s1 & E & I1 & P1 & R1).
    { destruct pframe; done. }
    destruct (IH s1 I1 P1 Hev) as (s2 & E2 & R2).
    exists s2. simpl. destruct E as [-> | [e ->]]; rewrite E2; simpl.
    all: split; [done|congruence].
Qed.

(** *** A call and its return *)

(** X23: a call and the return after it.  When a CALL or C_CALL event and
    then a RETURN or C_RETURN event both pass the filters, the first pushes
    the region of its label and the second pops a region of that same
    label, the label of the call and not the one computed for the return
    (which differs when the line number is part of it), and [records] is
    back to what it was. *)
Theorem call_then_return_pops_call_label
    pframe1 swhat1 pframe2 swhat2 s what1 label1 s1 what2 label2 s2 :
  _disable s = false →
  filters regex_search pframe1 swhat1 (with_disable true s)
    = Go (what1, label1, s1) →
  is_return what1 = false →
  let after_call :=
    with_disable false
      (with_config (set_records (records (_config s1) ++ [label1])
                      (_config s1)) s1) in
  filters regex_search pframe2 swhat2 (with_disable true after_call)
    = Go (what2, label2, s2) →
  is_return what2 = true →
  ∃ s', profile regex_search [(pframe1, swhat1); (pframe2, swhat2)] s
        = Some (s', [omnitrace_push_region label1;
                     omnitrace_pop_region label1])
        ∧ records (_config s') = records (_config s).
Proof.
  intros Hd Hf1 Hw1 after_call Hf2 Hw2.
  assert (E1 : profiler_function regex_search pframe1 swhat1 s
               = Returns after_call [omnitrace_push_region label1]).
  { unfold profiler_function. rewrite Hd, Hf1. by destruct what1. }
  pose proof (filters_Go _ _ _ _ _ _ _ Hf1) as (C1 & _ & _).
  pose proof (filters_Go _ _ _ _ _ _ _ Hf2) as (C2 & _ & _).
  simpl in C1, C2.
  assert (E2 : profiler_function regex_search pframe2 swhat2 after_call
               = Returns (with_disable false
                            (with_config (set_records (records (_config s1))
                                            (_config s2)) s2))
                         [omnitrace_pop_region label1]).
  { unfold profiler_function. simpl. rewrite Hf2. unfold dispatch.
    rewrite C2. simpl. rewrite last_snoc, removelast_last.
    by destruct what2. }
  eexists. simpl. rewrite E1, E2. simpl. split; [done|]. simpl.
  by rewrite C1.
Qed.

End hook.

(** A list with an [int] in the middle. *)
Lemma set_strset_cast_error_witness :
  _set_strset [PyModule.py_str "^main$"; PyModule.py_int 3;
               PyModule.py_str "^never$"] default_exclude_functions
  = (["^<.*>$"; "^main$"], Some PyModule.cast_error).
Proof.
  destruct (set_strset_cast_error ["^main$"] (PyModule.py_int 3)
              [PyModule.py_str "^never$"] default_exclude_functions eq_refl)
    as [H _].
  exact H.
Defined.

(** [f] calling [g], traced with file and line in the labels. *)
Lemma profile_keeps_settings_witness :
  match profile sample_regex_search f_calls_g
          (started (configured true true default_exclude_functions)) with
  | Some (s', _) =>
      settings_kept (started (configured true true default_exclude_functions))
        s'
  | None => False
  end.
Proof.
  destruct (profile sample_regex_search f_calls_g
              (started (configured true true default_exclude_functions)))
    as [[s' es]|] eqn:E.
  - exact (profile_keeps_settings sample_regex_search f_calls_g _ s' es E).
  - vm_compute in E. discriminate E.
Defined.


(** A call and a return inside the tracer's own package. *)
Lemma internal_frames_are_skipped_witness :
  ∃ s', profile sample_regex_search
          [ (Some (internal_frame "_trace" 40), "call");
            (Some (internal_frame "_trace" 44), "return") ]
          (started (configured true true default_exclude_functions))
        = Some (s', []).
Proof.
  destruct (internal_frames_are_skipped sample_regex_search
              [ (Some (internal_frame "_trace" 40), "call");
                (Some (internal_frame "_trace" 44), "return") ]
              (started (configured true true default_exclude_functions)))
    as (s' & H & _).
  - reflexivity.
  - reflexivity.
  - exists s'. exact H.
Defined.

(** [f] is called at line 10 and returns at line 11: the pop carries the
    label of line 10. *)
Lemma call_then_return_pops_call_label_witness :
  ∃ s', profile sample_regex_search
          [ (Some (user_frame "f" 10), "call");
            (Some (user_frame "f" 11), "return") ]
          (started (configured true true default_exclude_functions))
        = Some (s', [ omnitrace_push_region "[f][app.py:10]";
                      omnitrace_pop_region "[f][app.py:10]" ]).
Proof.
  edestruct (call_then_return_pops_call_label sample_regex_search
               (Some (user_frame "f" 10)) "call"
               (Some (user_frame "f" 11)) "return"
               (started (configured true true default_exclude_functions)))
    as (s' & H & _).
  - reflexivity.
  - lazy. reflexivity.
  - reflexivity.
  - lazy. reflexivity.
  - reflexivity.
  - exists s'. exact H.
Defined.

End PyProfileFacts.

Module PyCoverageFacts.
Import ClockSkew PyCoverage.

Lemma wrap_u64_idemp_l a b : wrap_u64 (wrap_u64 a + b) = wrap_u64 (a + b).
Proof. unfold wrap_u64. by rewrite Zplus_mod_idemp_l. Qed.

Lemma hits_absent (k : key_t) (_data : coverage_data_vector_t) :
  k ∉ key_of <$> _data → hits k _data = 0.
Proof.
  induction _data as [|d l IH]; [done|]. rewrite fmap_cons. simpl.
  rewrite not_elem_of_cons. intros [Hne Hl].
  rewrite bool_decide_false by done. by apply IH.
Qed.

(** The count the first loop leaves for a key. *)
Lemma accumulate_lookup (_data : coverage_data_vector_t)
    (m : coverage_data_map) (k : key_t) :
  foldl accumulate m _data !! k
  = if bool_decide (k ∈ key_of <$> _data)
    then Some (wrap_u64 (default 0 (m !! k) + hits k _data))
    else m !! k.
Proof.
  revert m. induction _data as [|d l IH]; intros m; [done|].
  rewrite fmap_cons. simpl. rewrite IH. unfold accumulate.
  destruct (decide (key_of d = k)) as [<-|Hne].
  - rewrite lookup_insert_eq. simpl.
    rewrite (bool_decide_true (_ ∈ _ :: _)) by apply list_elem_of_here.
    rewrite (bool_decide_true (key_of d = key_of d)) by done.
    case_bool_decide as Hin.
    + rewrite wrap_u64_idemp_l. f_equal. f_equal. lia.
    + rewrite (hits_absent _ _ Hin). f_equal. f_equal. lia.
  - rewrite lookup_insert_ne by done.
    rewrite (bool_decide_false (key_of d = k)) by done.
    destruct (bool_decide (k ∈ key_of <$> l)) eqn:E.
    + apply bool_decide_eq_true in E.
      rewrite bool_decide_true by (by apply list_elem_of_further). done.
    + apply bool_decide_eq_false in E.
      rewrite bool_decide_false; [done|].
      rewrite not_elem_of_cons. done.
Qed.

Lemma wrap_u64_range a : 0 ≤ wrap_u64 a < 2 ^ 64.
Proof. unfold wrap_u64. apply Z.mod_pos_bound. lia. Qed.

Lemma mdata_lookup (_data : coverage_data_vector_t) (k : key_t) :
  foldl accumulate ∅ _data !! k
  = if bool_decide (k ∈ keys _data) then Some (wrap_u64 (hits k _data))
    else None.
Proof.
  rewrite accumulate_lookup, lookup_empty. simpl. unfold keys.
  destruct (bool_decide (k ∈ key_of <$> _data)) eqn:E.
  - apply bool_decide_eq_true in E.
    rewrite bool_decide_true; [done|]. by apply elem_of_list_to_set.
  - apply bool_decide_eq_false in E.
    rewrite bool_decide_false; [done|]. by rewrite elem_of_list_to_set.
Qed.

Lemma mdata_dom (_data : coverage_data_vector_t) :
  dom (foldl accumulate ∅ _data) = keys _data.
Proof.
  apply set_eq. intros k. rewrite elem_of_dom, mdata_lookup.
  case_bool_decide; [|split; [by intros [? ?]|done]].
  split; [done|]. intros _. eauto.
Qed.

Lemma mdata_covered (_data : coverage_data_vector_t) :
  dom (filter (λ kv : key_t * Z, 0 < kv.2) (foldl accumulate ∅ _data))
  = covered_keys _data.
Proof.
  apply set_eq. intros k. unfold covered_keys.
  rewrite elem_of_dom, elem_of_filter. unfold is_Some.
  setoid_rewrite map_lookup_filter_Some. rewrite mdata_lookup.
  case_bool_decide; simpl.
  - split; [intros (v & [= <-] & Hv); done|].
    intros [Hv _]. eauto.
  - split; [intros (v & [=] & _)|]. intros [_ ?]. done.
Qed.

(** The second loop, over a map of counts. *)
Lemma summary_of_map (m : coverage_data_map) :
  map_fold visit empty_summary m
  = {| code_coverage.count :=
         wrap_u64 (Z.of_nat
                     (base.size (filter (λ kv : key_t * Z, 0 < kv.2) m)));
       code_coverage.size := wrap_u64 (Z.of_nat (base.size m));
       code_coverage.covered :=
         data_of (dom (filter (λ kv : key_t * Z, 0 < kv.2) m));
       code_coverage.possible := data_of (dom m) |}.
Proof.
  apply (map_fold_weak_ind (λ r (m : coverage_data_map), r =
    {| code_coverage.count :=
         wrap_u64 (Z.of_nat
                     (base.size (filter (λ kv : key_t * Z, 0 < kv.2) m)));
       code_coverage.size := wrap_u64 (Z.of_nat (base.size m));
       code_coverage.covered :=
         data_of (dom (filter (λ kv : key_t * Z, 0 < kv.2) m));
       code_coverage.possible := data_of (dom m) |})).
  - rewrite map_filter_empty, map_size_empty, dom_empty_L.
    unfold data_of. by rewrite !set_map_empty.
  - intros k n m' r Hk ->. unfold visit.
    rewrite (map_size_insert_None _ _ _ Hk), dom_insert_L.
    assert (Hposs : emplace_key k (data_of (dom m'))
                    = data_of ({[k]} ∪ dom m')).
    { unfold emplace_key, data_of. simpl.
      by rewrite !set_map_union_L, !set_map_singleton_L. }
    destruct (0 <? n) eqn:Hn; simpl.
    + apply Z.ltb_lt in Hn.
      rewrite map_filter_insert_True by done.
      rewrite map_size_insert_None
        by (apply map_lookup_filter_None; by left).
      rewrite dom_insert_L, Hposs.
      assert (Hcov : ∀ X, emplace_key k (data_of X) = data_of ({[k]} ∪ X)).
      { intros X. unfold emplace_key, data_of. simpl.
        by rewrite !set_map_union_L, !set_map_singleton_L. }
      rewrite Hcov. rewrite !wrap_u64_idemp_l.
      f_equal; f_equal; lia.
    + apply Z.ltb_ge in Hn.
      rewrite map_filter_insert_False by (simpl; lia).
      rewrite delete_id by done. rewrite Hposs, wrap_u64_idemp_l.
      f_equal; f_equal; lia.
Qed.

(** The four members of the summary. *)
Lemma coverage_summary_fields (_data : coverage_data_vector_t) :
  code_coverage.count (_coverage_summary _data)
  = wrap_u64 (Z.of_nat (base.size (covered_keys _data)))
  ∧ code_coverage.size (_coverage_summary _data)
    = wrap_u64 (Z.of_nat (base.size (keys _data)))
  ∧ code_coverage.covered (_coverage_summary _data)
    = data_of (covered_keys _data)
  ∧ code_coverage.possible (_coverage_summary _data)
    = data_of (keys _data).
Proof.
  unfold _coverage_summary. rewrite summary_of_map. simpl.
  rewrite <- (size_dom (D := gset key_t) (filter _ _)).
  rewrite <- (size_dom (D := gset key_t) (foldl _ _ _)).
  by rewrite mdata_covered, mdata_dom.
Qed.

(** X24: the summary in terms of the entries.  The two loops of
    [get_summary], over the entries and over the nested maps, compute:
    [size], the number of distinct (module, function, address) keys among
    the entries; [count], the number of those keys whose counts, summed as
    a [size_t], are not 0; [possible], the modules, functions and addresses
    of all keys; [covered], those of the keys that count.  Entries that
    repeat a key are summed, not counted twice, and the order of the
    entries plays no part. *)
Theorem coverage_summary_by_keys (_data : coverage_data_vector_t) :
  _coverage_summary _data
  = {| code_coverage.count :=
         wrap_u64 (Z.of_nat (base.size (covered_keys _data)));
       code_coverage.size := wrap_u64 (Z.of_nat (base.size (keys _data)));
       code_coverage.covered := data_of (covered_keys _data);
       code_coverage.possible := data_of (keys _data) |}.
Proof.
  destruct (coverage_summary_fields _data) as (H1 & H2 & H3 & H4).
  destruct (_coverage_summary _data). simpl in *. by subst.
Qed.

Lemma keys_size (_data : coverage_data_vector_t) :
  (base.size (keys _data) ≤ length _data)%nat.
Proof.
  unfold keys. rewrite <- (length_fmap key_of _data).
  induction (key_of <$> _data) as [|k l IH].
  - by rewrite list_to_set_nil, size_empty.
  - rewrite list_to_set_cons, size_union_alt, size_singleton.
    pose proof (subseteq_size (list_to_set l ∖ {[k]})
                  (list_to_set l : gset key_t)
                  (subseteq_difference_l _ _ _ (reflexivity _))) as H.
    simpl. lia.
Qed.

(** X25: the summary is consistent.  For details that fit in memory,
    [count] is at most [size], [size] is at most the number of entries, and
    every covered module, function and address is also a possible one. *)
Theorem coverage_summary_covered_within_possible
    (_data : coverage_data_vector_t) :
  Z.of_nat (length _data) < 2 ^ 64 →
  let r := _coverage_summary _data in
  0 ≤ code_coverage.count r ≤ code_coverage.size r
  ∧ code_coverage.size r ≤ Z.of_nat (length _data)
  ∧ data_subseteq (code_coverage.covered r) (code_coverage.possible r).
Proof.
  intros Hlen. cbv zeta.
  destruct (coverage_summary_fields _data) as (-> & -> & -> & ->).
  assert (Hsub : covered_keys _data ⊆ keys _data).
  { unfold covered_keys. intros k. rewrite elem_of_filter. tauto. }
  pose proof (subseteq_size _ _ Hsub) as Hsz.
  pose proof (keys_size _data) as Hk.
  unfold wrap_u64. rewrite !Z.mod_small by lia.
  split; [lia|]. split; [lia|].
  unfold data_subseteq, data_of. simpl.
  repeat split; by apply set_map_mono.
Qed.

(** X26: an entry that ran is covered.  When the counts are not negative
    and their sum stays below [2^64], the module, the function and the
    address of every entry with a positive count are in the covered sets,
    also when other entries of the same key have a count of 0. *)
Theorem coverage_summary_covers_run_entries (_data : coverage_data_vector_t)
    (d : coverage_data.coverage_data) :
  Forall (λ itr, 0 ≤ coverage_data.count itr) _data →
  foldr (λ itr n, coverage_data.count itr + n) 0 _data < 2 ^ 64 →
  d ∈ _data →
  0 < coverage_data.count d →
  let r := _coverage_summary _data in
  coverage_data.module d ∈ code_coverage.modules (code_coverage.covered r)
  ∧ coverage_data.function d
      ∈ code_coverage.functions (code_coverage.covered r)
  ∧ coverage_data.address d
      ∈ code_coverage.addresses (code_coverage.covered r).
Proof.
  intros Hnn Hsum Hd Hpos. cbv zeta.
  destruct (coverage_summary_fields _data) as (_ & _ & -> & _).
  assert (Hhits : ∀ k, 0 ≤ hits k _data
                       ≤ foldr (λ itr n, coverage_data.count itr + n) 0 _data).
  { intros k. clear Hsum Hd. induction Hnn as [|x l Hx Hl IH]; simpl; [lia|].
    case_bool_decide; lia. }
  assert (Hge : coverage_data.count d ≤ hits (key_of d) _data).
  { clear Hsum Hhits. induction Hnn as [|x l Hx Hl IH]; simpl.
    - by apply elem_of_nil in Hd.
    - apply elem_of_cons in Hd as [<- | Hd].
      + rewrite bool_decide_true by done.
        assert (0 ≤ hits (key_of d) l); [|lia].
        clear IH. induction Hl as [|y l' Hy Hl' IH']; simpl; [lia|].
        case_bool_decide; lia.
      + specialize (IH Hd). case_bool_decide; lia. }
  assert (Hin : key_of d ∈ covered_keys _data).
  { unfold covered_keys, keys. rewrite elem_of_filter, elem_of_list_to_set.
    split; [|by apply list_elem_of_fmap_2].
    unfold wrap_u64. rewrite Z.mod_small; [lia|].
    specialize (Hhits (key_of d)). lia. }
  unfold data_of. simpl.
  split; [|split].
  - apply elem_of_map. by exists (key_of d).
  - apply elem_of_map. by exists (key_of d).
  - apply elem_of_map. by exists (key_of d).
Qed.

(** X27: when every entry has the count 0, nothing is covered: [count] is
    0 and the covered sets are empty, while the possible sets still list
    every key. *)
Theorem coverage_summary_nothing_run (_data : coverage_data_vector_t) :
  Forall (λ itr, coverage_data.count itr = 0) _data →
  let r := _coverage_summary _data in
  code_coverage.count r = 0
  ∧ code_coverage.covered r = no_data
  ∧ code_coverage.possible r = data_of (keys _data).
Proof.
  intros Hz. cbv zeta.
  destruct (coverage_summary_fields _data) as (-> & _ & -> & ->).
  assert (Hc : covered_keys _data = ∅).
  { apply set_eq. intros k. unfold covered_keys. rewrite elem_of_filter.
    assert (hits k _data = 0) as ->.
    { induction Hz as [|x l Hx Hl IH]; simpl; [done|].
      case_bool_decide; lia. }
    split; [intros [H _]; by vm_compute in H|set_solver]. }
  rewrite Hc, size_empty. unfold data_of. rewrite !set_map_empty.
  done.
Qed.

(** The sample details: two keys, one of them run. *)
Lemma coverage_summary_covered_within_possible_witness :
  code_coverage.count (_coverage_summary demo_details) = 1
  ∧ code_coverage.size (_coverage_summary demo_details) = 2.
Proof.
  destruct (coverage_summary_covered_within_possible demo_details)
    as (_ & _ & _).
  - vm_compute. reflexivity.
  - split; vm_compute; reflexivity.
Defined.

Lemma coverage_summary_covers_run_entries_witness :
  "main" ∈ code_coverage.functions
             (code_coverage.covered (_coverage_summary demo_details)).
Proof.
  destruct (coverage_summary_covers_run_entries demo_details
              (entry "libfoo.so" "main" 4096 2)) as (_ & H & _).
  - repeat constructor; simpl; lia.
  - vm_compute. reflexivity.
  - apply list_elem_of_further, list_elem_of_further, list_elem_of_here.
  - simpl. lia.
  - exact H.
Defined.

Lemma coverage_summary_nothing_run_witness :
  code_coverage.count (_coverage_summary nothing_run) = 0
  ∧ code_coverage.covered (_coverage_summary nothing_run) = no_data.
Proof.
  destruct (coverage_summary_nothing_run nothing_run) as (H1 & H2 & _).
  - repeat constructor.
  - split; [exact H1 | exact H2].
Defined.

End PyCoverageFacts.
